(** * Subject-relationship tooling of gemini-cli: clustering, name resolution,
      shared-evidence retrieval and the relationship cache.

    The development embeds

    - [packages/core/src/utils/clustering.ts]  (module [Clustering]),
    - the SQLite operators the tools rely on   (module [Sqlite]),
    - the [find_sources_by_subject] tool's name lookup
                                               (module [FindSourcesBySubject]),
    - the [find_subject_relationship] tool     (module [FindSubjectRelationship]),
    - the query of the [find_sources_by_subject] tool
                                               (module [FindSourcesBySubjectTool]),
    - the [find_similar_subjects] tool         (module [FindSimilarSubjectsTool]),
    - the path of a query through [sqlite_query]
                                               (module [SQLiteQueryTool]),
    - the relative times of [timestampConverter.ts]
                                               (module [TimestampConverter])

    and then, after the vocabulary in which they are stated, proves the
    properties of these programs.

    Conventions.  A JavaScript [number] that holds a vector coordinate, a
    radius or a threshold is an IEEE 754 binary64 value: Rocq's primitive
    [float].  Row ids, cluster labels and array indices are integers ([Z] and
    [nat]).  Strings are the UTF-8 bytes of their text.  A JavaScript [throw]
    (or a rejected promise) is the [Throw] constructor of [result], carrying
    the error object.  The summarizer is an oracle from a prompt and a timeout
    to a reply; a run of the tool threads the database and the log of the
    calls that reached the summarizer. *)

From Stdlib Require Import String Ascii.
From Stdlib Require Import DecimalString.
From Stdlib Require Import List ZArith Bool Arith Lia.
From Stdlib Require Import Floats Uint63.
From Stdlib Require Import Sorted Permutation.
Import ListNotations.

Set Implicit Arguments.

(** ** Results of fallible code *)

(** A thrown JavaScript error object: [String(e)] is [name: message]. *)
Record JsError : Type := { name : string; message : string }.

Definition Error (msg : string) : JsError := {| name := "Error"; message := msg |}.
Definition TypeError (msg : string) : JsError := {| name := "TypeError"; message := msg |}.
Definition SyntaxError (msg : string) : JsError := {| name := "SyntaxError"; message := msg |}.

Definition error_to_string (e : JsError) : string :=
  (name e ++ ": " ++ message e)%string.

Inductive result (A : Type) : Type :=
| Ok (value : A)
| Throw (e : JsError).

Arguments Ok {A} value.
Arguments Throw {A} e.

Definition bind {A B : Type} (r : result A) (k : A -> result B) : result B :=
  match r with
  | Ok a => k a
  | Throw e => Throw e
  end.

Declare Scope js_scope.
Delimit Scope js_scope with js.
Notation "'let*' x ':=' r 'in' k" := (bind r (fun x => k))
  (at level 10, x name, r at level 100, k at level 200) : js_scope.

(** ** clustering.ts *)

Module Clustering.

Local Open Scope js_scope.

(** [export type Embedding = number[]] *)
Definition Embedding : Type := list float.

(** [undefined] read from an array of numbers behaves as NaN in arithmetic. *)
Definition undefined_number : float := PrimFloat.nan.

(** An array length (below 2^32) as a JavaScript number. *)
Definition number_of_nat (k : nat) : float :=
  PrimFloat.of_uint63 (Uint63.of_Z (Z.of_nat k)).

(** The [for] loop of [euclideanDistance]: [sum += (a[i] - b[i])^2]. *)
Fixpoint sum_of_squares (a b : Embedding) (sum : float) : float :=
  match a, b with
  | x :: a', y :: b' =>
      let diff := PrimFloat.sub x y in
      sum_of_squares a' b' (PrimFloat.add sum (PrimFloat.mul diff diff))
  | _, _ => sum
  end.

Definition length_mismatch : JsError := Error "Embeddings must have the same length".

Definition euclideanDistance (a b : Embedding) : result float :=
  if negb (length a =? length b)%nat
  then Throw length_mismatch
  else Ok (PrimFloat.sqrt (sum_of_squares a b 0%float)).

(** The accumulation loops of [calculateClusterCentroid]:
    [centroid[i] += embedding[i]] for [i < dimensions]. *)
Fixpoint add_embedding (centroid : list float) (embedding : Embedding) : list float :=
  match centroid with
  | [] => []
  | c :: centroid' =>
      PrimFloat.add c (hd undefined_number embedding)
        :: add_embedding centroid' (tl embedding)
  end.

Definition calculateClusterCentroid (embeddings : list Embedding) : option Embedding :=
  match embeddings with
  | [] => None
  | first :: _ =>
      let dimensions := length first in
      let centroid := fold_left add_embedding embeddings (repeat 0%float dimensions) in
      Some (map (fun c => PrimFloat.div c (number_of_nat (length embeddings))) centroid)
  end.

(** The loop of [getNeighbors] over [i = offset, offset+1, ...]; [rest] is
    [embeddings] from position [offset] on. *)
Fixpoint getNeighbors_from (point : Embedding) (pointIdx : nat) (eps : float)
         (rest : list Embedding) (offset : nat) : result (list nat) :=
  match rest with
  | [] => Ok []
  | e :: rest' =>
      if (offset =? pointIdx)%nat
      then getNeighbors_from point pointIdx eps rest' (S offset)
      else
        let* d := euclideanDistance point e in
        let* neighbors := getNeighbors_from point pointIdx eps rest' (S offset) in
        Ok (if PrimFloat.leb d eps then offset :: neighbors else neighbors)
  end.

(** [getNeighbors]: the indices [i <> pointIdx] whose embedding lies within
    [eps] of [embeddings[pointIdx]], in ascending order.  Reading
    [embeddings[pointIdx]] out of range gives [undefined], whose [.length]
    is a TypeError as soon as one distance is computed. *)
Definition not_an_embedding : JsError :=
  TypeError "Cannot read properties of undefined (reading 'length')".

Definition getNeighbors (embeddings : list Embedding) (pointIdx : nat) (eps : float)
  : result (list nat) :=
  match nth_error embeddings pointIdx with
  | Some point => getNeighbors_from point pointIdx eps embeddings 0
  | None => match embeddings with [] => Ok [] | _ :: _ => Throw not_an_embedding end
  end.

(** [clusters[idx] === -1]; an index past the end reads [undefined]. *)
Definition is_unlabelled (clusters : list Z) (idx : nat) : bool :=
  match nth_error clusters idx with
  | Some label => (label =? -1)%Z
  | None => false
  end.

(** [clusters[idx] = clusterId] for an index inside the array (every write
    of [dbscanClustering] is: see [getNeighbors_bound] and
    [is_unlabelled_lt]). *)
Fixpoint array_set (clusters : list Z) (idx : nat) (clusterId : Z) : list Z :=
  match clusters, idx with
  | [] , _ => []
  | _ :: clusters', O => clusterId :: clusters'
  | c :: clusters', S idx' => c :: array_set clusters' idx' clusterId
  end.

(** [neighborQueue.includes(x)] *)
Definition includes (queue : list nat) (x : nat) : bool :=
  existsb (Nat.eqb x) queue.

(** [for (const newNeighbor of neighborNeighbors)
       if (!neighborQueue.includes(newNeighbor)) neighborQueue.push(newNeighbor)] *)
Fixpoint push_new (queue : list nat) (neighborNeighbors : list nat) : list nat :=
  match neighborNeighbors with
  | [] => queue
  | newNeighbor :: more =>
      push_new (if includes queue newNeighbor then queue else queue ++ [newNeighbor]) more
  end.

(** The loop [for (let j = 0; j < neighborQueue.length; j++)] of
    [dbscanClustering], which grows [neighborQueue] while it walks it.  The
    queue never holds an index twice and holds indices below [n] only, so
    the loop leaves through [j >= neighborQueue.length] after at most [n]
    rounds; [rounds] is that bound ([expand_rounds_enough] shows that it is
    never the reason the loop stops). *)
Fixpoint expand (rounds : nat) (embeddings : list Embedding) (eps minPoints : float)
         (clusterId : Z) (j : nat) (neighborQueue : list nat) (clusters : list Z)
  : result (list Z) :=
  match rounds with
  | O => Ok clusters
  | S rounds' =>
      match nth_error neighborQueue j with
      | None => Ok clusters
      | Some neighborIdx =>
          if is_unlabelled clusters neighborIdx
          then
            let clusters := array_set clusters neighborIdx clusterId in
            let* neighborNeighbors := getNeighbors embeddings neighborIdx eps in
            let neighborQueue :=
              if PrimFloat.leb minPoints (number_of_nat (length neighborNeighbors))
              then push_new neighborQueue neighborNeighbors
              else neighborQueue in
            expand rounds' embeddings eps minPoints clusterId (S j) neighborQueue clusters
          else
            expand rounds' embeddings eps minPoints clusterId (S j) neighborQueue clusters
      end
  end.

(** The outer loop [for (let i = 0; i < n; i++)]; [pending] lists the values
    of [i] still to come. *)
Fixpoint scan (embeddings : list Embedding) (eps minPoints : float)
         (pending : list nat) (clusters : list Z) (clusterId : Z) : result (list Z) :=
  match pending with
  | [] => Ok clusters
  | i :: pending' =>
      if negb (is_unlabelled clusters i)
      then scan embeddings eps minPoints pending' clusters clusterId
      else
        let* neighbors := getNeighbors embeddings i eps in
        if PrimFloat.ltb (number_of_nat (length neighbors)) minPoints
        then scan embeddings eps minPoints pending' clusters clusterId
        else
          let clusters := array_set clusters i clusterId in
          let* clusters :=
            expand (length embeddings) embeddings eps minPoints clusterId 0 neighbors clusters in
          scan embeddings eps minPoints pending' clusters (clusterId + 1)%Z
  end.

Definition dbscanClustering (embeddings : list Embedding) (eps minPoints : float)
  : result (list Z) :=
  let n := length embeddings in
  scan embeddings eps minPoints (seq 0 n) (repeat (-1)%Z n) 0%Z.

(** A JavaScript [Map<number, T[]>]: entries in insertion order, one per key. *)
Definition JsMap (T : Type) : Type := list (Z * list T).

Section GroupByCluster.
Variable T : Type.

Fixpoint Map_has (m : JsMap T) (key : Z) : bool :=
  match m with
  | [] => false
  | (k, _) :: m' => (k =? key)%Z || Map_has m' key
  end.

Fixpoint Map_get (m : JsMap T) (key : Z) : option (list T) :=
  match m with
  | [] => None
  | (k, v) :: m' => if (k =? key)%Z then Some v else Map_get m' key
  end.

(** [clusters.set(key, value)]: a new key goes last, a known key keeps
    its place. *)
Fixpoint Map_set (m : JsMap T) (key : Z) (value : list T) : JsMap T :=
  match m with
  | [] => [(key, value)]
  | (k, v) :: m' =>
      if (k =? key)%Z then (k, value) :: m' else (k, v) :: Map_set m' key value
  end.

(** [clusters.get(key)!.push(item)]: the array stored under [key] is
    extended in place. *)
Definition Map_push (m : JsMap T) (key : Z) (item : T) : JsMap T :=
  match Map_get m key with
  | Some members => Map_set m key (members ++ [item])
  | None => m
  end.

(** The loop of [groupByCluster], which reads [clusterIds[i]] for every item.
    Its one caller passes the labels of [dbscanClustering], one per item
    ([dbscanClustering_length]); the model follows the loop as far as both
    arrays go (in JavaScript, items past the end of a shorter [clusterIds]
    would be grouped under the key [undefined]). *)
Fixpoint groupByCluster_loop (items : list T) (clusterIds : list Z) (clusters : JsMap T)
  : JsMap T :=
  match items, clusterIds with
  | item :: items', clusterId :: clusterIds' =>
      if negb (clusterId =? -1)%Z
      then
        let clusters := if negb (Map_has clusters clusterId)
                        then Map_set clusters clusterId []
                        else clusters in
        groupByCluster_loop items' clusterIds' (Map_push clusters clusterId item)
      else groupByCluster_loop items' clusterIds' clusters
  | _, _ => clusters
  end.

Definition groupByCluster (items : list T) (clusterIds : list Z) : JsMap T :=
  groupByCluster_loop items clusterIds [].
End GroupByCluster.

End Clustering.

(** ** SQLite operators used by the tools' queries *)

Module Sqlite.

Local Open Scope string_scope.

(** ASCII case folding, as SQLite's [LOWER], [NOCASE] and [LIKE] do it:
    bytes outside [A-Z] are left as they are. *)
Definition lower_char (c : ascii) : ascii :=
  let n := nat_of_ascii c in
  if ((65 <=? n) && (n <=? 90))%nat then ascii_of_nat (n + 32) else c.

Fixpoint LOWER (s : string) : string :=
  match s with
  | EmptyString => EmptyString
  | String c s' => String (lower_char c) (LOWER s')
  end.

(** [a = b COLLATE NOCASE] *)
Definition nocase_eqb (a b : string) : bool := String.eqb (LOWER a) (LOWER b).

(** Text is stored as UTF-8.  A byte [11xxxxxx] begins a character of
    several bytes and the bytes [10xxxxxx] after it continue it; this is how
    SQLite steps over a character in [LIKE] and counts them in [LENGTH]. *)
Definition is_continuation (c : ascii) : bool :=
  let n := nat_of_ascii c in ((128 <=? n) && (n <? 192))%nat.

Definition is_lead (c : ascii) : bool := (192 <=? nat_of_ascii c)%nat.

Fixpoint skip_continuation (s : string) : string :=
  match s with
  | EmptyString => EmptyString
  | String c s' => if is_continuation c then skip_continuation s' else s
  end.

(** What is left of the text [String c s'] after its first character. *)
Definition after_character (c : ascii) (s' : string) : string :=
  if is_lead c then skip_continuation s' else s'.

(** [s LIKE pattern], no [ESCAPE]: [%] stands for any run of characters,
    [_] for any one character, any other character for itself up to ASCII
    case. *)
Fixpoint LIKE (pattern s : string) {struct pattern} : bool :=
  match pattern with
  | EmptyString => match s with EmptyString => true | String _ _ => false end
  | String p pattern' =>
      if Ascii.eqb p "%" then
        (fix any_run (s : string) : bool :=
           LIKE pattern' s
           || match s with
              | EmptyString => false
              | String _ s' => any_run s'
              end) s
      else if Ascii.eqb p "_" then
        match s with
        | EmptyString => false
        | String c s' => LIKE pattern' (after_character c s')
        end
      else
        match s with
        | EmptyString => false
        | String c s' => Ascii.eqb (lower_char p) (lower_char c) && LIKE pattern' s'
        end
  end.

(** [LENGTH(s)]: the number of characters of a text, not of its bytes.
    [in_character] says that the bytes read last began a character of
    several bytes, so that a continuation byte still belongs to it. *)
Fixpoint LENGTH_from (in_character : bool) (s : string) : nat :=
  match s with
  | EmptyString => O
  | String c s' =>
      if in_character && is_continuation c
      then LENGTH_from true s'
      else S (LENGTH_from (is_lead c) s')
  end.

Definition LENGTH (s : string) : nat := LENGTH_from false s.

(** [ORDER BY]: a stable sort (rows that compare equal keep the order in
    which the scan produced them). *)
Section OrderBy.
Variable Row : Type.
Variable le : Row -> Row -> bool.

Fixpoint insert_row (r : Row) (sorted : list Row) : list Row :=
  match sorted with
  | [] => [r]
  | r' :: sorted' =>
      if le r r' then r :: r' :: sorted' else r' :: insert_row r sorted'
  end.

Fixpoint ORDER_BY (rows : list Row) : list Row :=
  match rows with
  | [] => []
  | r :: rows' => insert_row r (ORDER_BY rows')
  end.
End OrderBy.

(** [db.get]: the first row of the result, [undefined] when there is none. *)
Definition get {Row : Type} (rows : list Row) : option Row := hd_error rows.

(** [LIMIT ?]: a negative limit is no limit. *)
Definition LIMIT {Row : Type} (limit : Z) (rows : list Row) : list Row :=
  if (limit <? 0)%Z then rows else firstn (Z.to_nat limit) rows.

End Sqlite.

(** ** JavaScript string helpers *)

Module JsString.

Local Open Scope string_scope.

(** [String.prototype.toLowerCase], on the UTF-8 bytes of the text.
    Unlike SQLite's [LOWER] it folds letters outside ASCII.  The model folds
    the ASCII letters and the capital letters of the Latin-1 supplement
    (U+00C0 to U+00DE but for the multiplication sign: the bytes [C3 80] to
    [C3 9E] but for [C3 97]); the case mappings of the other scripts are not
    modelled, and what is proved from the folding is stated for ASCII
    text. *)
Definition lower_latin1 (c : ascii) : ascii :=
  let n := nat_of_ascii c in
  if ((128 <=? n) && (n <=? 158) && negb (n =? 151))%nat
  then ascii_of_nat (n + 32)
  else Sqlite.lower_char c.

Fixpoint toLowerCase_from (after_C3 : bool) (s : string) : string :=
  match s with
  | EmptyString => EmptyString
  | String c s' =>
      String (if after_C3 then lower_latin1 c else Sqlite.lower_char c)
             (toLowerCase_from (nat_of_ascii c =? 195)%nat s')
  end.

Definition toLowerCase (s : string) : string := toLowerCase_from false s.

(** White space removed by [trim] (ASCII part). *)
Definition is_space (c : ascii) : bool :=
  let n := nat_of_ascii c in
  ((n =? 32) || ((9 <=? n) && (n <=? 13)))%nat.

Fixpoint trimStart (s : string) : string :=
  match s with
  | EmptyString => EmptyString
  | String c s' => if is_space c then trimStart s' else s
  end.

Fixpoint trimEnd (s : string) : string :=
  match s with
  | EmptyString => EmptyString
  | String c s' =>
      match trimEnd s' with
      | EmptyString => if is_space c then EmptyString else String c EmptyString
      | rest => String c rest
      end
  end.

Definition trim (s : string) : string := trimEnd (trimStart s).

(** [s.split(' ')[0]]: the characters before the first space. *)
Fixpoint first_token (s : string) : string :=
  match s with
  | EmptyString => EmptyString
  | String c s' => if Ascii.eqb c " " then EmptyString else String c (first_token s')
  end.

(** [lines.join('\n')] *)
Definition newline : string := String (ascii_of_nat 10) EmptyString.
Definition join_lines (lines : list string) : string := String.concat newline lines.

(** A string holding one double-quote character. *)
Definition dquote : string := String (ascii_of_nat 34) EmptyString.

(** Truthiness of a string: [''] is falsy. *)
Definition truthy (s : string) : bool := negb (String.eqb s EmptyString).

End JsString.

(** ** The tables of wafer.db

    The tools read and write the SQLite file [wafer.db]; its tables are
    described in [packages/core/src/core/prompts.ts].  A table is the list of
    its rows in scan (rowid) order.  Failures of the database connection itself
    (the [err] argument of the sqlite3 callbacks) are outside the model: every
    statement runs against the in-memory value below. *)

Module Subject.
Record t : Type := { id : Z; subject : string; type : string }.
End Subject.

Module Source.
Record t : Type :=
  { id : Z; source_text : string; tags : string; dates : string;
    group_id : Z; alias_id : option Z }.
End Source.

(** The text of a [source_groups.vector] cell as [JSON.parse] sees it: the
    empty string, the JSON text of an array of numbers, or a text on which
    [JSON.parse] throws a [SyntaxError] with the given message.  The text of
    another JSON value ([null], a number, an object, an array that holds
    something else than numbers) parses without an error and reaches the
    clusterer as it is; such cells are outside the model, which covers the
    databases whose vectors are arrays of numbers or not JSON at all. *)
Inductive VectorText : Type :=
| EmptyText
| JsonNumbers (numbers : Clustering.Embedding)
| Malformed (syntax_error : string).

Module SourceGroup.
Record t : Type :=
  { id : Z; mapping_id : Z; vector : option VectorText; tags : string }.
End SourceGroup.

Module Mapping.
Record t : Type :=
  { id : Z; type : string; app_name : option string;
    db_filename : option string; table_name : option string }.
End Mapping.

Module SourceSubject.
Record t : Type := { source_id : Z; subject_id : Z; score : Z }.
End SourceSubject.

Module Relationship.
(** The columns of [subject_relationships] that the tool reads or writes,
    and [relationship_embedding], which it leaves alone. *)
Record t : Type :=
  { subject_1 : Z; subject_2 : Z;
    relationship_summary : option string;
    relationship_embedding : option string;
    updated_at : string }.
End Relationship.

Record Database : Type :=
  { subjects : list Subject.t;
    sources : list Source.t;
    source_groups : list SourceGroup.t;
    source_subjects : list SourceSubject.t;
    mappings : list Mapping.t;
    subject_relationships : list Relationship.t }.

(** ** The subject lookups shared by the tools (their SQL text is the same) *)

Module SubjectQueries.

Import Sqlite JsString.
Local Open Scope string_scope.

(** [SELECT id, subject FROM subjects WHERE subject = ? COLLATE NOCASE] *)
Definition exactQuery (db : Database) (subjectName : string) : list Subject.t :=
  filter (fun row => nocase_eqb (Subject.subject row) subjectName) (subjects db).

(** [CASE WHEN subject LIKE ?1 THEN 1 WHEN subject LIKE ?2 THEN 2 ELSE 3 END] *)
Definition match_priority (pattern1 pattern2 : string) (row : Subject.t) : nat :=
  if LIKE pattern1 (Subject.subject row) then 1
  else if LIKE pattern2 (Subject.subject row) then 2
  else 3.

(** [ORDER BY match_priority, LENGTH(subject)] *)
Definition fuzzy_le (pattern1 pattern2 : string) (a b : Subject.t) : bool :=
  let pa := match_priority pattern1 pattern2 a in
  let pb := match_priority pattern1 pattern2 b in
  (pa <? pb)%nat
  || ((pa =? pb)%nat
      && (LENGTH (Subject.subject a) <=? LENGTH (Subject.subject b))%nat).

(** [SELECT id, subject, CASE ... END AS match_priority FROM subjects
     WHERE subject LIKE ?3 OR subject LIKE ?4
     ORDER BY match_priority, LENGTH(subject) LIMIT limit],
    run with the parameters [[p1, p2, p1, p2]]. *)
Definition fuzzyQuery (db : Database) (pattern1 pattern2 : string) (limit : nat)
  : list Subject.t :=
  firstn limit
    (ORDER_BY (fuzzy_le pattern1 pattern2)
       (filter (fun row => LIKE pattern1 (Subject.subject row)
                           || LIKE pattern2 (Subject.subject row))
               (subjects db))).

(** [`%${subjectName}%`] and [`%${subjectName.split(' ')[0]}%`] *)
Definition patternExact (subjectName : string) : string := "%" ++ subjectName ++ "%".
Definition patternPartial (subjectName : string) : string :=
  "%" ++ first_token subjectName ++ "%".

End SubjectQueries.

(** ** find_sources_by_subject: name lookup *)

Module FindSourcesBySubject.

Import Sqlite SubjectQueries.

(** [findSubjectIdByName]: exact match first, fuzzy match on a miss;
    [None] is the [null] it resolves to when nothing matches. *)
Definition findSubjectIdByName (db : Database) (subjectName : string) : option Z :=
  match get (exactQuery db subjectName) with
  | Some row => Some (Subject.id row)
  | None =>
      match get (fuzzyQuery db (patternExact subjectName) (patternPartial subjectName) 1) with
      | Some row2 => Some (Subject.id row2)
      | None => None
      end
  end.

End FindSourcesBySubject.

(** ** find_subject_relationship *)

Module FindSubjectRelationship.

Import Sqlite JsString SubjectQueries Clustering.
Local Open Scope string_scope.
Local Open Scope js_scope.

(** *** Parameters and validation *)

Record FindSubjectRelationshipToolParams : Type :=
  { subject_1 : string; subject_2 : string }.

Record ToolResult : Type := { llmContent : string; returnDisplay : string }.

Definition must_be_different : string := "subject_1 and subject_2 must be different".

(** [validateToolParams].  [SchemaValidator.validate] checks that both
    properties are present strings, which the record type already says. *)
Definition validateToolParams (params : FindSubjectRelationshipToolParams) : option string :=
  if negb (truthy (subject_1 params)) || String.eqb (trim (subject_1 params)) ""
  then Some "subject_1 cannot be empty"
  else if negb (truthy (subject_2 params)) || String.eqb (trim (subject_2 params)) ""
  then Some "subject_2 cannot be empty"
  else if String.eqb (toLowerCase (trim (subject_1 params)))
                     (toLowerCase (trim (subject_2 params)))
  then Some must_be_different
  else None.

(** *** Resolving the two names *)

Definition no_matching_subject (subjectName : string) : JsError :=
  Error ("No matching subject found for " ++ dquote ++ subjectName ++ dquote).

(** [a || b] on rows: [undefined] is the only falsy row. *)
Definition row_or (a b : option Subject.t) : option Subject.t :=
  match a with Some _ => a | None => b end.

(** [results[k]] of the array [Promise.all] resolves to. *)
Definition result_at (results : list (option Subject.t)) (k : nat) : option Subject.t :=
  match nth_error results k with Some row => row | None => None end.

Definition findBestMatchingSubjects (db : Database) (subject1Name subject2Name : string)
           (subject1Row subject2Row : option Subject.t) : result (Z * Z) :=
  match subject1Row, subject2Row with
  | Some row1, Some row2 =>
      (* queries.length === 0 *)
      Ok (Subject.id row1, Subject.id row2)
  | _, _ =>
      let fuzzy subjectName :=
        get (fuzzyQuery db (patternExact subjectName) (patternPartial subjectName) 20) in
      let queries :=
        ((match subject1Row with None => [fuzzy subject1Name] | Some _ => [] end)
           ++ (match subject2Row with None => [fuzzy subject2Name] | Some _ => [] end))%list in
      let results := queries in
      let finalSubject1 := row_or subject1Row (result_at results 0) in
      let finalSubject2 :=
        row_or subject2Row
               (result_at results (match subject1Row with Some _ => 0 | None => 1 end)) in
      match finalSubject1, finalSubject2 with
      | None, _ => Throw (no_matching_subject subject1Name)
      | Some _, None => Throw (no_matching_subject subject2Name)
      | Some row1, Some row2 => Ok (Subject.id row1, Subject.id row2)
      end
  end.

Definition findSubjectIdsByName (db : Database) (subject1Name subject2Name : string)
  : result (Z * Z) :=
  let subject1Row := get (exactQuery db subject1Name) in
  let subject2Row := get (exactQuery db subject2Name) in
  match subject1Row, subject2Row with
  | Some row1, Some row2 => Ok (Subject.id row1, Subject.id row2)
  | _, _ => findBestMatchingSubjects db subject1Name subject2Name subject1Row subject2Row
  end.

(** *** The shared-evidence query *)

(** One row of the join [sources s JOIN source_groups g JOIN source_subjects
    ss JOIN subjects sub LEFT JOIN mappings m]. *)
Record QueryRow : Type :=
  { row_source : Source.t;
    row_group : SourceGroup.t;
    row_subject : Subject.t;
    row_mapping : option Mapping.t }.

(** [LEFT JOIN mappings m ON g.mapping_id = m.id] *)
Definition left_join_mappings (db : Database) (g : SourceGroup.t) : list (option Mapping.t) :=
  match filter (fun m => (Mapping.id m =? SourceGroup.mapping_id g)%Z) (mappings db) with
  | [] => [None]
  | matches => map Some matches
  end.

Definition joinedRows (db : Database) : list QueryRow :=
  flat_map (fun s =>
    flat_map (fun g =>
      if (Source.group_id s =? SourceGroup.id g)%Z then
        flat_map (fun ss =>
          if (Source.id s =? SourceSubject.source_id ss)%Z then
            flat_map (fun sub =>
              if (SourceSubject.subject_id ss =? Subject.id sub)%Z then
                map (fun m => {| row_source := s; row_group := g;
                                 row_subject := sub; row_mapping := m |})
                    (left_join_mappings db g)
              else [])
            (subjects db)
          else [])
        (source_subjects db)
      else [])
    (source_groups db))
  (sources db).

(** [WHERE LOWER(sub.subject) IN (?1, ..) AND g.vector IS NOT NULL] *)
Definition where_clause (lowered : list string) (row : QueryRow) : bool :=
  existsb (String.eqb (LOWER (Subject.subject (row_subject row)))) lowered
  && match SourceGroup.vector (row_group row) with Some _ => true | None => false end.

(** [COUNT(DISTINCT LOWER(sub.subject))] over the rows of one group. *)
Definition count_distinct_subjects (rows : list QueryRow) : nat :=
  length (nodup string_dec (map (fun row => LOWER (Subject.subject (row_subject row))) rows)).

(** The keys of [GROUP BY s.id], in the order of [ORDER BY s.id]. *)
Definition group_keys (rows : list QueryRow) : list Z :=
  ORDER_BY Z.leb (nodup Z.eq_dec (map (fun row => Source.id (row_source row)) rows)).

(** The statement of [dbscanClusterSubjectEmbeddings], run with
    [[...lowered, wantCount]]: one output row per source id whose joined rows
    name [wantCount] distinct subjects.  The columns that are not grouped
    are taken from a row of the group (its first one). *)
Definition sourceGroupQuery (db : Database) (lowered : list string) (wantCount : nat)
  : list QueryRow :=
  let rows := filter (where_clause lowered) (joinedRows db) in
  flat_map (fun key =>
              let grouped := filter (fun row => (Source.id (row_source row) =? key)%Z) rows in
              if (count_distinct_subjects grouped =? wantCount)%nat
              then firstn 1 grouped
              else [])
           (group_keys rows).

(** *** Clustering the shared evidence *)

(** The [sourceGroup] object of a [JoinedSourceGroup].  The result row has
    two columns called [mapping_id] ([g.mapping_id] and [m.id AS mapping_id]);
    the row object keeps the later one, so the property is [m.id], [null]
    when the [LEFT JOIN] found no mapping. *)
Record SourceGroupObject : Type :=
  { id : Z; mapping_id : option Z; vector : VectorText; tags : string }.

Record JoinedSourceGroup : Type :=
  { sourceGroup : SourceGroupObject;
    source : Source.t;
    mapping : option Mapping.t }.

(** An element of the local array [sourceGroups]. *)
Record ClusterItem : Type := { group : JoinedSourceGroup; item_vector : Embedding }.

Definition toJoinedSourceGroup (row : QueryRow) (text : VectorText) : JoinedSourceGroup :=
  {| sourceGroup :=
       {| id := SourceGroup.id (row_group row);
          mapping_id := option_map Mapping.id (row_mapping row);
          vector := text;
          tags := SourceGroup.tags (row_group row) |};
     source := row_source row;
     mapping := row_mapping row |}.

(** [for (const row of rows)]: rows to [sourceGroups]. *)
Fixpoint collectSourceGroups (rows : list QueryRow) : result (list ClusterItem) :=
  match rows with
  | [] => Ok []
  | row :: rows' =>
      match SourceGroup.vector (row_group row) with
      | None | Some EmptyText => collectSourceGroups rows'   (* if (!row.vector) continue *)
      | Some (Malformed msg) => Throw (SyntaxError msg)      (* JSON.parse throws *)
      | Some (JsonNumbers v) =>
          let* items := collectSourceGroups rows' in
          Ok ({| group := toJoinedSourceGroup row (JsonNumbers v); item_vector := v |} :: items)
      end
  end.

(** The array handed to the clusterer for a list of subject names. *)
Definition clustererInput (db : Database) (subjects : list string) : result (list ClusterItem) :=
  collectSourceGroups
    (sourceGroupQuery db (map toLowerCase subjects) (length subjects)).

(** [for (const [clusterId, clusterItems] of clusters)]: the return value. *)
Definition clustersWithCentroids (clusters : JsMap ClusterItem)
  : list (list JoinedSourceGroup * Embedding) :=
  flat_map (fun entry : Z * list ClusterItem =>
              let clusterItems := snd entry in
              match calculateClusterCentroid (map item_vector clusterItems) with
              | Some centroid => [(map group clusterItems, centroid)]
              | None => []
              end)
           clusters.

(** The body of the [try] block. *)
Definition processClustering (rows : list QueryRow) (eps minPoints : float)
  : result (list (list JoinedSourceGroup * Embedding)) :=
  let* sourceGroups := collectSourceGroups rows in
  match sourceGroups with
  | [] => Ok []
  | _ :: _ =>
      let vectors := map item_vector sourceGroups in
      let* clusterIds := dbscanClustering vectors eps minPoints in
      Ok (clustersWithCentroids (groupByCluster sourceGroups clusterIds))
  end.

Definition dbscanClusterSubjectEmbeddings (db : Database) (subjects : list string)
           (eps minPoints : float) : result (list (list JoinedSourceGroup * Embedding)) :=
  match subjects with
  | [] => Ok []
  | _ :: _ =>
      match sourceGroupQuery db (map toLowerCase subjects) (length subjects) with
      | [] => Ok []
      | rows =>
          match processClustering rows eps minPoints with
          | Ok out => Ok out
          | Throw parseError =>
              Throw (Error ("Failed to process clustering: " ++ error_to_string parseError))
          end
      end
  end.

(** *** Sampling and the prompt *)

(** [for (let i = 0; i < samplesToTake; i++)
       sampledSources.push(clusterSources[i].source.source_text)];
    [remaining] is [samplesToTake - i]. *)
Fixpoint sample_loop (clusterSources : list JoinedSourceGroup) (i remaining : nat)
  : list string :=
  match remaining with
  | O => []
  | S remaining' =>
      match nth_error clusterSources i with
      | Some joined =>
          Source.source_text (source joined) :: sample_loop clusterSources (S i) remaining'
      | None => []
      end
  end.

Definition sample_cluster (clusterSources : list JoinedSourceGroup) : list string :=
  let samplesToTake := Nat.min 5 (length clusterSources) in
  sample_loop clusterSources 0 samplesToTake.

Definition sampleSources (clusters : list (list JoinedSourceGroup * Embedding))
  : list string :=
  flat_map (fun entry => sample_cluster (fst entry)) clusters.

Definition indent : string := "        ".

Definition createSubjectUnderstandingPrompt (sources subject1 subject2 : string) : string :=
  let isMainUserInvolved := String.eqb subject1 "Sam Hall" || String.eqb subject2 "Sam Hall" in
  let mainUser := "Sam Hall" in
  let otherSubject := if String.eqb subject1 mainUser then subject2 else subject1 in
  if isMainUserInvolved then
    join_lines
      [ "";
        indent ++ "### Your job is to understand the relationship between the main user, "
          ++ mainUser ++ ", and the person being referenced: " ++ otherSubject ++ ".";
        "";
        indent ++ "### Context:";
        indent ++ "- The 'Sources' you're being shown are from various databases with various Android applications belonging to "
          ++ mainUser ++ ".";
        indent ++ "- The data was sampled to have high variance and is not representative of the entirety of the data.";
        indent ++ "- Since " ++ otherSubject ++ " appears in " ++ mainUser
          ++ "'s data, they have some relationship to " ++ mainUser ++ ".";
        "";
        indent ++ "### Instructions:";
        indent ++ "- Provide a concise yet versatile description of the relationship between "
          ++ mainUser ++ " and " ++ otherSubject ++ ".";
        indent ++ "- Keep descriptions roughly a paragraph long (there should never be any newlines in your description).";
        indent ++ "- Don't use any filler language.";
        indent ++ "- Never introduce any bias or opinion; they should be purely factual.";
        "";
        indent ++ "### Sources:";
        indent ++ sources ]
  else
    join_lines
      [ "";
        indent ++ "### Your job is to understand the relationship between "
          ++ subject1 ++ " and " ++ subject2 ++ ".";
        "";
        indent ++ "### Context:";
        indent ++ "- The 'Sources' you're being shown are from various databases with various Android applications.";
        indent ++ "- The data was sampled to have high variance and is not representative of the entirety of the data.";
        "";
        indent ++ "### Instructions:";
        indent ++ "- Provide a concise yet versatile description of the relationship between "
          ++ subject1 ++ " and " ++ subject2 ++ ".";
        indent ++ "- Keep descriptions roughly a paragraph long (there should never be any newlines in your description).";
        indent ++ "- Don't use any filler language.";
        indent ++ "- Never introduce any bias or opinion; they should be purely factual.";
        "";
        indent ++ "### Sources:";
        indent ++ sources ].

(** *** The summarizer *)

(** What [geminiClient.generateContent] does with a prompt and the delay of
    the [AbortSignal] it is given: it resolves to a response, whose text
    [getResponseText] extracts ([None] when there is none), or it rejects
    (backend failure, or the signal aborting the call), with an [Error] or
    with another value ([None]). *)
Inductive GeminiReply : Type :=
| Responds (text : option string)
| Rejects (error : option JsError).

(** The collaborators reached through [this.config], and the value of
    [datetime('now')]. *)
Record Config : Type :=
  { generateContent : string -> Z -> GeminiReply;
    now : string }.

(** A call made to the summarizer: its prompt and the timeout in ms. *)
Definition GeminiCall : Type := (string * Z)%type.

Definition callGeminiForRelationshipSummary (config : Config) (prompt : string)
  : result string * list GeminiCall :=
  let timeout := 30000%Z in             (* AbortSignal.timeout(30000) *)
  (match generateContent config prompt timeout with
   | Responds (Some relationshipSummary) =>
       Ok (if truthy relationshipSummary then relationshipSummary
           else "Unable to generate relationship summary")
   | Responds None => Ok "Unable to generate relationship summary"
   | Rejects error =>
       Throw (Error ("Failed to generate relationship summary: "
                       ++ match error with
                          | Some e => message e
                          | None => "Unknown error"
                          end))
   end,
   [(prompt, timeout)]).

(** The local [subjects] of [generateRelationshipSummary]. *)
Definition summary_subjects (firstId secondId : Z) (subject1Name subject2Name : string)
  : list string :=
  let mainUserId := 1%Z in
  if (firstId =? mainUserId)%Z then [subject2Name]
  else if (secondId =? mainUserId)%Z then [subject1Name]
  else [subject1Name; subject2Name].

(** The number literal [0.2]: the binary64 value nearest to it. *)
Definition default_eps : float := 0x1.999999999999ap-3%float.
Definition default_minPoints : float := 2%float.

Definition generateRelationshipSummary (config : Config) (db : Database)
           (firstId secondId : Z) (subject1Name subject2Name : string)
  : result (option string) * list GeminiCall :=
  let subjects := summary_subjects firstId secondId subject1Name subject2Name in
  match dbscanClusterSubjectEmbeddings db subjects default_eps default_minPoints with
  | Throw e => (Throw e, [])
  | Ok [] => (Ok None, [])
  | Ok clusters =>
      let sourcesText := join_lines (sampleSources clusters) in
      let relationshipPrompt :=
        createSubjectUnderstandingPrompt sourcesText subject1Name subject2Name in
      match callGeminiForRelationshipSummary config relationshipPrompt with
      | (Ok summary, calls) => (Ok (Some summary), calls)
      | (Throw e, calls) => (Throw e, calls)
      end
  end.

(** *** The relationship table *)

(** Modelled from the spec: the [CREATE TABLE] statement of
    [subject_relationships] is not part of the sources.  The tool orders the
    pair "for the CHECK constraint" and the data model states the invariant
    [entityLow < entityHigh], so the constraint is taken to be
    [CHECK (subject_1 < subject_2)]; [ON CONFLICT(subject_1, subject_2)]
    presupposes a uniqueness constraint on that pair of columns. *)
Definition check_constraint (subject_1 subject_2 : Z) : bool :=
  (subject_1 <? subject_2)%Z.

Definition check_failed : string := "SQLITE_CONSTRAINT: CHECK constraint failed".

Definition same_pair (firstId secondId : Z) (row : Relationship.t) : bool :=
  (Relationship.subject_1 row =? firstId)%Z && (Relationship.subject_2 row =? secondId)%Z.

(** [SELECT relationship_summary FROM subject_relationships
     WHERE subject_1 = ? AND subject_2 = ?] *)
Definition selectRelationship (db : Database) (firstId secondId : Z) : list Relationship.t :=
  filter (same_pair firstId secondId) (subject_relationships db).

(** [INSERT ... ON CONFLICT(subject_1, subject_2) DO UPDATE SET
     relationship_summary = excluded.relationship_summary,
     updated_at = datetime('now')] on the rows of the table. *)
Fixpoint upsert (rows : list Relationship.t) (firstId secondId : Z)
         (relationshipSummary : option string) (timestamp : string) : list Relationship.t :=
  match rows with
  | [] =>
      [ {| Relationship.subject_1 := firstId;
           Relationship.subject_2 := secondId;
           Relationship.relationship_summary := relationshipSummary;
           Relationship.relationship_embedding := None;
           Relationship.updated_at := timestamp |} ]
  | row :: rows' =>
      if same_pair firstId secondId row
      then {| Relationship.subject_1 := Relationship.subject_1 row;
              Relationship.subject_2 := Relationship.subject_2 row;
              Relationship.relationship_summary := relationshipSummary;
              Relationship.relationship_embedding := Relationship.relationship_embedding row;
              Relationship.updated_at := timestamp |} :: rows'
      else row :: upsert rows' firstId secondId relationshipSummary timestamp
  end.

Definition with_relationships (db : Database) (rows : list Relationship.t) : Database :=
  {| subjects := subjects db;
     sources := sources db;
     source_groups := source_groups db;
     source_subjects := source_subjects db;
     mappings := mappings db;
     subject_relationships := rows |}.

Definition updateSubjectRelationship (config : Config) (db : Database)
           (firstId secondId : Z) (relationshipSummary : option string) : result Database :=
  if check_constraint firstId secondId
  then Ok (with_relationships db
             (upsert (subject_relationships db) firstId secondId
                     relationshipSummary (now config)))
  else Throw (Error ("Failed to update relationship: " ++ check_failed)).

(** *** The operation *)

(** What a run can change: the database file, and the calls that reached
    the summarizer so far. *)
Record World : Type := { wafer_db : Database; gemini_calls : list GeminiCall }.

(** [const [firstId, secondId] = subject1Id < subject2Id ? ... : ...] *)
Definition ordered_pair (subject1Id subject2Id : Z) : Z * Z :=
  if (subject1Id <? subject2Id)%Z then (subject1Id, subject2Id) else (subject2Id, subject1Id).

(** [row && row.relationship_summary] *)
Definition existing_summary (row : option Relationship.t) : option string :=
  match row with
  | Some r =>
      match Relationship.relationship_summary r with
      | Some summary => if truthy summary then Some summary else None
      | None => None
      end
  | None => None
  end.

Definition no_shared_sources : string := "No shared sources found".

(** [relationshipSummary || 'No shared sources found'] *)
Definition summary_or_default (relationshipSummary : option string) : string :=
  match relationshipSummary with
  | Some summary => if truthy summary then summary else no_shared_sources
  | None => no_shared_sources
  end.

(** [getOrCreateSubjectRelationship], from the point where the database is
    open: the file [wafer.db] is taken to exist, and closing the connection
    is not modelled. *)
Definition getOrCreateSubjectRelationship (config : Config) (world : World)
           (subject1Name subject2Name : string) : result string * World :=
  let db := wafer_db world in
  match findSubjectIdsByName db subject1Name subject2Name with
  | Throw error => (Throw error, world)
  | Ok (subject1Id, subject2Id) =>
      let (firstId, secondId) := ordered_pair subject1Id subject2Id in
      match existing_summary (get (selectRelationship db firstId secondId)) with
      | Some summary => (Ok summary, world)
      | None =>
          let (generated, calls) :=
            generateRelationshipSummary config db firstId secondId
                                        subject1Name subject2Name in
          let called := (gemini_calls world ++ calls)%list in
          match generated with
          | Throw generateError =>
              (Throw generateError, {| wafer_db := db; gemini_calls := called |})
          | Ok relationshipSummary =>
              match updateSubjectRelationship config db firstId secondId
                                              relationshipSummary with
              | Throw generateError =>
                  (Throw generateError, {| wafer_db := db; gemini_calls := called |})
              | Ok db' =>
                  (Ok (summary_or_default relationshipSummary),
                   {| wafer_db := db'; gemini_calls := called |})
              end
          end
      end
  end.

Definition execute (config : Config) (world : World)
           (params : FindSubjectRelationshipToolParams) : ToolResult * World :=
  match validateToolParams params with
  | Some validationError =>
      ({| llmContent := "Error: Invalid parameters provided. Reason: " ++ validationError;
          returnDisplay := validationError |},
       world)
  | None =>
      match getOrCreateSubjectRelationship config world
              (trim (subject_1 params)) (trim (subject_2 params)) with
      | (Ok relationshipSummary, world') =>
          let resultText :=
            if truthy relationshipSummary then relationshipSummary else no_shared_sources in
          ({| llmContent := resultText; returnDisplay := resultText |}, world')
      | (Throw error, world') =>
          let errorMessage :=
            "Failed to get or create subject relationship: " ++ message error in
          ({| llmContent := errorMessage; returnDisplay := errorMessage |}, world')
      end
  end.

End FindSubjectRelationship.

(** ** find_sources_by_subject: the tool *)

Module SourceWithSubject.
Record t : Type := { source : Source.t; subject : Subject.t; score : Z }.
End SourceWithSubject.

Module FindSourcesBySubjectTool.

Import Sqlite JsString SubjectQueries FindSourcesBySubject.
Local Open Scope string_scope.

(** The schema gives [limit] the type NUMBER; the model takes the whole
    numbers (a fractional limit passes the range check below and is then
    refused by SQLite, which is outside the model). *)
Record FindSourcesBySubjectToolParams : Type :=
  { subject : string; limit : option Z }.

(** [validateToolParams].  [SchemaValidator.validate] checks that [subject]
    is a present string and [limit] a number, which the record type
    already says. *)
Definition validateToolParams (params : FindSourcesBySubjectToolParams) : option string :=
  if negb (truthy (subject params)) || String.eqb (trim (subject params)) ""
  then Some "subject cannot be empty"
  else
    match limit params with
    | Some l =>
        if (l <? 1)%Z || (100 <? l)%Z
        then Some "limit must be between 1 and 100"
        else None
    | None => None
    end.

(** [params.limit || 10] *)
Definition limit_or_default (limit : option Z) : Z :=
  match limit with
  | Some l => if (l =? 0)%Z then 10%Z else l
  | None => 10%Z
  end.

(** [FROM sources s JOIN source_subjects ss ON s.id = ss.source_id
     JOIN subjects sub ON ss.subject_id = sub.id WHERE sub.id = ?], each row
    as the object that [rows.map] builds from it. *)
Definition joinedRows (db : Database) (subjectId : Z) : list SourceWithSubject.t :=
  flat_map (fun s =>
    flat_map (fun ss =>
      if (Source.id s =? SourceSubject.source_id ss)%Z then
        flat_map (fun sub =>
          if (SourceSubject.subject_id ss =? Subject.id sub)%Z
             && (Subject.id sub =? subjectId)%Z
          then [ {| SourceWithSubject.source := s;
                    SourceWithSubject.subject := sub;
                    SourceWithSubject.score := SourceSubject.score ss |} ]
          else [])
        (subjects db)
      else [])
    (source_subjects db))
  (sources db).

(** [ORDER BY ss.score DESC, s.id] *)
Definition by_score_then_id (a b : SourceWithSubject.t) : bool :=
  (SourceWithSubject.score b <? SourceWithSubject.score a)%Z
  || ((SourceWithSubject.score a =? SourceWithSubject.score b)%Z
      && (Source.id (SourceWithSubject.source a)
          <=? Source.id (SourceWithSubject.source b))%Z).

(** [findSourcesBySubject], from the point where the database is open.
    [if (!subjectId)] holds for [null] and for the id 0.  Rows that agree on
    score and source id come in the order of the scan. *)
Definition findSourcesBySubject (db : Database) (subjectName : string) (limit : Z)
  : list SourceWithSubject.t :=
  match findSubjectIdByName db subjectName with
  | None => []
  | Some subjectId =>
      if (subjectId =? 0)%Z then []
      else LIMIT limit (ORDER_BY by_score_then_id (joinedRows db subjectId))
  end.

End FindSourcesBySubjectTool.

(** ** find_similar_subjects *)

Module FindSimilarSubjectsTool.

Import Sqlite JsString.
Local Open Scope string_scope.

(** [limit] is taken to be a whole number, as above. *)
Record FindSimilarSubjectsToolParams : Type :=
  { subject : string; limit : option Z; similarity_threshold : option float }.

Definition validateToolParams (params : FindSimilarSubjectsToolParams) : option string :=
  if negb (truthy (subject params)) || String.eqb (trim (subject params)) ""
  then Some "Subject cannot be empty"
  else
    if match limit params with
       | Some l => (l <=? 0)%Z || (100 <? l)%Z
       | None => false
       end
    then Some "Limit must be between 1 and 100"
    else
      if match similarity_threshold params with
         | Some t => PrimFloat.ltb t 0%float || PrimFloat.ltb 1%float t
         | None => false
         end
      then Some "Similarity threshold must be between 0 and 1"
      else None.

(** [FROM source_subjects ss1 JOIN subjects s1 ON ss1.subject_id = s1.id
     JOIN source_subjects ss2 ON ss1.source_id = ss2.source_id
     JOIN subjects s2 ON ss2.subject_id = s2.id
     WHERE s1.subject = ? COLLATE NOCASE AND s2.subject != ? COLLATE NOCASE]:
    the column [s2.subject] of every joined row. *)
Definition coOccurrences (db : Database) (subject : string) : list string :=
  flat_map (fun ss1 =>
    flat_map (fun s1 =>
      if (SourceSubject.subject_id ss1 =? Subject.id s1)%Z then
        flat_map (fun ss2 =>
          if (SourceSubject.source_id ss1 =? SourceSubject.source_id ss2)%Z then
            flat_map (fun s2 =>
              if (SourceSubject.subject_id ss2 =? Subject.id s2)%Z
                 && nocase_eqb (Subject.subject s1) subject
                 && negb (nocase_eqb (Subject.subject s2) subject)
              then [Subject.subject s2]
              else [])
            (subjects db)
          else [])
        (source_subjects db)
      else [])
    (subjects db))
  (source_subjects db).

(** [COUNT( * )] of the group of [name]. *)
Definition co_occurrence_count (rows : list string) (name : string) : nat :=
  length (filter (String.eqb name) rows).

(** [ORDER BY co_occurrence_count DESC] *)
Definition by_count_desc (rows : list string) (a b : string) : bool :=
  (co_occurrence_count rows b <=? co_occurrence_count rows a)%nat.

(** [findSimilarSubjectsInDatabase], from the point where the database is
    open: one row per group of [GROUP BY s2.subject] (the column is taken to
    have the default, binary, collation: a group is one spelling of a name),
    the groups with the higher count first.  SQL leaves the order of groups
    of equal count open; here they come in the order in which the scan first
    meets them.  The parameter [threshold] is not used by the query. *)
Definition findSimilarSubjectsInDatabase (db : Database) (subject : string)
           (limit : Z) (threshold : float) : list string :=
  let rows := coOccurrences db subject in
  LIMIT limit (ORDER_BY (by_count_desc rows) (nodup string_dec rows)).

End FindSimilarSubjectsTool.

(** ** Numbers in template literals *)

Module JsNumber.

(** [`${n}`] for a whole number: its decimal digits, with a minus sign
    when it is negative. *)
Definition number_to_string (n : Z) : string := NilZero.string_of_int (Z.to_int n).

End JsNumber.

(** ** sqlite_query: which statement reaches the database

    The rows a statement returns depend on SQLite itself and are outside
    the model; what is embedded is the path of the query text from the
    parameters to [db.all]. *)

Module SQLiteQueryTool.

Import JsString JsNumber.
Local Open Scope string_scope.

(** [limit] is taken to be a whole number. *)
Record SQLiteQueryToolParams : Type :=
  { query : string; database : option string; limit : option Z }.

(** [s.startsWith(prefix)] *)
Fixpoint startsWith (s prefix : string) {struct prefix} : bool :=
  match prefix with
  | EmptyString => true
  | String p prefix' =>
      match s with
      | EmptyString => false
      | String c s' => Ascii.eqb c p && startsWith s' prefix'
      end
  end.

(** [s.includes(needle)] *)
Fixpoint includes (s needle : string) : bool :=
  startsWith s needle
  || match s with
     | EmptyString => false
     | String _ s' => includes s' needle
     end.

Definition allowedPrefixes : list string :=
  [ "select"; "with"; "explain";
    "pragma table_info"; "pragma table_list"; "pragma schema_version";
    ".schema"; ".tables"; ".indexes" ].

Definition validateToolParams (params : SQLiteQueryToolParams) : option string :=
  if negb (truthy (query params)) || String.eqb (trim (query params)) ""
  then Some "query cannot be empty"
  else
    let trimmedQuery := toLowerCase (trim (query params)) in
    let isAllowed := existsb (fun prefix => startsWith trimmedQuery prefix) allowedPrefixes in
    if negb isAllowed
    then Some "Only SELECT queries and schema inspection commands are allowed for safety"
    else
      match limit params with
      | Some l =>
          if (l <? 1)%Z || (1000 <? l)%Z
          then Some "limit must be between 1 and 1000"
          else None
      | None => None
      end.

(** [params.limit || 100] *)
Definition limit_or_default (limit : option Z) : Z :=
  match limit with
  | Some l => if (l =? 0)%Z then 100%Z else l
  | None => 100%Z
  end.

Definition list_tables : string :=
  "SELECT name FROM sqlite_master WHERE type='table' AND name NOT LIKE 'sqlite_%' ORDER BY name".
Definition list_indexes : string :=
  "SELECT name, tbl_name FROM sqlite_master WHERE type='index' AND name NOT LIKE 'sqlite_%' ORDER BY tbl_name, name".
Definition list_schema : string :=
  "SELECT sql FROM sqlite_master WHERE sql IS NOT NULL ORDER BY type, name".

(** [handleDotCommand]: the statement it hands to [db.all], or the error
    with which it rejects. *)
Definition handleDotCommand (command : string) : result string :=
  let cmd := trim (toLowerCase command) in
  if String.eqb cmd ".tables" then Ok list_tables
  else if String.eqb cmd ".indexes" then Ok list_indexes
  else if String.eqb cmd ".schema" then Ok list_schema
  else Throw (Error ("Unsupported dot command: " ++ command)).

(** [executeQuery], from the point where the database is open: the
    statement it hands to [db.all] ([finalQuery], or the statement of a dot
    command), or the error with which it rejects before that. *)
Definition executeQuery (query : string) (limit : Z) : result string :=
  if startsWith (toLowerCase query) "."
  then handleDotCommand query
  else
    Ok (if startsWith (toLowerCase query) "select"
           && negb (includes (toLowerCase query) "limit")
        then query ++ " LIMIT " ++ number_to_string limit
        else query).

End SQLiteQueryTool.

(** ** timestampConverter.ts: relative times *)

Module TimestampConverter.

Import JsNumber.
Local Open Scope string_scope.
Local Open Scope Z_scope.

(** [formatRelativeTime].  [now] and [date] are the values of [getTime()]
    of the two dates, in milliseconds (the caller passes a valid date), and
    [toLocaleDateString] is the rendering of a date in the locale of the
    runtime.  [Math.floor] of a quotient is the division of [Z]. *)
Definition formatRelativeTime (toLocaleDateString : Z -> string) (now date : Z) : string :=
  let diffMs := now - date in
  let diffSecs := diffMs / 1000 in
  let diffMins := diffSecs / 60 in
  let diffHours := diffMins / 60 in
  let diffDays := diffHours / 24 in
  if diffSecs <? 60 then (number_to_string diffSecs ++ " seconds ago")%string
  else if diffMins <? 60 then (number_to_string diffMins ++ " minutes ago")%string
  else if diffHours <? 24 then (number_to_string diffHours ++ " hours ago")%string
  else if diffDays <? 7 then (number_to_string diffDays ++ " days ago")%string
  else toLocaleDateString date.

End TimestampConverter.

(** * Vocabulary of the properties

    The predicates and functions in which the properties are stated, and the
    concrete databases and inputs on which they are exercised. *)

Unset Implicit Arguments.

Import Sqlite JsString SubjectQueries Clustering.
Import FindSourcesBySubject FindSubjectRelationship.

Open Scope string_scope.
Open Scope Z_scope.

(** ** Clustering *)

(** All embeddings have one length: the inputs on which
    [euclideanDistance] does not throw. *)
Definition uniform (embeddings : list Embedding) : Prop :=
  forall a b, In a embeddings -> In b embeddings -> length a = length b.

(** What a step of the clustering can end in: a value, or the error of
    [euclideanDistance], raised only when two embeddings differ in length. *)
Definition mismatch_only {A : Type} (embeddings : list Embedding) (P : A -> Prop)
           (r : result A) : Prop :=
  match r with
  | Ok a => P a
  | Throw e => e = length_mismatch /\ ~ uniform embeddings
  end.

(** The three points of the example of the specification. *)
Definition example_points : list Embedding := [[0; 0]; [0; 1]; [10; 10]]%float.

(** The labels of [labels] other than [-1] and those in [seen], each once, in
    the order in which they first occur. *)
Fixpoint first_labels (seen labels : list Z) : list Z :=
  match labels with
  | [] => []
  | l :: labels' =>
      if (l =? -1) || existsb (Z.eqb l) seen
      then first_labels seen labels'
      else l :: first_labels (l :: seen) labels'
  end.

Section GroupVocabulary.

Variable T : Type.

(** The items whose label is [k], in input order. *)
Definition members_of (k : Z) (items : list T) (labels : list Z) : list T :=
  map fst (filter (fun p => snd p =? k) (combine items labels)).

(** [item] appended to the entry stored under [k]. *)
Definition push_at (k : Z) (item : T) (m : JsMap T) : JsMap T :=
  map (fun e => if fst e =? k then (fst e, (snd e ++ [item])%list) else e) m.

(** What the loop adds to an entry, and the entries it appends. *)
Definition completed (m : JsMap T) (items : list T) (labels : list Z) : JsMap T :=
  (map (fun e => (fst e, (snd e ++ members_of (fst e) items labels)%list)) m
     ++ map (fun k => (k, members_of k items labels)) (first_labels (map fst m) labels))%list.

End GroupVocabulary.

Arguments members_of {T} k items labels.
Arguments push_at {T} k item m.
Arguments completed {T} m items labels.

(** A result row for the source [source_id], alone in a group of its own
    whose embedding is [v]. *)
Definition evidence_row (source_id : Z) (v : Embedding) : QueryRow :=
  {| row_source :=
       {| Source.id := source_id; Source.source_text := "note"; Source.tags := "";
          Source.dates := ""; Source.group_id := source_id; Source.alias_id := None |};
     row_group :=
       {| SourceGroup.id := source_id; SourceGroup.mapping_id := 0;
          SourceGroup.vector := Some (JsonNumbers v); SourceGroup.tags := "" |};
     row_subject := {| Subject.id := 2; Subject.subject := "Bob"; Subject.type := "person" |};
     row_mapping := None |}.

(** Six points on a line, for the radius 0.2 and the threshold 2 that the
    tool uses: the second point seeds cluster 0 (with the fourth and fifth),
    the third seeds cluster 1 and takes the first and the last as border
    points. *)
Definition interleaved_points : list float :=
  [0; 100; 0.125; 100.0625; 100.125; 0.25]%float.

Definition interleaved_rows : list QueryRow :=
  map (fun numbered : Z * float => evidence_row (fst numbered) [snd numbered])
      (combine [1; 2; 3; 4; 5; 6] interleaved_points).

Definition source_ids (entry : list JoinedSourceGroup * Embedding) : list Z :=
  map (fun joined => Source.id (source joined)) (fst entry).

(** ** Name resolution *)

(** [needle] is a prefix of [s], up to ASCII case. *)
Fixpoint nocase_prefix (needle s : string) : bool :=
  match needle with
  | EmptyString => true
  | String c needle' =>
      match s with
      | EmptyString => false
      | String d s' => Ascii.eqb (lower_char c) (lower_char d) && nocase_prefix needle' s'
      end
  end.

(** [s] contains [needle] as a substring, up to ASCII case. *)
Fixpoint contains_nocase (needle s : string) : bool :=
  nocase_prefix needle s
  || match s with
     | EmptyString => false
     | String _ s' => contains_nocase needle s'
     end.

(** [needle] has none of the wildcards of [LIKE]. *)
Fixpoint wildcard_free (needle : string) : bool :=
  match needle with
  | EmptyString => true
  | String c needle' =>
      negb (Ascii.eqb c "%") && negb (Ascii.eqb c "_") && wildcard_free needle'
  end.

(** The tier of a catalog row for a queried name: 1 when the name matches
    the full pattern, 2 when it matches the first-token pattern only, 3 when
    it matches neither. *)
Definition tier (subjectName : string) (row : Subject.t) : nat :=
  match_priority (patternExact subjectName) (patternPartial subjectName) row.

(** [a] is ranked no later than [b]: lower tier, or same tier and a name
    that is not longer. *)
Definition ranked_before (subjectName : string) (a b : Subject.t) : Prop :=
  (tier subjectName a < tier subjectName b)%nat
  \/ (tier subjectName a = tier subjectName b
      /\ (LENGTH (Subject.subject a) <= LENGTH (Subject.subject b))%nat).

(** What the two-name lookup of find_subject_relationship returns when each
    name is resolved on its own. *)
Definition resolved_separately (db : Database) (subject1Name subject2Name : string)
  : result (Z * Z) :=
  match findSubjectIdByName db subject1Name, findSubjectIdByName db subject2Name with
  | Some subject1Id, Some subject2Id => Ok (subject1Id, subject2Id)
  | None, _ => Throw (no_matching_subject subject1Name)
  | Some _, None => Throw (no_matching_subject subject2Name)
  end.

(** The catalog of the example: "Sam" and "Sam Hall". *)
Definition sam_catalog : Database :=
  {| subjects := [ {| Subject.id := 1; Subject.subject := "Sam"; Subject.type := "person" |};
                   {| Subject.id := 2; Subject.subject := "Sam Hall"; Subject.type := "person" |} ];
     sources := []; source_groups := []; source_subjects := []; mappings := [];
     subject_relationships := [] |}.

(** ** Shared evidence *)

(** The source id and the group id of an item handed to the clusterer. *)
Definition item_source_id (item : ClusterItem) : Z := Source.id (source (group item)).
Definition item_group_id (item : ClusterItem) : Z := id (sourceGroup (group item)).

(** A database in which the sources 1 and 2 both belong to group 10 and both
    mention the subject "Bob". *)
Definition shared_group_db : Database :=
  {| subjects := [ {| Subject.id := 2; Subject.subject := "Bob"; Subject.type := "person" |} ];
     sources :=
       [ {| Source.id := 1; Source.source_text := "first note"; Source.tags := "";
            Source.dates := ""; Source.group_id := 10; Source.alias_id := None |};
         {| Source.id := 2; Source.source_text := "second note"; Source.tags := "";
            Source.dates := ""; Source.group_id := 10; Source.alias_id := None |} ];
     source_groups :=
       [ {| SourceGroup.id := 10; SourceGroup.mapping_id := 0;
            SourceGroup.vector := Some (JsonNumbers [0%float; 0%float]);
            SourceGroup.tags := "" |} ];
     source_subjects :=
       [ {| SourceSubject.source_id := 1; SourceSubject.subject_id := 2;
            SourceSubject.score := 1 |};
         {| SourceSubject.source_id := 2; SourceSubject.subject_id := 2;
            SourceSubject.score := 1 |} ];
     mappings := [];
     subject_relationships := [] |}.

(** ** The relationship cache and the operation *)

(** What the table holds for a pair: the [relationship_summary] cell of the
    row of the ordered pair ([None] when there is no row, [Some None] when
    the cell is [NULL]). *)
Definition stored_summary (db : Database) (idA idB : Z) : option (option string) :=
  let (firstId, secondId) := ordered_pair idA idB in
  option_map Relationship.relationship_summary (get (selectRelationship db firstId secondId)).

(** The cache operations as the tool performs them: the pair is ordered, then
    the statement runs on the ordered pair.  [cache_get] is the lookup of
    the tool, the [SELECT] followed by [row && row.relationship_summary]: a
    hit is a row that holds a non-empty summary; no row, a [NULL] summary
    and an empty one are all a miss ([None]). *)
Definition cache_get (db : Database) (idA idB : Z) : option string :=
  let (firstId, secondId) := ordered_pair idA idB in
  existing_summary (get (selectRelationship db firstId secondId)).

Definition cache_put (config : Config) (db : Database) (idA idB : Z) (summary : string)
  : result Database :=
  let (firstId, secondId) := ordered_pair idA idB in
  updateSubjectRelationship config db firstId secondId (Some summary).

(** A database with no rows, and a configuration whose summarizer answers
    with no text. *)
Definition empty_db : Database :=
  {| subjects := []; sources := []; source_groups := []; source_subjects := [];
     mappings := []; subject_relationships := [] |}.

Definition quiet_config : Config :=
  {| generateContent := fun _ _ => Responds None; now := "2025-07-01 12:00:00" |}.

(** A put request: the clock and client in force, the pair as given, and the
    summary. *)
Definition Put : Type := (Config * (Z * Z) * string)%type.

Fixpoint put_all (db : Database) (puts : list Put) : result Database :=
  match puts with
  | [] => Ok db
  | (config, (idA, idB), summary) :: puts' =>
      bind (cache_put config db idA idB summary) (fun db' => put_all db' puts')
  end.

Definition row_key (row : Relationship.t) : Z * Z :=
  (Relationship.subject_1 row, Relationship.subject_2 row).

(** The constraints the table declares: the pair of columns is unique, and
    [subject_1 < subject_2]. *)
Definition table_constraints (rows : list Relationship.t) : Prop :=
  NoDup (map row_key rows)
  /\ Forall (fun row => check_constraint (Relationship.subject_1 row)
                                         (Relationship.subject_2 row) = true) rows.

(** The rows that stand for the unordered pair [{idA, idB}]. *)
Definition rows_for_pair (db : Database) (idA idB : Z) : list Relationship.t :=
  filter (fun row => same_pair idA idB row || same_pair idB idA row)
         (subject_relationships db).

(** Puts for one unordered pair, in any order of its two ids. *)
Definition puts_for (a b : Z) (puts : list Put) : Prop :=
  Forall (fun put : Put => snd (fst put) = (a, b) \/ snd (fst put) = (b, a)) puts.

(** The message of the error raised when the summarizer call is rejected. *)
Definition summarization_failed (error : option JsError) : JsError :=
  Error ("Failed to generate relationship summary: "
           ++ match error with Some e => message e | None => "Unknown error" end).

(** A world with the given database and no call made yet. *)
Definition fresh (db : Database) : World := {| wafer_db := db; gemini_calls := [] |}.

(** A catalog with "Alice" and "Bob" and no evidence at all. *)
Definition strangers_db : Database :=
  {| subjects := [ {| Subject.id := 2; Subject.subject := "Alice"; Subject.type := "person" |};
                   {| Subject.id := 3; Subject.subject := "Bob"; Subject.type := "person" |} ];
     sources := []; source_groups := []; source_subjects := []; mappings := [];
     subject_relationships := [] |}.

(** A note alone in the group of the same id, the group of a note, and a
    mention of a subject in a note. *)
Definition note (source_id : Z) (text : string) : Source.t :=
  {| Source.id := source_id; Source.source_text := text; Source.tags := "";
     Source.dates := ""; Source.group_id := source_id; Source.alias_id := None |}.

Definition note_group (group_id : Z) (v : Embedding) : SourceGroup.t :=
  {| SourceGroup.id := group_id; SourceGroup.mapping_id := 0;
     SourceGroup.vector := Some (JsonNumbers v); SourceGroup.tags := "" |}.

Definition mention (source_id subject_id : Z) : SourceSubject.t :=
  {| SourceSubject.source_id := source_id; SourceSubject.subject_id := subject_id;
     SourceSubject.score := 1 |}.

(** A catalog with "Sam Hall" (id 1) and "Bob" (id 2), and three notes, each
    in a group of its own with embeddings close to one another, that mention
    both of them. *)
Definition sam_db : Database :=
  {| subjects := [ {| Subject.id := 1; Subject.subject := "Sam Hall"; Subject.type := "person" |};
                   {| Subject.id := 2; Subject.subject := "Bob"; Subject.type := "person" |} ];
     sources := [ note 1 "lunch with Bob"; note 2 "Bob called"; note 3 "met Bob" ];
     source_groups :=
       [ note_group 1 [0%float; 0%float];
         note_group 2 [0%float; 0.125%float];
         note_group 3 [0.125%float; 0%float] ];
     source_subjects :=
       [ mention 1 1; mention 1 2; mention 2 1; mention 2 2; mention 3 1; mention 3 2 ];
     mappings := [];
     subject_relationships := [] |}.

(** A summarizer whose every call is aborted by the timeout. *)
Definition timing_out_config : Config :=
  {| generateContent := fun _ _ => Rejects (Some (Error "The operation was aborted due to timeout"));
     now := "2025-07-01 12:00:00" |}.

(** The parameters "Sam" and "Sam Hall": two different strings that both
    resolve to the entity 1 of [sam_db]. *)
Definition sam_twice : FindSubjectRelationshipToolParams :=
  {| subject_1 := "Sam"; subject_2 := "Sam Hall" |}.

(** ** Vocabulary of the further properties of clustering.ts *)

(** The point [i] passes the seed test of [dbscanClustering]: its
    neighbourhood is not smaller than [minPoints]. *)
Definition passes_seed_test (embeddings : list Embedding) (eps minPoints : float)
           (i : nat) : Prop :=
  exists neighbors,
    getNeighbors embeddings i eps = Ok neighbors
    /\ PrimFloat.ltb (number_of_nat (length neighbors)) minPoints = false.

(** The point [i] fails it: its neighbourhood is smaller than [minPoints]. *)
Definition fails_seed_test (embeddings : list Embedding) (eps minPoints : float)
           (i : nat) : Prop :=
  exists neighbors,
    getNeighbors embeddings i eps = Ok neighbors
    /\ PrimFloat.ltb (number_of_nat (length neighbors)) minPoints = true.

(** [q] is one of the neighbours that [getNeighbors] finds for [p]. *)
Definition neighbour_of (embeddings : list Embedding) (eps : float) (p q : nat) : Prop :=
  exists neighbors, getNeighbors embeddings p eps = Ok neighbors /\ In q neighbors.

(** The state of the outer loop of [dbscanClustering] when the points below
    [i0] have been visited: [seeds] lists, in the order of their ids, the
    points at which the clusters were started. *)
Record scan_invariant (embeddings : list Embedding) (eps minPoints : float)
       (i0 : nat) (clusters : list Z) (seeds : list nat) : Prop :=
  { inv_length : length clusters = length embeddings;
    inv_range : forall i l, nth_error clusters i = Some l ->
                            -1 <= l < Z.of_nat (length seeds);
    inv_seeds_sorted : StronglySorted lt seeds;
    inv_seeds_visited : Forall (fun s => (s < i0)%nat) seeds;
    inv_seeds : forall k s, nth_error seeds k = Some s ->
                            nth_error clusters s = Some (Z.of_nat k)
                            /\ passes_seed_test embeddings eps minPoints s;
    inv_noise : forall i, (i < i0)%nat -> nth_error clusters i = Some (-1) ->
                          fails_seed_test embeddings eps minPoints i;
    inv_reached : forall q l, nth_error clusters q = Some l -> l <> -1 ->
                              nth_error seeds (Z.to_nat l) = Some q
                              \/ exists p, nth_error clusters p = Some l
                                           /\ neighbour_of embeddings eps p q }.

(** The sum of a centroid's coordinates is taken over [dimensions] places. *)
Definition dimension_of_first (embeddings : list Embedding) : nat :=
  length (hd [] embeddings).

(** The items of [items] whose label is not [-1], in input order. *)
Definition clustered_items {T : Type} (items : list T) (labels : list Z) : list T :=
  map fst (filter (fun p => negb (snd p =? -1)) (combine items labels)).

(** ** Vocabulary of the further properties of find_subject_relationship *)

(** The tables of the database that the operation only reads. *)
Definition evidence_tables (db : Database)
  : list Subject.t * list Source.t * list SourceGroup.t
    * list SourceSubject.t * list Mapping.t :=
  (subjects db, sources db, source_groups db, source_subjects db, mappings db).

(** What the tool shows when the operation fails with [error]. *)
Definition failure_result (error : JsError) : ToolResult :=
  let errorMessage := "Failed to get or create subject relationship: " ++ message error in
  {| llmContent := errorMessage; returnDisplay := errorMessage |}.

(** The source [source_id] is linked to a catalog subject whose name is
    [name] up to ASCII case. *)
Definition mentions (db : Database) (source_id : Z) (name : string) : Prop :=
  exists ss sub,
    In ss (source_subjects db) /\ In sub (subjects db)
    /\ SourceSubject.source_id ss = source_id
    /\ SourceSubject.subject_id ss = Subject.id sub
    /\ LOWER (Subject.subject sub) = toLowerCase name.

(** The item stands for a source of the database and carries the embedding
    stored for the group of that source. *)
Definition evidence_of (db : Database) (item : ClusterItem) : Prop :=
  In (source (group item)) (sources db)
  /\ exists g,
      In g (source_groups db)
      /\ Source.group_id (source (group item)) = SourceGroup.id g
      /\ id (sourceGroup (group item)) = SourceGroup.id g
      /\ SourceGroup.vector g = Some (JsonNumbers (item_vector item)).

(** ** Vocabulary of the properties of find_sources_by_subject and
    find_similar_subjects *)

(** [row] pairs a source of the database with the subject [subjectId] and
    the score of a link between the two. *)
Definition links (db : Database) (subjectId : Z) (row : SourceWithSubject.t) : Prop :=
  In (SourceWithSubject.source row) (sources db)
  /\ In (SourceWithSubject.subject row) (subjects db)
  /\ Subject.id (SourceWithSubject.subject row) = subjectId
  /\ In {| SourceSubject.source_id := Source.id (SourceWithSubject.source row);
           SourceSubject.subject_id := subjectId;
           SourceSubject.score := SourceWithSubject.score row |}
        (source_subjects db).

(** [a] is listed no later than [b]: a higher score, or the same score and
    a source id that is not higher. *)
Definition ranks_before (a b : SourceWithSubject.t) : Prop :=
  SourceWithSubject.score b < SourceWithSubject.score a
  \/ (SourceWithSubject.score a = SourceWithSubject.score b
      /\ Source.id (SourceWithSubject.source a) <= Source.id (SourceWithSubject.source b)).

(** A link of the source [source_id] to the subject [subject_id]. *)
Definition scored (source_id subject_id score : Z) : SourceSubject.t :=
  {| SourceSubject.source_id := source_id; SourceSubject.subject_id := subject_id;
     SourceSubject.score := score |}.

(** "Bob" (id 2) is linked to the notes 1, 2 and 3 with the scores 5, 9 and
    5; "Alice" (id 3) shares the notes 1 and 2 with him, "Carol" (id 4) the
    note 3. *)
Definition scored_db : Database :=
  {| subjects := [ {| Subject.id := 2; Subject.subject := "Bob"; Subject.type := "person" |};
                   {| Subject.id := 3; Subject.subject := "Alice"; Subject.type := "person" |};
                   {| Subject.id := 4; Subject.subject := "Carol"; Subject.type := "person" |} ];
     sources := [ note 1 "lunch"; note 2 "call"; note 3 "meeting" ];
     source_groups := [];
     source_subjects :=
       [ scored 1 2 5; scored 2 2 9; scored 3 2 5;
         scored 1 3 1; scored 2 3 1; scored 3 4 1 ];
     mappings := [];
     subject_relationships := [] |}.

(** [name] is the name of a subject linked to a source to which a subject
    called [subject] (up to ASCII case) is linked too. *)
Definition co_occurs (db : Database) (subject name : string) : Prop :=
  exists ss1 s1 ss2 s2,
    In ss1 (source_subjects db) /\ In s1 (subjects db)
    /\ In ss2 (source_subjects db) /\ In s2 (subjects db)
    /\ SourceSubject.subject_id ss1 = Subject.id s1
    /\ SourceSubject.source_id ss1 = SourceSubject.source_id ss2
    /\ SourceSubject.subject_id ss2 = Subject.id s2
    /\ nocase_eqb (Subject.subject s1) subject = true
    /\ Subject.subject s2 = name.

(** The number of joined rows in which [name] occurs with [subject]. *)
Definition shared_count (db : Database) (subject name : string) : nat :=
  FindSimilarSubjectsTool.co_occurrence_count
    (FindSimilarSubjectsTool.coOccurrences db subject) name.

(** ** Vocabulary of the properties of sqlite_query and of the relative times *)

(** The allowed prefixes other than the dot commands: statements that
    read. *)
Definition read_only_prefixes : list string :=
  [ "select"; "with"; "explain";
    "pragma table_info"; "pragma table_list"; "pragma schema_version" ].

(** The statements that stand for the dot commands. *)
Definition catalog_statements : list string :=
  [ SQLiteQueryTool.list_tables; SQLiteQueryTool.list_indexes; SQLiteQueryTool.list_schema ].

(** A rendering of dates, for the examples. *)
Definition some_locale (date : Z) : string := "1/1/2025".

(** ** Vocabulary of the properties of the radius and the threshold *)

(** The value of a float is below zero (a negative number or minus
    infinity), or it is not (a zero, a positive number, plus infinity or
    NaN). *)
Definition below_zero (x : spec_float) : Prop :=
  match x with
  | S754_infinity true | S754_finite true _ _ => True
  | _ => False
  end.

Definition not_below_zero (x : spec_float) : Prop :=
  match x with
  | S754_infinity true | S754_finite true _ _ => False
  | _ => True
  end.

(** ** Text outside ASCII *)

(** The text holds ASCII characters only: there [toLowerCase] and SQLite's
    [LOWER] agree. *)
Fixpoint ascii_only (s : string) : bool :=
  match s with
  | EmptyString => true
  | String c s' => (nat_of_ascii c <? 128)%nat && ascii_only s'
  end.

(** The name Emile with an E acute, in capitals ([EMILE], whose first
    character is U+00C9) and in small letters ([emile], U+00E9), by their
    UTF-8 bytes. *)
Definition EMILE : string := String (ascii_of_nat 195) (String (ascii_of_nat 137) "MILE").
Definition emile : string := String (ascii_of_nat 195) (String (ascii_of_nat 169) "mile").

(** A catalog whose one subject is [emile], mentioned in one note. *)
Definition emile_db : Database :=
  {| subjects := [ {| Subject.id := 2; Subject.subject := emile; Subject.type := "person" |} ];
     sources := [ note 1 "a letter" ];
     source_groups := [ note_group 1 [0%float; 0%float] ];
     source_subjects := [ mention 1 2 ];
     mappings := [];
     subject_relationships := [] |}.

(** A catalog with "John Doe" and "xjohn_doe": only the second contains the
    text "john_doe". *)
Definition john_catalog : Database :=
  {| subjects := [ {| Subject.id := 1; Subject.subject := "John Doe"; Subject.type := "person" |};
                   {| Subject.id := 2; Subject.subject := "xjohn_doe"; Subject.type := "person" |} ];
     sources := []; source_groups := []; source_subjects := []; mappings := [];
     subject_relationships := [] |}.

(** ** Qualifying evidence records *)

(** The record [s], of the group [g], qualifies for the names [subjects]:
    the group stores the embedding [v], and the record is linked to a
    subject of each of the names. *)
Definition qualifies (db : Database) (subjects : list string)
           (s : Source.t) (g : SourceGroup.t) (v : Embedding) : Prop :=
  In s (sources db)
  /\ In g (source_groups db)
  /\ Source.group_id s = SourceGroup.id g
  /\ SourceGroup.vector g = Some (JsonNumbers v)
  /\ forall name, In name subjects -> mentions db (Source.id s) name.

(** The ids of the sources and of the groups are keys of their tables. *)
Definition ids_are_keys (db : Database) : Prop :=
  NoDup (map Source.id (sources db)) /\ NoDup (map SourceGroup.id (source_groups db)).

(** The two records of [shared_group_db]. *)
Definition first_note : Source.t :=
  {| Source.id := 1; Source.source_text := "first note"; Source.tags := "";
     Source.dates := ""; Source.group_id := 10; Source.alias_id := None |}.
Definition second_note : Source.t :=
  {| Source.id := 2; Source.source_text := "second note"; Source.tags := "";
     Source.dates := ""; Source.group_id := 10; Source.alias_id := None |}.

(** The text of the record behind an item handed to the clusterer. *)
Definition item_text (item : ClusterItem) : string :=
  Source.source_text (source (group item)).

(** The samples as the labels determine them: label by label in the order
    in which the labels first occur, the texts of the first five items of
    the label, in input order. *)
Definition first_five_of_each (sourceGroups : list ClusterItem) (clusterIds : list Z)
  : list string :=
  flat_map (fun k => map item_text (firstn 5 (members_of k sourceGroups clusterIds)))
           (first_labels [] clusterIds).

(** * Proofs *)

Close Scope string_scope.
Close Scope Z_scope.

(** ** Facts about clustering.ts *)

Section ClusteringFacts.

Local Open Scope nat_scope.

Lemma bind_Ok_inv (A B : Type) (r : result A) (k : A -> result B) (b : B) :
  bind r k = Ok b -> exists a, r = Ok a /\ k a = Ok b.
Proof.
  destruct r as [a|e]; simpl; intros H; [exists a; auto | discriminate].
Qed.

(** The neighbours found from position [offset] on are positions of the
    array, in ascending order, and never the point itself. *)
Lemma getNeighbors_from_spec point pointIdx eps :
  forall rest offset neighbors,
    getNeighbors_from point pointIdx eps rest offset = Ok neighbors ->
    Forall (fun i => offset <= i < offset + length rest /\ i <> pointIdx) neighbors
    /\ StronglySorted lt neighbors.
Proof.
  induction rest as [|e rest IH]; intros offset neighbors H; simpl in H.
  - inversion H; subst. split; constructor.
  - destruct (offset =? pointIdx) eqn:Hoff.
    + apply IH in H. destruct H as [Hb Hs]. split; [|exact Hs].
      eapply Forall_impl; [|exact Hb]. simpl. intros i Hi. lia.
    + apply Nat.eqb_neq in Hoff.
      apply bind_Ok_inv in H. destruct H as [d [_ H]].
      apply bind_Ok_inv in H. destruct H as [ns [Hns H]].
      apply IH in Hns. destruct Hns as [Hb Hs].
      assert (Hb' : Forall (fun i => offset <= i < offset + length (e :: rest)
                                     /\ i <> pointIdx) ns).
      { eapply Forall_impl; [|exact Hb]. simpl. intros i Hi. lia. }
      destruct (PrimFloat.leb d eps); inversion H; subst; [|split; assumption].
      split.
      * constructor; [simpl; lia | exact Hb'].
      * constructor; [exact Hs|].
        eapply Forall_impl; [|exact Hb]. simpl. intros i Hi. lia.
Qed.

Lemma StronglySorted_lt_NoDup (l : list nat) : StronglySorted lt l -> NoDup l.
Proof.
  induction 1 as [|x l Hs IH Hall]; constructor; auto.
  intros Hin. rewrite Forall_forall in Hall. apply Hall in Hin. lia.
Qed.

(** Every index [getNeighbors] returns is an index of [embeddings]. *)
Lemma getNeighbors_bound embeddings pointIdx eps neighbors :
  getNeighbors embeddings pointIdx eps = Ok neighbors ->
  Forall (fun i => i < length embeddings) neighbors /\ NoDup neighbors.
Proof.
  unfold getNeighbors. intros H.
  destruct (nth_error embeddings pointIdx) as [point|].
  - apply getNeighbors_from_spec in H. destruct H as [Hb Hs]. split.
    + eapply Forall_impl; [|exact Hb]. simpl. intros i Hi. lia.
    + apply StronglySorted_lt_NoDup; exact Hs.
  - destruct embeddings; [|discriminate]. inversion H; subst. split; constructor.
Qed.

Lemma includes_In queue x : includes queue x = true <-> In x queue.
Proof.
  unfold includes. rewrite existsb_exists. split.
  - intros [y [Hy Heq]]. apply Nat.eqb_eq in Heq. subst. exact Hy.
  - intros H. exists x. split; [exact H | apply Nat.eqb_refl].
Qed.

(** [push_new] keeps the queue free of repetitions and inside the array. *)
Lemma push_new_invariant n : forall neighborNeighbors queue,
    NoDup queue -> Forall (fun i => i < n) queue ->
    Forall (fun i => i < n) neighborNeighbors ->
    NoDup (push_new queue neighborNeighbors)
    /\ Forall (fun i => i < n) (push_new queue neighborNeighbors).
Proof.
  induction neighborNeighbors as [|x more IH]; intros queue Hnd Hq Hn; simpl.
  - auto.
  - inversion Hn; subst.
    destruct (includes queue x) eqn:Hinc.
    + apply IH; auto.
    + apply IH; auto.
      * assert (Hx : ~ In x queue).
        { intros Hin. apply includes_In in Hin. congruence. }
        apply NoDup_app; auto.
        -- constructor; [simpl; tauto | constructor].
        -- intros y Hy [Hy'|[]]. subst. contradiction.
      * apply Forall_app. split; auto.
Qed.

Lemma NoDup_bounded_length n (l : list nat) :
  NoDup l -> Forall (fun i => i < n) l -> length l <= n.
Proof.
  intros Hnd Hb.
  rewrite <- (length_seq n 0).
  apply NoDup_incl_length; [exact Hnd|].
  intros x Hx. rewrite Forall_forall in Hb. apply Hb in Hx.
  apply in_seq. lia.
Qed.

(** The bound [rounds] of [expand] is never what ends the loop: once
    [rounds + j] reaches the number of embeddings, more rounds change
    nothing. *)
Lemma expand_rounds_enough embeddings eps minPoints clusterId :
  forall rounds j neighborQueue clusters extra,
    NoDup neighborQueue ->
    Forall (fun i => i < length embeddings) neighborQueue ->
    length embeddings <= rounds + j ->
    expand (rounds + extra) embeddings eps minPoints clusterId j neighborQueue clusters
    = expand rounds embeddings eps minPoints clusterId j neighborQueue clusters.
Proof.
  induction rounds as [|rounds IH]; intros j queue clusters extra Hnd Hb Hle.
  - assert (Hlen : length queue <= j).
    { pose proof (NoDup_bounded_length _ _ Hnd Hb). simpl in Hle. lia. }
    apply nth_error_None in Hlen.
    simpl. destruct extra; simpl; [reflexivity|]. rewrite Hlen. reflexivity.
  - simpl. destruct (nth_error queue j) as [idx|]; [|reflexivity].
    destruct (is_unlabelled clusters idx).
    + destruct (getNeighbors embeddings idx eps) as [nn|e] eqn:Hnn; simpl; [|reflexivity].
      destruct (getNeighbors_bound _ _ _ _ Hnn) as [Hnb _].
      destruct (PrimFloat.leb minPoints (number_of_nat (length nn))).
      * destruct (push_new_invariant _ nn queue Hnd Hb Hnb) as [Hnd' Hb'].
        apply IH; auto. lia.
      * apply IH; auto. lia.
    + apply IH; auto. lia.
Qed.

Lemma mismatch_only_bind {A B : Type} embeddings (P : A -> Prop) (Q : B -> Prop)
      (r : result A) (k : A -> result B) :
  mismatch_only embeddings P r ->
  (forall a, r = Ok a -> P a -> mismatch_only embeddings Q (k a)) ->
  mismatch_only embeddings Q (bind r k).
Proof.
  destruct r as [a|e]; simpl; intros Hr Hk; [apply Hk; auto | exact Hr].
Qed.

Lemma euclideanDistance_mismatch_only embeddings a b :
  In a embeddings -> In b embeddings ->
  mismatch_only embeddings (fun _ => True) (euclideanDistance a b).
Proof.
  intros Ha Hb. unfold euclideanDistance.
  destruct (length a =? length b) eqn:Hlen; simpl; [exact I|].
  apply Nat.eqb_neq in Hlen. split; [reflexivity|].
  intros Hu. apply Hlen. apply Hu; assumption.
Qed.

Lemma getNeighbors_from_mismatch_only embeddings point pointIdx eps :
  In point embeddings ->
  forall rest offset,
    incl rest embeddings ->
    mismatch_only embeddings (fun _ => True)
                  (getNeighbors_from point pointIdx eps rest offset).
Proof.
  intros Hp. induction rest as [|e rest IH]; intros offset Hincl; simpl.
  - exact I.
  - assert (Hrest : incl rest embeddings).
    { intros x Hx. apply Hincl. right. exact Hx. }
    destruct (offset =? pointIdx).
    + apply IH. exact Hrest.
    + eapply mismatch_only_bind.
      * apply euclideanDistance_mismatch_only; [exact Hp | apply Hincl; left; reflexivity].
      * intros d _ _. eapply mismatch_only_bind; [apply IH; exact Hrest|].
        intros ns _ _. simpl. exact I.
Qed.

Lemma getNeighbors_mismatch_only embeddings pointIdx eps :
  pointIdx < length embeddings ->
  mismatch_only embeddings (fun _ => True) (getNeighbors embeddings pointIdx eps).
Proof.
  intros Hlt. unfold getNeighbors.
  destruct (nth_error embeddings pointIdx) as [point|] eqn:Hnth.
  - apply getNeighbors_from_mismatch_only.
    + eapply nth_error_In; exact Hnth.
    + apply incl_refl.
  - apply nth_error_None in Hnth. lia.
Qed.

Lemma array_set_length : forall clusters idx clusterId,
    length (array_set clusters idx clusterId) = length clusters.
Proof.
  induction clusters as [|c clusters IH]; intros [|idx] clusterId; simpl; auto.
Qed.

(** Only a position of the array can read as [-1]. *)
Lemma is_unlabelled_lt clusters idx :
  is_unlabelled clusters idx = true -> idx < length clusters.
Proof.
  unfold is_unlabelled. intros H.
  destruct (nth_error clusters idx) eqn:Hnth; [|discriminate].
  apply nth_error_Some. congruence.
Qed.

Lemma expand_mismatch_only embeddings eps minPoints clusterId :
  forall rounds j neighborQueue clusters,
    length clusters = length embeddings ->
    mismatch_only embeddings (fun labels => length labels = length embeddings)
                  (expand rounds embeddings eps minPoints clusterId j neighborQueue clusters).
Proof.
  induction rounds as [|rounds IH]; intros j queue clusters Hlen; simpl.
  - exact Hlen.
  - destruct (nth_error queue j) as [idx|]; [|exact Hlen].
    destruct (is_unlabelled clusters idx) eqn:Hun.
    + eapply mismatch_only_bind.
      * apply getNeighbors_mismatch_only.
        apply is_unlabelled_lt in Hun. lia.
      * intros nn _ _. apply IH. rewrite array_set_length. exact Hlen.
    + apply IH. exact Hlen.
Qed.

Lemma scan_mismatch_only embeddings eps minPoints :
  forall pending clusters clusterId,
    length clusters = length embeddings ->
    mismatch_only embeddings (fun labels => length labels = length embeddings)
                  (scan embeddings eps minPoints pending clusters clusterId).
Proof.
  induction pending as [|i pending IH]; intros clusters clusterId Hlen; simpl.
  - exact Hlen.
  - destruct (is_unlabelled clusters i) eqn:Hun; simpl; [|apply IH; exact Hlen].
    eapply mismatch_only_bind.
    + apply getNeighbors_mismatch_only. apply is_unlabelled_lt in Hun. lia.
    + intros neighbors _ _.
      destruct (PrimFloat.ltb (number_of_nat (length neighbors)) minPoints).
      * apply IH. exact Hlen.
      * eapply mismatch_only_bind.
        -- apply expand_mismatch_only. rewrite array_set_length. exact Hlen.
        -- intros clusters' _ Hlen'. apply IH. exact Hlen'.
Qed.

(** [dbscanClustering] returns one label per embedding, or throws the
    length error because two embeddings differ in length. *)
Lemma dbscanClustering_mismatch_only embeddings eps minPoints :
  mismatch_only embeddings (fun labels => length labels = length embeddings)
                (dbscanClustering embeddings eps minPoints).
Proof.
  unfold dbscanClustering. apply scan_mismatch_only. apply repeat_length.
Qed.

Lemma dbscanClustering_length embeddings eps minPoints labels :
  dbscanClustering embeddings eps minPoints = Ok labels ->
  length labels = length embeddings.
Proof.
  intros H. pose proof (dbscanClustering_mismatch_only embeddings eps minPoints) as Hm.
  rewrite H in Hm. exact Hm.
Qed.

End ClusteringFacts.

(** ** The clustering claims *)

Section ClusteringClaims.

Local Open Scope float_scope.

(** In [dbscanClustering] the walk of the queue starts at [j = 0] with the
    neighbours of the seed and [rounds] set to the number of embeddings:
    by [expand_rounds_enough] no larger bound would give another result. *)
Lemma dbscan_rounds_enough embeddings eps minPoints clusterId i neighbors clusters extra :
  getNeighbors embeddings i eps = Ok neighbors ->
  expand (length embeddings + extra) embeddings eps minPoints clusterId 0 neighbors clusters
  = expand (length embeddings) embeddings eps minPoints clusterId 0 neighbors clusters.
Proof.
  intros H. apply getNeighbors_bound in H. destruct H as [Hb Hnd].
  apply expand_rounds_enough; auto. lia.
Qed.

(** C1, as stated, fails: on [[0,0],[0,1],[10,10]] with [eps = 1.5] and
    [minPoints = 2] the labels are not [0, 0, -1]. *)
Lemma C1_labels_are_not_0_0_noise :
  dbscanClustering example_points 1.5 2 <> Ok [0; 0; -1]%Z.
Proof.
  vm_compute. intros H. discriminate H.
Qed.

(** C1 (amended).  On [[0,0],[0,1],[10,10]] with [eps = 1.5] and
    [minPoints = 2], [dbscanClustering] returns [-1, -1, -1]: a point is
    not its own neighbour, so each of the first two points has one
    neighbour, fewer than [minPoints], and the third has none.  The labels
    [0, 0, -1] are what [minPoints = 1] gives. *)
Theorem C1_example_is_all_noise :
  dbscanClustering example_points 1.5 2 = Ok [-1; -1; -1]%Z
  /\ getNeighbors example_points 0 1.5 = Ok [1%nat]
  /\ getNeighbors example_points 1 1.5 = Ok [0%nat]
  /\ getNeighbors example_points 2 1.5 = Ok []
  /\ dbscanClustering example_points 1.5 1 = Ok [0; 0; -1]%Z.
Proof.
  repeat split; vm_compute; reflexivity.
Qed.

(** C5, as stated, fails: with [minPoints = 0], and with a negative [eps],
    [dbscanClustering] returns labels instead of failing. *)
Lemma C5_bad_parameters_are_accepted :
  dbscanClustering [[0]; [1]; [5]] 1 0 = Ok [0; 0; 1]%Z
  /\ dbscanClustering [[0]; [1]; [5]] (-1) 2 = Ok [-1; -1; -1]%Z
  /\ dbscanClustering [[0]; [1]; [5]] (-1) (-1) = Ok [0; 1; 2]%Z.
Proof.
  repeat split; vm_compute; reflexivity.
Qed.

(** C5 (amended).  [dbscanClustering] checks neither [eps] nor
    [minPoints]: whatever their values, on embeddings of one common length
    it returns one label per embedding, and its only failure is the length
    error of [euclideanDistance], raised when two embeddings differ in
    length. *)
Theorem C5_no_parameter_validation embeddings eps minPoints :
  (uniform embeddings ->
   exists labels,
     dbscanClustering embeddings eps minPoints = Ok labels
     /\ length labels = length embeddings)
  /\ (forall e,
         dbscanClustering embeddings eps minPoints = Throw e ->
         e = length_mismatch /\ ~ uniform embeddings).
Proof.
  pose proof (dbscanClustering_mismatch_only embeddings eps minPoints) as Hm.
  destruct (dbscanClustering embeddings eps minPoints) as [labels|e']; simpl in Hm.
  - split.
    + intros _. exists labels. split; [reflexivity | exact Hm].
    + intros e H. discriminate H.
  - split.
    + intros Hu. destruct Hm as [_ Hn]. contradiction.
    + intros e H. inversion H; subst. exact Hm.
Qed.

Lemma uniform_singletons :
  uniform [[0]; [1]; [5]].
Proof.
  intros a b Ha Hb. simpl in Ha, Hb.
  destruct Ha as [<-|[<-|[<-|[]]]]; destruct Hb as [<-|[<-|[<-|[]]]]; reflexivity.
Qed.

(** C5 (amended), at a negative radius and a negative threshold. *)
Lemma C5_no_parameter_validation_witness :
  exists labels,
    dbscanClustering [[0]; [1]; [5]] (-1) (-1) = Ok labels
    /\ length labels = 3%nat.
Proof.
  exact (proj1 (C5_no_parameter_validation [[0]; [1]; [5]] (-1) (-1)) uniform_singletons).
Defined.

End ClusteringClaims.

(** ** Facts about groupByCluster *)

Section GroupByClusterFacts.

Variable T : Type.

Local Open Scope Z_scope.

Lemma Map_has_In (m : JsMap T) k : Map_has m k = true <-> In k (map fst m).
Proof.
  induction m as [|[k' v] m IH]; simpl.
  - split; [discriminate | tauto].
  - rewrite orb_true_iff, IH, Z.eqb_eq. tauto.
Qed.

Lemma existsb_eqb_In (seen : list Z) l : existsb (Z.eqb l) seen = true <-> In l seen.
Proof.
  rewrite existsb_exists. split.
  - intros [x [Hx Heq]]. apply Z.eqb_eq in Heq. subst. exact Hx.
  - intros H. exists l. split; [exact H | apply Z.eqb_refl].
Qed.

Lemma existsb_eqb_Map_has (m : JsMap T) l : existsb (Z.eqb l) (map fst m) = Map_has m l.
Proof.
  induction m as [|[k' v] m IH]; simpl; [reflexivity|].
  rewrite IH. rewrite (Z.eqb_sym l k'). reflexivity.
Qed.

Lemma first_labels_ext : forall labels seen seen',
    (forall x, In x seen <-> In x seen') ->
    first_labels seen labels = first_labels seen' labels.
Proof.
  induction labels as [|l labels IH]; intros seen seen' Hext; simpl; [reflexivity|].
  assert (He : existsb (Z.eqb l) seen = existsb (Z.eqb l) seen').
  { destruct (existsb (Z.eqb l) seen) eqn:H1; destruct (existsb (Z.eqb l) seen') eqn:H2;
      try reflexivity.
    - apply existsb_eqb_In in H1. apply Hext in H1. apply existsb_eqb_In in H1. congruence.
    - apply existsb_eqb_In in H2. apply Hext in H2. apply existsb_eqb_In in H2. congruence. }
  rewrite He. destruct ((l =? -1) || existsb (Z.eqb l) seen').
  - apply IH. exact Hext.
  - f_equal. apply IH. intros x. simpl. rewrite Hext. tauto.
Qed.

Lemma first_labels_spec : forall labels seen k,
    In k (first_labels seen labels) <-> In k labels /\ k <> -1 /\ ~ In k seen.
Proof.
  induction labels as [|l labels IH]; intros seen k; simpl.
  - tauto.
  - destruct (l =? -1) eqn:Hl; simpl.
    + apply Z.eqb_eq in Hl. rewrite IH. split.
      * tauto.
      * intros [[H|H] [H1 H2]]; [congruence | tauto].
    + apply Z.eqb_neq in Hl.
      destruct (existsb (Z.eqb l) seen) eqn:Hs.
      * apply existsb_eqb_In in Hs. rewrite IH. split.
        -- tauto.
        -- intros [[H|H] [H1 H2]]; [subst; contradiction | tauto].
      * assert (Hn : ~ In l seen).
        { intros H. apply existsb_eqb_In in H. congruence. }
        simpl. rewrite IH. simpl. split.
        -- intros [H|[H1 [H2 H3]]]; [subst; tauto | tauto].
        -- intros [[H|H] [H1 H2]]; [tauto|].
           destruct (Z.eq_dec l k); [tauto|]. right. tauto.
Qed.

Lemma first_labels_NoDup : forall labels seen, NoDup (first_labels seen labels).
Proof.
  induction labels as [|l labels IH]; intros seen; simpl; [constructor|].
  destruct ((l =? -1) || existsb (Z.eqb l) seen); [apply IH|].
  constructor; [|apply IH].
  rewrite first_labels_spec. simpl. tauto.
Qed.

Lemma Map_set_new (m : JsMap T) k v :
  Map_has m k = false -> Map_set m k v = (m ++ [(k, v)])%list.
Proof.
  induction m as [|[k' v'] m IH]; simpl; intros H; [reflexivity|].
  apply orb_false_iff in H. destruct H as [H1 H2].
  rewrite H1. rewrite IH; auto.
Qed.

Lemma Map_push_last (m : JsMap T) k v item :
  Map_has m k = false ->
  Map_push (m ++ [(k, v)])%list k item = (m ++ [(k, (v ++ [item])%list)])%list.
Proof.
  unfold Map_push.
  induction m as [|[k' v'] m IH]; simpl; intros H.
  - rewrite Z.eqb_refl. simpl. rewrite ?Z.eqb_refl. reflexivity.
  - apply orb_false_iff in H. destruct H as [H1 H2]. rewrite H1.
    specialize (IH H2).
    destruct (Map_get (m ++ [(k, v)]) k) as [members|] eqn:Hget.
    + simpl. rewrite ?H1. f_equal. exact IH.
    + f_equal. exact IH.
Qed.

Lemma push_at_absent (m : JsMap T) k item :
  ~ In k (map fst m) -> push_at k item m = m.
Proof.
  induction m as [|[k' v'] m IH]; simpl; intros H; [reflexivity|].
  destruct (k' =? k) eqn:Hk.
  - apply Z.eqb_eq in Hk. tauto.
  - f_equal. apply IH. tauto.
Qed.

Lemma Map_push_existing (m : JsMap T) k item :
  NoDup (map fst m) -> Map_has m k = true -> Map_push m k item = push_at k item m.
Proof.
  unfold Map_push.
  induction m as [|[k' v'] m IH]; simpl; intros Hnd H; [discriminate|].
  inversion Hnd as [|? ? Hnin Hnd']; subst.
  destruct (k' =? k) eqn:Hk; simpl.
  - rewrite ?Hk. apply Z.eqb_eq in Hk. subst.
    rewrite push_at_absent; auto.
  - simpl in H. specialize (IH Hnd' H).
    destruct (Map_get m k) as [members|] eqn:Hget.
    + simpl. rewrite ?Hk. f_equal. exact IH.
    + f_equal. exact IH.
Qed.

Lemma push_at_keys (m : JsMap T) k item : map fst (push_at k item m) = map fst m.
Proof.
  unfold push_at. rewrite map_map. apply map_ext.
  intros [k' v]. simpl. destruct (k' =? k); reflexivity.
Qed.

Lemma members_of_cons k (item : T) (items : list T) l labels :
  members_of k (item :: items) (l :: labels)
  = if l =? k then item :: members_of k items labels else members_of k items labels.
Proof.
  unfold members_of. simpl. destruct (l =? k); reflexivity.
Qed.

(** The loop, from any map of accumulated entries that has one entry per key
    and no entry for [-1]. *)
Lemma groupByCluster_loop_completed : forall (items : list T) labels m,
    length items = length labels ->
    NoDup (map fst m) ->
    ~ In (-1) (map fst m) ->
    groupByCluster_loop items labels m = completed m items labels.
Proof.
  induction items as [|item items IH]; intros [|l labels] m Hlen Hnd Hnoise;
    try discriminate Hlen.
  - unfold completed, members_of. simpl. rewrite app_nil_r.
    rewrite <- (map_id m) at 1. apply map_ext.
    intros [k v]. simpl. rewrite app_nil_r. reflexivity.
  - simpl in Hlen. injection Hlen as Hlen. simpl.
    destruct (l =? -1) eqn:Hl; simpl.
    + apply Z.eqb_eq in Hl. subst l.
      rewrite IH; auto. unfold completed. simpl. f_equal.
      * apply map_ext_in. intros [k v] Hin. simpl.
        rewrite members_of_cons.
        destruct (-1 =? k) eqn:Hk; [|reflexivity].
        apply Z.eqb_eq in Hk. subst k. exfalso. apply Hnoise.
        apply in_map_iff. exists (-1, v). auto.
      * apply map_ext_in. intros k Hin.
        rewrite members_of_cons.
        destruct (-1 =? k) eqn:Hk; [|reflexivity].
        apply Z.eqb_eq in Hk. subst k.
        apply first_labels_spec in Hin. tauto.
    + pose proof Hl as Hlb. apply Z.eqb_neq in Hl.
      destruct (Map_has m l) eqn:Hhas; simpl.
      * rewrite Map_push_existing; auto.
        rewrite IH; auto; rewrite ?push_at_keys; auto.
        unfold completed. rewrite push_at_keys. simpl.
        rewrite existsb_eqb_Map_has, Hhas, Hlb. simpl. f_equal.
        -- unfold push_at. rewrite map_map. apply map_ext.
           intros [k v]. simpl. rewrite members_of_cons. rewrite (Z.eqb_sym l k).
           destruct (k =? l); simpl; [|reflexivity].
           rewrite <- app_assoc. reflexivity.
        -- apply map_ext_in. intros k Hin. rewrite members_of_cons.
           destruct (l =? k) eqn:Hk; [|reflexivity].
           apply Z.eqb_eq in Hk. subst k.
           apply first_labels_spec in Hin. apply Map_has_In in Hhas. tauto.
      * assert (Hnin : ~ In l (map fst m)).
        { intros H. apply Map_has_In in H. congruence. }
        rewrite Map_set_new; auto. rewrite Map_push_last; auto. simpl.
        rewrite IH; auto.
        -- unfold completed. rewrite !map_app. simpl.
           rewrite existsb_eqb_Map_has, Hhas, Hlb. simpl.
           rewrite <- app_assoc. simpl. f_equal.
           ++ apply map_ext_in. intros [k v] Hin. simpl. rewrite members_of_cons.
              destruct (l =? k) eqn:Hk; [|reflexivity].
              apply Z.eqb_eq in Hk. subst k. exfalso. apply Hnin.
              apply in_map_iff. exists (l, v). auto.
           ++ rewrite members_of_cons, Z.eqb_refl. f_equal.
              rewrite (first_labels_ext labels (map fst m ++ [l]) (l :: map fst m)).
              ** apply map_ext_in. intros k Hin. rewrite members_of_cons.
                 destruct (l =? k) eqn:Hk; [|reflexivity].
                 apply Z.eqb_eq in Hk. subst k.
                 apply first_labels_spec in Hin. simpl in Hin. tauto.
              ** intros x. rewrite in_app_iff. simpl. tauto.
        -- rewrite map_app. simpl. apply NoDup_app; auto.
           ++ constructor; [simpl; tauto | constructor].
           ++ intros x Hx [Hx'|[]]. subst. contradiction.
        -- rewrite map_app. simpl. rewrite in_app_iff. simpl. intros [H|[H|[]]]; auto.
Qed.

(** [groupByCluster] has one entry per label other than [-1], in the order
    in which the labels first occur, holding the items with that label. *)
Lemma groupByCluster_characterised (items : list T) labels :
  length items = length labels ->
  groupByCluster items labels
  = map (fun k => (k, members_of k items labels)) (first_labels [] labels).
Proof.
  intros Hlen. unfold groupByCluster.
  rewrite groupByCluster_loop_completed.
  - reflexivity.
  - exact Hlen.
  - constructor.
  - simpl. tauto.
Qed.

Lemma members_of_nonempty : forall (items : list T) labels k,
    length items = length labels -> In k labels -> members_of k items labels <> [].
Proof.
  induction items as [|item items IH]; intros [|l labels] k Hlen Hin;
    try discriminate Hlen; simpl in Hin; [tauto|].
  rewrite members_of_cons. destruct (l =? k) eqn:Hk; [discriminate|].
  apply Z.eqb_neq in Hk. destruct Hin as [Hin|Hin]; [contradiction|].
  apply IH; auto.
Qed.

End GroupByClusterFacts.

(** ** The claims about the emitted clusters *)

Section ClusterClaims.

Local Open Scope Z_scope.

(** What a successful run of the [try] block returns: nothing when no row
    carries an embedding, and otherwise the entries built from the labels
    that [dbscanClustering] gives, one label per item. *)
Lemma processClustering_entries rows eps minPoints out :
  processClustering rows eps minPoints = Ok out ->
  exists sourceGroups,
    collectSourceGroups rows = Ok sourceGroups
    /\ ((sourceGroups = [] /\ out = [])
        \/ exists clusterIds,
            dbscanClustering (map item_vector sourceGroups) eps minPoints = Ok clusterIds
            /\ length sourceGroups = length clusterIds
            /\ out = clustersWithCentroids (groupByCluster sourceGroups clusterIds)).
Proof.
  unfold processClustering. intros H.
  apply bind_Ok_inv in H. destruct H as [sourceGroups [Hcollect H]].
  exists sourceGroups. split; [exact Hcollect|].
  destruct sourceGroups as [|item items].
  - left. inversion H. auto.
  - right. apply bind_Ok_inv in H. destruct H as [clusterIds [Hlabels H]].
    exists clusterIds. split; [exact Hlabels|]. split.
    + apply dbscanClustering_length in Hlabels. rewrite length_map in Hlabels.
      symmetry. exact Hlabels.
    + inversion H. reflexivity.
Qed.

(** C9, as stated, fails: the entries are not always in ascending label
    order.  Here the labels are [1, 0, 1, 0, 0, 1], and the entry emitted
    first is the one of label 1 (sources 1, 3 and 6). *)
Lemma C9_entries_not_in_ascending_label_order :
  dbscanClustering (map (fun v => [v]) interleaved_points) default_eps default_minPoints
  = Ok [1; 0; 1; 0; 0; 1]
  /\ exists out,
      processClustering interleaved_rows default_eps default_minPoints = Ok out
      /\ map source_ids out = [[1; 3; 6]; [2; 4; 5]].
Proof.
  split; [vm_compute; reflexivity|].
  eexists. split; vm_compute; reflexivity.
Qed.

Lemma centroid_of_members (items : list ClusterItem) :
  items <> [] -> exists c, calculateClusterCentroid (map item_vector items) = Some c.
Proof.
  destruct items as [|item items]; [congruence|]. intros _. simpl. eexists. reflexivity.
Qed.

Lemma clustersWithCentroids_members (sourceGroups : list ClusterItem) clusterIds :
  forall keys,
    (forall k, In k keys -> members_of k sourceGroups clusterIds <> []) ->
    map fst (clustersWithCentroids
               (map (fun k => (k, members_of k sourceGroups clusterIds)) keys))
    = map (fun k => map group (members_of k sourceGroups clusterIds)) keys.
Proof.
  induction keys as [|k keys IH]; intros Hne; [reflexivity|].
  unfold clustersWithCentroids in *. simpl.
  destruct (centroid_of_members (members_of k sourceGroups clusterIds)) as [c Hc].
  { apply Hne. left. reflexivity. }
  rewrite Hc. simpl. f_equal. apply IH. intros k' Hk'. apply Hne. right. exact Hk'.
Qed.

(** C9 (amended).  For every clustering result (one label per item), the
    entries emitted are those of the labels other than [-1], so an item
    labelled [-1] is in none of them, and they come in the order in which
    their labels first occur in the label list (the insertion order of the
    [Map]), each holding the items of its label in input order. *)
Theorem C9_entries_in_first_occurrence_order (sourceGroups : list ClusterItem) clusterIds :
  length sourceGroups = length clusterIds ->
  map fst (clustersWithCentroids (groupByCluster sourceGroups clusterIds))
  = map (fun k => map group (members_of k sourceGroups clusterIds))
        (first_labels [] clusterIds)
  /\ Forall (fun k => k <> -1) (first_labels [] clusterIds).
Proof.
  intros Hlen. split.
  - rewrite groupByCluster_characterised by exact Hlen.
    apply clustersWithCentroids_members.
    intros k Hk. apply first_labels_spec in Hk.
    apply members_of_nonempty; tauto.
  - apply Forall_forall. intros k Hk. apply first_labels_spec in Hk. tauto.
Qed.

(** C9 (amended), on the six points above. *)
Lemma C9_entries_in_first_occurrence_order_witness :
  map fst (clustersWithCentroids
             (groupByCluster
                (map (fun r => {| group := toJoinedSourceGroup r EmptyText;
                                  item_vector := [] |}) interleaved_rows)
                [1; 0; 1; 0; 0; 1]))
  = map (fun k => map group
                    (members_of k
                       (map (fun r => {| group := toJoinedSourceGroup r EmptyText;
                                         item_vector := [] |}) interleaved_rows)
                       [1; 0; 1; 0; 0; 1]))
        (first_labels [] [1; 0; 1; 0; 0; 1])
  /\ Forall (fun k => k <> -1) (first_labels [] [1; 0; 1; 0; 0; 1]).
Proof.
  apply C9_entries_in_first_occurrence_order. reflexivity.
Defined.

Lemma skipn_nth_error (A : Type) : forall (l : list A) i x,
    nth_error l i = Some x -> skipn i l = x :: skipn (S i) l.
Proof.
  induction l as [|a l IH]; intros [|i] x H; simpl in *; try discriminate.
  - congruence.
  - apply IH. exact H.
Qed.

Lemma sample_loop_firstn clusterSources : forall remaining i,
    sample_loop clusterSources i remaining
    = map (fun joined => Source.source_text (source joined))
          (firstn remaining (skipn i clusterSources)).
Proof.
  induction remaining as [|remaining IH]; intros i; simpl; [reflexivity|].
  destruct (nth_error clusterSources i) as [joined|] eqn:Hnth.
  - rewrite (skipn_nth_error _ _ _ _ Hnth). simpl. f_equal. apply IH.
  - apply nth_error_None in Hnth. rewrite skipn_all2 by exact Hnth. reflexivity.
Qed.

(** The samples of a cluster are the texts of its first five members, or of
    all of them when it has fewer. *)
Lemma sample_cluster_firstn clusterSources :
  sample_cluster clusterSources
  = map (fun joined => Source.source_text (source joined)) (firstn 5 clusterSources).
Proof.
  unfold sample_cluster. rewrite sample_loop_firstn. simpl skipn. f_equal.
  destruct (Nat.le_ge_cases 5 (length clusterSources)) as [H|H].
  - rewrite Nat.min_l by exact H. reflexivity.
  - rewrite Nat.min_r by exact H.
    rewrite firstn_all. symmetry. apply firstn_all2. exact H.
Qed.

Lemma sampleSources_entries (sourceGroups : list ClusterItem) clusterIds : forall keys,
    (forall k, In k keys -> members_of k sourceGroups clusterIds <> []) ->
    sampleSources (clustersWithCentroids
                     (map (fun k => (k, members_of k sourceGroups clusterIds)) keys))
    = flat_map (fun k => map item_text (firstn 5 (members_of k sourceGroups clusterIds)))
               keys.
Proof.
  induction keys as [|k keys IH]; intros Hne; [reflexivity|].
  unfold sampleSources, clustersWithCentroids in *. simpl.
  destruct (centroid_of_members (members_of k sourceGroups clusterIds)) as [c Hc].
  { apply Hne. left. reflexivity. }
  rewrite Hc. simpl. f_equal.
  - rewrite sample_cluster_firstn, firstn_map, map_map. reflexivity.
  - apply IH. intros k' Hk'. apply Hne. right. exact Hk'.
Qed.

(** The samples of the operation: the texts of the first five items of each
    label. *)
Lemma sampleSources_first_five (sourceGroups : list ClusterItem) clusterIds :
  length sourceGroups = length clusterIds ->
  sampleSources (clustersWithCentroids (groupByCluster sourceGroups clusterIds))
  = first_five_of_each sourceGroups clusterIds.
Proof.
  intros Hlen. rewrite groupByCluster_characterised by exact Hlen.
  apply sampleSources_entries.
  intros k Hk. apply first_labels_spec in Hk. apply members_of_nonempty; tauto.
Qed.

(** What [dbscanClusterSubjectEmbeddings] returns, when it returns
    clusters, are the entries of the labelled items. *)
Lemma returned_clusters db subjects eps minPoints clusters :
  dbscanClusterSubjectEmbeddings db subjects eps minPoints = Ok clusters ->
  clusters <> [] ->
  exists sourceGroups clusterIds,
    clustererInput db subjects = Ok sourceGroups
    /\ dbscanClustering (map item_vector sourceGroups) eps minPoints = Ok clusterIds
    /\ length sourceGroups = length clusterIds
    /\ clusters = clustersWithCentroids (groupByCluster sourceGroups clusterIds).
Proof.
  unfold dbscanClusterSubjectEmbeddings, clustererInput. intros H Hne.
  destruct subjects as [|subject subjects]; [inversion H; congruence|].
  destruct (sourceGroupQuery db (map toLowerCase (subject :: subjects))
                             (length (subject :: subjects))) as [|row rows];
    [inversion H; congruence|].
  destruct (processClustering (row :: rows) eps minPoints) as [out|e] eqn:Hout;
    [|discriminate H].
  inversion H; subst out.
  apply processClustering_entries in Hout.
  destruct Hout as [sourceGroups [Hcollect [[_ Hnil]|[clusterIds [Hlabels [Hlen Hout]]]]]];
    [congruence|].
  exists sourceGroups, clusterIds. auto.
Qed.

(** C10.  For items and labels of equal length, [groupByCluster] has
    exactly one entry for each label other than [-1] that occurs, and the
    entry of label [k] holds exactly the items labelled [k], in input order;
    so the samples taken from a cluster ([project] maps an item to its joined
    source group) are the texts of the first five such items, or of all of
    them when there are fewer.  This is what the operation samples: the
    sources that [sampleSources] gives for the entries made of the groups
    are the first five texts of each label, and when the clustering of the
    evidence returns clusters, the one prompt that
    [generateRelationshipSummary] sends to the summarizer is built from
    these texts, joined by newlines. *)
Theorem C10_clusters_hold_their_items_in_input_order
        (T : Type) (items : list T) (labels : list Z) :
  length items = length labels ->
  (forall k members,
      In (k, members) (groupByCluster items labels) ->
      k <> -1 /\ In k labels /\ members = members_of k items labels)
  /\ (forall k, In k labels -> k <> -1 ->
                In (k, members_of k items labels) (groupByCluster items labels))
  /\ NoDup (map fst (groupByCluster items labels))
  /\ (forall (project : T -> JoinedSourceGroup) k members,
         In (k, members) (groupByCluster items labels) ->
         sample_cluster (map project members)
         = map (fun joined => Source.source_text (source joined))
               (firstn 5 (map project (members_of k items labels))))
  /\ (forall (sourceGroups : list ClusterItem),
         length sourceGroups = length labels ->
         sampleSources (clustersWithCentroids (groupByCluster sourceGroups labels))
         = first_five_of_each sourceGroups labels)
  /\ (forall config db firstId secondId subject1Name subject2Name clusters,
         dbscanClusterSubjectEmbeddings
           db (summary_subjects firstId secondId subject1Name subject2Name)
           default_eps default_minPoints = Ok clusters ->
         clusters <> [] ->
         exists sourceGroups clusterIds,
           clustererInput db (summary_subjects firstId secondId subject1Name subject2Name)
           = Ok sourceGroups
           /\ dbscanClustering (map item_vector sourceGroups) default_eps default_minPoints
              = Ok clusterIds
           /\ snd (generateRelationshipSummary config db firstId secondId
                                               subject1Name subject2Name)
              = [ (createSubjectUnderstandingPrompt
                     (join_lines (first_five_of_each sourceGroups clusterIds))
                     subject1Name subject2Name,
                   30000) ]).
Proof.
  intros Hlen.
  assert (Hentry : forall k members,
             In (k, members) (groupByCluster items labels) ->
             k <> -1 /\ In k labels /\ members = members_of k items labels).
  { rewrite groupByCluster_characterised by exact Hlen.
    intros k members Hin. apply in_map_iff in Hin. destruct Hin as [k' [Heq Hk']].
    inversion Heq; subst. apply first_labels_spec in Hk'. tauto. }
  split; [exact Hentry|]. split; [|split; [|split; [|split]]].
  - rewrite groupByCluster_characterised by exact Hlen.
    intros k Hk Hnoise. apply in_map_iff. exists k. split; [reflexivity|].
    apply first_labels_spec. simpl. tauto.
  - rewrite groupByCluster_characterised by exact Hlen.
    rewrite map_map. simpl. rewrite map_id. apply first_labels_NoDup.
  - intros project k members Hin. apply Hentry in Hin. destruct Hin as [_ [_ ->]].
    apply sample_cluster_firstn.
  - intros sourceGroups Hgroups. apply sampleSources_first_five. exact Hgroups.
  - intros config db firstId secondId subject1Name subject2Name clusters Hclusters Hsome.
    destruct (returned_clusters _ _ _ _ _ Hclusters Hsome)
      as [sourceGroups [clusterIds [Hinput [Hlabels [Hsame Hout]]]]].
    exists sourceGroups, clusterIds. split; [exact Hinput|]. split; [exact Hlabels|].
    unfold generateRelationshipSummary. rewrite Hclusters.
    destruct clusters as [|cluster clusters']; [congruence|].
    rewrite Hout, (sampleSources_first_five sourceGroups clusterIds Hsame).
    unfold callGeminiForRelationshipSummary.
    destruct (generateContent config _ _) as [[text|]|err]; reflexivity.
Qed.

Lemma sam_clusters :
  { clusters |
    dbscanClusterSubjectEmbeddings sam_db (summary_subjects 1 2 "Sam Hall" "Bob")
                                   default_eps default_minPoints = Ok clusters
    /\ clusters <> [] }.
Proof.
  eexists. split; [vm_compute; reflexivity | discriminate].
Defined.

(** C10, on seven items of which six carry label 0, and for "Sam Hall" and
    "Bob", whose three shared notes form one cluster. *)
Lemma C10_clusters_hold_their_items_in_input_order_witness :
  In (0, [10; 20; 30; 50; 60; 70])
     (groupByCluster [10; 20; 30; 40; 50; 60; 70] [0; 0; 0; -1; 0; 0; 0])
  /\ members_of 0 [10; 20; 30; 40; 50; 60; 70] [0; 0; 0; -1; 0; 0; 0]
     = [10; 20; 30; 50; 60; 70]
  /\ exists sourceGroups clusterIds,
      clustererInput sam_db (summary_subjects 1 2 "Sam Hall" "Bob") = Ok sourceGroups
      /\ dbscanClustering (map item_vector sourceGroups) default_eps default_minPoints
         = Ok clusterIds
      /\ snd (generateRelationshipSummary quiet_config sam_db 1 2 "Sam Hall" "Bob")
         = [ (createSubjectUnderstandingPrompt
                (join_lines (first_five_of_each sourceGroups clusterIds))
                "Sam Hall" "Bob",
              30000) ].
Proof.
  pose proof (C10_clusters_hold_their_items_in_input_order
                Z [10; 20; 30; 40; 50; 60; 70] [0; 0; 0; -1; 0; 0; 0] eq_refl)
    as [_ [Hentries [_ [_ [_ Hprompt]]]]].
  split; [|split].
  - apply (Hentries 0).
    + simpl. tauto.
    + discriminate.
  - reflexivity.
  - apply (Hprompt quiet_config sam_db 1 2 "Sam Hall"%string "Bob"%string
                   (proj1_sig sam_clusters)).
    + exact (proj1 (proj2_sig sam_clusters)).
    + exact (proj2 (proj2_sig sam_clusters)).
Defined.

End ClusterClaims.

(** ** Facts about ORDER BY *)

Section OrderByFacts.

Variable Row : Type.
Variable le : Row -> Row -> bool.
Hypothesis le_total : forall a b, le a b = true \/ le b a = true.
Hypothesis le_trans : forall a b c, le a b = true -> le b c = true -> le a c = true.

Lemma insert_row_In r x : forall sorted,
    In x (insert_row le r sorted) <-> x = r \/ In x sorted.
Proof.
  induction sorted as [|r' sorted IH]; simpl.
  - split; intros [H|H]; auto.
  - destruct (le r r'); simpl; [|rewrite IH]; split; intros H;
      repeat (destruct H as [H|H]); auto.
Qed.

Lemma ORDER_BY_In x : forall rows, In x (ORDER_BY le rows) <-> In x rows.
Proof.
  induction rows as [|r rows IH]; simpl; [tauto|].
  rewrite insert_row_In, IH. split; intros [H|H]; auto.
Qed.

Lemma insert_row_sorted r : forall sorted,
    StronglySorted (fun a b => le a b = true) sorted ->
    StronglySorted (fun a b => le a b = true) (insert_row le r sorted).
Proof.
  induction sorted as [|r' sorted IH]; intros Hs; simpl.
  - constructor; constructor.
  - inversion Hs as [|? ? Hs' Hall]; subst.
    destruct (le r r') eqn:Hle.
    + constructor; [exact Hs|]. constructor; [exact Hle|].
      eapply Forall_impl; [|exact Hall]. simpl. intros c Hc. eapply le_trans; eauto.
    + constructor; [apply IH; exact Hs'|].
      apply Forall_forall. intros x Hx. apply insert_row_In in Hx.
      destruct Hx as [->|Hx].
      * destruct (le_total r r') as [H|H]; [congruence | exact H].
      * rewrite Forall_forall in Hall. apply Hall. exact Hx.
Qed.

Lemma ORDER_BY_sorted rows : StronglySorted (fun a b => le a b = true) (ORDER_BY le rows).
Proof.
  induction rows as [|r rows IH]; simpl; [constructor|].
  apply insert_row_sorted. exact IH.
Qed.

Lemma insert_row_Permutation r : forall sorted, Permutation (insert_row le r sorted) (r :: sorted).
Proof.
  induction sorted as [|r' sorted IH]; simpl; [apply Permutation_refl|].
  destruct (le r r'); [apply Permutation_refl|].
  eapply Permutation_trans; [apply perm_skip; exact IH | apply perm_swap].
Qed.

Lemma ORDER_BY_Permutation rows : Permutation (ORDER_BY le rows) rows.
Proof.
  induction rows as [|r rows IH]; simpl; [apply Permutation_refl|].
  eapply Permutation_trans; [apply insert_row_Permutation | apply perm_skip; exact IH].
Qed.

(** The first row of a sorted result comes before every row of the input. *)
Lemma ORDER_BY_first rows first :
  get (ORDER_BY le rows) = Some first ->
  In first rows /\ forall r, In r rows -> le first r = true.
Proof.
  intros Hget. pose proof (ORDER_BY_sorted rows) as Hs.
  assert (Hin : forall x, In x (ORDER_BY le rows) <-> In x rows) by (intros; apply ORDER_BY_In).
  destruct (ORDER_BY le rows) as [|h sorted]; simpl in Hget; [discriminate|].
  inversion Hget; subst. inversion Hs as [|? ? _ Hall]; subst. split.
  - apply Hin. left. reflexivity.
  - intros r Hr. apply Hin in Hr. destruct Hr as [<-|Hr].
    + destruct (le_total first first); assumption.
    + rewrite Forall_forall in Hall. apply Hall. exact Hr.
Qed.

Lemma ORDER_BY_empty rows : get (ORDER_BY le rows) = None -> rows = [].
Proof.
  destruct rows as [|r rows]; [reflexivity|]. intros H.
  assert (Hin : In r (ORDER_BY le (r :: rows))) by (apply ORDER_BY_In; left; reflexivity).
  destruct (ORDER_BY le (r :: rows)); [destruct Hin | discriminate].
Qed.

End OrderByFacts.

Lemma get_firstn (Row : Type) (rows : list Row) limit :
  (0 < limit)%nat -> get (firstn limit rows) = get rows.
Proof.
  destruct limit; [lia|]. destruct rows; reflexivity.
Qed.

(** ** LIKE '%name%' as a substring test *)

Section LikeFacts.

Local Open Scope string_scope.

Lemma LIKE_percent s : LIKE "%" s = true.
Proof.
  induction s as [|c s IH]; simpl; [reflexivity|]. simpl in IH. exact IH.
Qed.

Lemma LIKE_any_run q s :
  LIKE (String "%" q) s
  = (LIKE q s || match s with
                 | EmptyString => false
                 | String _ s' => LIKE (String "%" q) s'
                 end).
Proof.
  destruct s; reflexivity.
Qed.

Lemma LIKE_prefix : forall needle s,
    wildcard_free needle = true -> LIKE (needle ++ "%") s = nocase_prefix needle s.
Proof.
  induction needle as [|c needle IH]; intros s Hfree.
  - apply LIKE_percent.
  - simpl in Hfree. apply andb_true_iff in Hfree. destruct Hfree as [Hc Hfree].
    apply andb_true_iff in Hc. destruct Hc as [Hpercent Hunderscore].
    apply negb_true_iff in Hpercent. apply negb_true_iff in Hunderscore.
    simpl. rewrite Hpercent, Hunderscore.
    destruct s as [|d s]; [reflexivity|]. rewrite IH by exact Hfree. reflexivity.
Qed.

(** For a needle without wildcards, the full pattern matches exactly the
    strings that contain the needle, up to ASCII case. *)
Lemma LIKE_contains needle :
  wildcard_free needle = true ->
  forall s, LIKE (patternExact needle) s = contains_nocase needle s.
Proof.
  intros Hfree. unfold patternExact. simpl append.
  induction s as [|c s IH].
  - rewrite LIKE_any_run, LIKE_prefix by exact Hfree. reflexivity.
  - rewrite LIKE_any_run, LIKE_prefix by exact Hfree. rewrite IH. reflexivity.
Qed.

Lemma first_token_wildcard_free : forall needle,
    wildcard_free needle = true -> wildcard_free (first_token needle) = true.
Proof.
  induction needle as [|c needle IH]; simpl; intros H; [reflexivity|].
  destruct (Ascii.eqb c " "); [reflexivity|]. simpl.
  apply andb_true_iff in H. destruct H as [Hc H]. rewrite Hc, IH by exact H. reflexivity.
Qed.

(** The tiers of a needle without wildcards, as substring tests. *)
Lemma tier_by_substring subjectName row :
  wildcard_free subjectName = true ->
  (tier subjectName row = 1%nat
   <-> contains_nocase subjectName (Subject.subject row) = true)
  /\ (tier subjectName row = 2%nat
      <-> contains_nocase subjectName (Subject.subject row) = false
          /\ contains_nocase (first_token subjectName) (Subject.subject row) = true).
Proof.
  intros Hfree. unfold tier, match_priority.
  rewrite LIKE_contains by exact Hfree.
  unfold patternPartial. fold (patternExact (first_token subjectName)).
  rewrite LIKE_contains by (apply first_token_wildcard_free; exact Hfree).
  destruct (contains_nocase subjectName (Subject.subject row));
    destruct (contains_nocase (first_token subjectName) (Subject.subject row));
    split; split; intros H; try reflexivity; try discriminate; try tauto;
    destruct H; discriminate.
Qed.

End LikeFacts.

(** ** Name resolution *)

Section NameResolution.

Local Open Scope nat_scope.

Lemma fuzzy_le_iff p1 p2 a b :
  fuzzy_le p1 p2 a b = true
  <-> match_priority p1 p2 a < match_priority p1 p2 b
      \/ (match_priority p1 p2 a = match_priority p1 p2 b
          /\ LENGTH (Subject.subject a) <= LENGTH (Subject.subject b)).
Proof.
  unfold fuzzy_le. rewrite orb_true_iff, andb_true_iff, Nat.ltb_lt, Nat.eqb_eq, Nat.leb_le.
  tauto.
Qed.

Lemma fuzzy_le_total p1 p2 a b : fuzzy_le p1 p2 a b = true \/ fuzzy_le p1 p2 b a = true.
Proof. rewrite !fuzzy_le_iff. lia. Qed.

Lemma fuzzy_le_trans p1 p2 a b c :
  fuzzy_le p1 p2 a b = true -> fuzzy_le p1 p2 b c = true -> fuzzy_le p1 p2 a c = true.
Proof. rewrite !fuzzy_le_iff. lia. Qed.

Lemma tier_matches p1 p2 row :
  match_priority p1 p2 row <= 2
  <-> LIKE p1 (Subject.subject row) || LIKE p2 (Subject.subject row) = true.
Proof.
  unfold match_priority.
  destruct (LIKE p1 (Subject.subject row)); destruct (LIKE p2 (Subject.subject row));
    simpl; split; intros H; try reflexivity; try lia; discriminate.
Qed.

(** The first row of the fuzzy query, for any positive [LIMIT]. *)
Lemma fuzzyQuery_first db subjectName limit :
  0 < limit ->
  match get (fuzzyQuery db (patternExact subjectName) (patternPartial subjectName) limit) with
  | Some best =>
      In best (subjects db)
      /\ tier subjectName best <= 2
      /\ forall row, In row (subjects db) -> tier subjectName row <= 2 ->
                     ranked_before subjectName best row
  | None => forall row, In row (subjects db) -> tier subjectName row = 3
  end.
Proof.
  intros Hlimit. unfold fuzzyQuery. rewrite get_firstn by exact Hlimit.
  set (p1 := patternExact subjectName). set (p2 := patternPartial subjectName).
  set (candidates :=
         filter (fun row => LIKE p1 (Subject.subject row) || LIKE p2 (Subject.subject row))
                (subjects db)).
  destruct (get (ORDER_BY (fuzzy_le p1 p2) candidates)) as [best|] eqn:Hget.
  - apply ORDER_BY_first in Hget;
      [|apply fuzzy_le_total | apply fuzzy_le_trans].
    destruct Hget as [Hin Hmin]. unfold candidates in Hin.
    apply filter_In in Hin. destruct Hin as [Hin Hmatch].
    split; [exact Hin|]. split; [apply tier_matches; exact Hmatch|].
    intros row Hrow Htier. unfold ranked_before, tier.
    apply fuzzy_le_iff. apply Hmin. unfold candidates. apply filter_In.
    split; [exact Hrow | apply tier_matches; exact Htier].
  - apply ORDER_BY_empty in Hget. intros row Hrow.
    assert (Hnot : ~ tier subjectName row <= 2).
    { intros Htier. apply tier_matches in Htier.
      assert (Hin : In row candidates) by (apply filter_In; split; assumption).
      rewrite Hget in Hin. destruct Hin. }
    unfold tier, match_priority in *.
    destruct (LIKE (patternExact subjectName) (Subject.subject row));
      destruct (LIKE (patternPartial subjectName) (Subject.subject row));
      simpl in *; try lia.
Qed.

(** The two-name lookup resolves each name by itself, as the one-name lookup
    does: a match for one name has no influence on the other. *)
Lemma findSubjectIdsByName_separately db subject1Name subject2Name :
  findSubjectIdsByName db subject1Name subject2Name
  = resolved_separately db subject1Name subject2Name.
Proof.
  unfold findSubjectIdsByName, resolved_separately, findSubjectIdByName,
    findBestMatchingSubjects.
  unfold fuzzyQuery. rewrite !get_firstn by lia.
  destruct (get (exactQuery db subject1Name)) as [row1|];
    destruct (get (exactQuery db subject2Name)) as [row2|]; simpl.
  all: unfold result_at; simpl.
  all: repeat match goal with
         | |- context [get (ORDER_BY ?f ?rows)] => destruct (get (ORDER_BY f rows)); simpl
         end.
  all: reflexivity.
Qed.

(** C6, as stated, fails: the tiers are not substring tests.  The queried
    name is put into the [LIKE] patterns as it is, so its [_] stands for any
    character: "john_doe" has no exact match in the catalog {"John Doe",
    "xjohn_doe"}, and of the two names only "xjohn_doe" contains it, yet it
    resolves to "John Doe" (id 1), which the pattern matches too and which is
    shorter. *)
Lemma C6_underscore_in_the_name_is_a_wildcard :
  exactQuery john_catalog "john_doe" = []
  /\ contains_nocase "john_doe" "John Doe" = false
  /\ contains_nocase "john_doe" "xjohn_doe" = true
  /\ findSubjectIdByName john_catalog "john_doe" = Some 1%Z.
Proof.
  repeat split; vm_compute; reflexivity.
Qed.

(** [LENGTH] counts characters: the five of [emile], which are six bytes. *)
Lemma LENGTH_counts_characters :
  LENGTH emile = 5%nat /\ String.length emile = 6%nat.
Proof. split; reflexivity. Qed.

(** C6 (amended).  Name resolution returns an exact (ASCII case-insensitive)
    match whenever the catalog has one.  On an exact miss it returns the
    candidate ranked first: tier 1 (the name matches the full [LIKE]
    pattern, in which the [%] and [_] of the queried name are wildcards)
    before tier 2 (it matches the first-token pattern only), names of tier 3
    excluded, and within a tier a name that has no more characters than any
    other; it returns no match exactly when every name is of tier 3.  For a
    queried name without the wildcards of LIKE, tier 1 is: the catalog name
    contains the queried name, and tier 2: it does not, and contains its
    first token (both up to ASCII case).  The two-name lookup of
    find_subject_relationship resolves each of its names in this way.  With
    the catalog {"Sam", "Sam Hall"}, "Sam Hall" resolves to "Sam Hall". *)
Theorem C6_exact_match_then_ranked_fuzzy_match :
  (forall db subjectName,
      (forall row,
          In row (subjects db) ->
          nocase_eqb (Subject.subject row) subjectName = true ->
          exists exact,
            In exact (subjects db)
            /\ nocase_eqb (Subject.subject exact) subjectName = true
            /\ findSubjectIdByName db subjectName = Some (Subject.id exact))
      /\ ((forall row, In row (subjects db) ->
                       nocase_eqb (Subject.subject row) subjectName = false) ->
          match findSubjectIdByName db subjectName with
          | Some found =>
              exists best,
                In best (subjects db)
                /\ Subject.id best = found
                /\ tier subjectName best <= 2
                /\ forall row, In row (subjects db) -> tier subjectName row <= 2 ->
                               ranked_before subjectName best row
          | None => forall row, In row (subjects db) -> tier subjectName row = 3
          end)
      /\ (wildcard_free subjectName = true ->
          forall row,
            (tier subjectName row = 1
             <-> contains_nocase subjectName (Subject.subject row) = true)
            /\ (tier subjectName row = 2
                <-> contains_nocase subjectName (Subject.subject row) = false
                    /\ contains_nocase (first_token subjectName) (Subject.subject row)
                       = true))
      /\ (forall otherName,
             findSubjectIdsByName db subjectName otherName
             = resolved_separately db subjectName otherName
             /\ findSubjectIdsByName db otherName subjectName
                = resolved_separately db otherName subjectName))
  /\ findSubjectIdByName sam_catalog "Sam Hall" = Some 2%Z
  /\ findSubjectIdsByName sam_catalog "Sam Hall" "Sam" = Ok (2%Z, 1%Z).
Proof.
  split; [|split; vm_compute; reflexivity].
  intros db subjectName. split; [|split; [|split]].
  - intros row Hin Hexact. unfold findSubjectIdByName.
    destruct (get (exactQuery db subjectName)) as [exact|] eqn:Hget.
    + exists exact. unfold get, exactQuery in Hget.
      assert (Hex : In exact (filter (fun r => nocase_eqb (Subject.subject r) subjectName)
                                     (subjects db))).
      { destruct (filter _ _); simpl in Hget; [discriminate|].
        inversion Hget; subst. left. reflexivity. }
      apply filter_In in Hex. tauto.
    + exfalso. unfold get, exactQuery in Hget.
      assert (Hex : In row (filter (fun r => nocase_eqb (Subject.subject r) subjectName)
                                   (subjects db))).
      { apply filter_In. split; assumption. }
      destruct (filter _ _); [destruct Hex | discriminate].
  - intros Hmiss. unfold findSubjectIdByName.
    assert (Hnone : get (exactQuery db subjectName) = None).
    { unfold get, exactQuery.
      destruct (filter _ _) as [|r rest] eqn:Hf; [reflexivity|].
      assert (Hr : In r (filter (fun r => nocase_eqb (Subject.subject r) subjectName)
                                (subjects db))) by (rewrite Hf; left; reflexivity).
      apply filter_In in Hr. destruct Hr as [Hr1 Hr2]. rewrite Hmiss in Hr2 by exact Hr1.
      discriminate. }
    rewrite Hnone.
    pose proof (fuzzyQuery_first db subjectName 1 Nat.lt_0_1) as Hfirst.
    destruct (get (fuzzyQuery db _ _ 1)) as [best|]; [|exact Hfirst].
    exists best. tauto.
  - intros Hfree row. apply tier_by_substring. exact Hfree.
  - intros otherName. split; apply findSubjectIdsByName_separately.
Qed.

End NameResolution.

(** ** Shared-evidence retrieval *)

Section SharedEvidence.

Local Open Scope Z_scope.

(** C4, as stated, fails: group 10 has two qualifying records and puts two
    items, with the same embedding, into the array given to the clusterer. *)
Lemma C4_group_contributes_once_per_record :
  exists items,
    clustererInput shared_group_db ["Bob"%string] = Ok items
    /\ map item_group_id items = [10; 10]
    /\ map item_source_id items = [1; 2]
    /\ map item_vector items = [[0%float; 0%float]; [0%float; 0%float]].
Proof.
  eexists. repeat split; vm_compute; reflexivity.
Qed.

Lemma Zleb_total a b : (a <=? b) = true \/ (b <=? a) = true.
Proof. rewrite !Z.leb_le. lia. Qed.

Lemma Zleb_trans a b c : (a <=? b) = true -> (b <=? c) = true -> (a <=? c) = true.
Proof. rewrite !Z.leb_le. lia. Qed.

Lemma StronglySorted_le_NoDup_lt (l : list Z) :
  StronglySorted (fun a b => (a <=? b) = true) l -> NoDup l -> StronglySorted Z.lt l.
Proof.
  induction 1 as [|x l Hs IH Hall]; intros Hnd; [constructor|].
  inversion Hnd as [|? ? Hnin Hnd']; subst.
  constructor; [apply IH; exact Hnd'|].
  rewrite Forall_forall in *. intros y Hy.
  specialize (Hall y Hy). apply Z.leb_le in Hall.
  assert (x <> y) by (intros ->; contradiction). lia.
Qed.

(** The keys of [GROUP BY s.id ... ORDER BY s.id]: strictly ascending. *)
Lemma group_keys_ascending rows : StronglySorted Z.lt (group_keys rows).
Proof.
  unfold group_keys. apply StronglySorted_le_NoDup_lt.
  - apply ORDER_BY_sorted; [apply Zleb_total | apply Zleb_trans].
  - eapply Permutation_NoDup.
    + apply Permutation_sym. apply ORDER_BY_Permutation.
    + apply NoDup_nodup.
Qed.

(** One output row per key that passes [HAVING], carrying that source id. *)
Lemma grouped_rows_ascending (rows : list QueryRow) (wantCount : nat) : forall keys,
    StronglySorted Z.lt keys ->
    StronglySorted Z.lt
      (map (fun row => Source.id (row_source row))
           (flat_map (fun key =>
                        let grouped :=
                          filter (fun row => Source.id (row_source row) =? key) rows in
                        if (count_distinct_subjects grouped =? wantCount)%nat
                        then firstn 1 grouped
                        else [])
                     keys))
    /\ forall x,
      In x (map (fun row => Source.id (row_source row))
                (flat_map (fun key =>
                             let grouped :=
                               filter (fun row => Source.id (row_source row) =? key) rows in
                             if (count_distinct_subjects grouped =? wantCount)%nat
                             then firstn 1 grouped
                             else [])
                          keys)) ->
      In x keys.
Proof.
  induction keys as [|key keys IH]; intros Hs; simpl.
  - split; [constructor | tauto].
  - inversion Hs as [|? ? Hs' Hall]; subst.
    destruct (IH Hs') as [IHs IHin]. clear IH.
    remember (filter (fun row => Source.id (row_source row) =? key) rows) as grouped
      eqn:Hgrouped.
    assert (Hhead : forall row0 rest,
               grouped = row0 :: rest -> Source.id (row_source row0) = key).
    { intros row0 rest Heq.
      assert (Hin : In row0 grouped) by (rewrite Heq; left; reflexivity).
      rewrite Hgrouped in Hin. apply filter_In in Hin. destruct Hin as [_ Hkey].
      apply Z.eqb_eq. exact Hkey. }
    destruct (count_distinct_subjects grouped =? wantCount)%nat.
    + destruct grouped as [|row0 rest]; simpl.
      * split; [exact IHs | intros x Hx; right; apply IHin; exact Hx].
      * rewrite (Hhead row0 rest eq_refl). split.
        -- constructor; [exact IHs|].
           apply Forall_forall. intros x Hx. apply IHin in Hx.
           rewrite Forall_forall in Hall. apply Hall. exact Hx.
        -- intros x [Hx|Hx]; [left; exact Hx | right; apply IHin; exact Hx].
    + simpl. split; [exact IHs | intros x Hx; right; apply IHin; exact Hx].
Qed.

Lemma sourceGroupQuery_ascending db lowered wantCount :
  StronglySorted Z.lt
    (map (fun row => Source.id (row_source row)) (sourceGroupQuery db lowered wantCount)).
Proof.
  unfold sourceGroupQuery. apply grouped_rows_ascending. apply group_keys_ascending.
Qed.

(** The items keep the order of the rows; rows are only ever dropped. *)
Lemma collectSourceGroups_ascending : forall rows items,
    collectSourceGroups rows = Ok items ->
    StronglySorted Z.lt (map (fun row => Source.id (row_source row)) rows) ->
    StronglySorted Z.lt (map item_source_id items)
    /\ forall x, In x (map item_source_id items) ->
                 In x (map (fun row => Source.id (row_source row)) rows).
Proof.
  induction rows as [|row rows IH]; intros items H Hs; simpl in H.
  - inversion H; subst. split; [constructor | simpl; tauto].
  - simpl in Hs. inversion Hs as [|? ? Hs' Hall]; subst.
    destruct (SourceGroup.vector (row_group row)) as [[|v|msg]|].
    + destruct (IH items H Hs') as [H1 H2]. split; [exact H1|].
      intros x Hx. right. apply H2. exact Hx.
    + apply bind_Ok_inv in H. destruct H as [items' [Hitems H]].
      inversion H; subst. destruct (IH items' Hitems Hs') as [H1 H2]. simpl. split.
      * constructor; [exact H1|].
        apply Forall_forall. intros x Hx. apply H2 in Hx.
        rewrite Forall_forall in Hall. apply Hall. exact Hx.
      * intros x [Hx|Hx]; [left; exact Hx | right; apply H2; exact Hx].
    + discriminate H.
    + destruct (IH items H Hs') as [H1 H2]. split; [exact H1|].
      intros x Hx. right. apply H2. exact Hx.
Qed.

Lemma StronglySorted_Zlt_NoDup (l : list Z) : StronglySorted Z.lt l -> NoDup l.
Proof.
  induction 1 as [|x l Hs IH Hall]; constructor; auto.
  intros Hin. rewrite Forall_forall in Hall. apply Hall in Hin. lia.
Qed.

(** The array handed to [dbscanClustering] is the one [clustererInput] builds. *)
Lemma clusterer_is_given_clustererInput db subject subjects eps minPoints :
  processClustering
    (sourceGroupQuery db (map toLowerCase (subject :: subjects)) (length (subject :: subjects)))
    eps minPoints
  = bind (clustererInput db (subject :: subjects))
         (fun sourceGroups =>
            match sourceGroups with
            | [] => Ok []
            | _ :: _ =>
                bind (dbscanClustering (map item_vector sourceGroups) eps minPoints)
                     (fun clusterIds =>
                        Ok (clustersWithCentroids (groupByCluster sourceGroups clusterIds)))
            end).
Proof. reflexivity. Qed.

End SharedEvidence.

(** ** The relationship cache *)

Section RelationshipCache.

Local Open Scope Z_scope.

Lemma ordered_pair_min_max a b : ordered_pair a b = (Z.min a b, Z.max a b).
Proof.
  unfold ordered_pair. destruct (a <? b) eqn:H.
  - apply Z.ltb_lt in H. rewrite Z.min_l, Z.max_r by lia. reflexivity.
  - apply Z.ltb_ge in H. rewrite Z.min_r, Z.max_l by lia. reflexivity.
Qed.

Lemma ordered_pair_sym a b : ordered_pair a b = ordered_pair b a.
Proof. rewrite !ordered_pair_min_max, Z.min_comm, Z.max_comm. reflexivity. Qed.

Lemma same_pair_key f s row : same_pair f s row = true <-> row_key row = (f, s).
Proof.
  unfold same_pair, row_key. rewrite andb_true_iff, !Z.eqb_eq. split.
  - intros [-> ->]. reflexivity.
  - intros H. inversion H. auto.
Qed.

(** After an upsert the first row of the pair carries the new summary. *)
Lemma select_after_upsert f s summary timestamp : forall rows,
    option_map Relationship.relationship_summary
               (get (filter (same_pair f s) (upsert rows f s summary timestamp)))
    = Some summary.
Proof.
  induction rows as [|row rows IH]; simpl.
  - unfold same_pair. simpl. rewrite !Z.eqb_refl. reflexivity.
  - destruct (same_pair f s row) eqn:Hrow; simpl.
    + unfold same_pair in *. simpl. rewrite Hrow. reflexivity.
    + rewrite Hrow. exact IH.
Qed.

Lemma upsert_keys f s summary timestamp : forall rows,
    map row_key (upsert rows f s summary timestamp)
    = if existsb (same_pair f s) rows
      then map row_key rows
      else (map row_key rows ++ [(f, s)])%list.
Proof.
  induction rows as [|row rows IH]; simpl; [reflexivity|].
  destruct (same_pair f s row) eqn:Hrow; simpl; [reflexivity|].
  rewrite IH. destruct (existsb (same_pair f s) rows); reflexivity.
Qed.

Lemma existsb_same_pair f s rows :
  existsb (same_pair f s) rows = true <-> In (f, s) (map row_key rows).
Proof.
  rewrite existsb_exists, in_map_iff. split.
  - intros [row [Hin H]]. exists row. split; [apply same_pair_key; exact H | exact Hin].
  - intros [row [H Hin]]. exists row. split; [exact Hin | apply same_pair_key; exact H].
Qed.

Lemma upsert_has_key f s summary timestamp rows :
  In (f, s) (map row_key (upsert rows f s summary timestamp)).
Proof.
  rewrite upsert_keys. destruct (existsb (same_pair f s) rows) eqn:H.
  - apply existsb_same_pair. exact H.
  - apply in_or_app. right. left. reflexivity.
Qed.

Lemma upsert_check f s summary timestamp : forall rows,
    check_constraint f s = true ->
    Forall (fun row => check_constraint (Relationship.subject_1 row)
                                        (Relationship.subject_2 row) = true) rows ->
    Forall (fun row => check_constraint (Relationship.subject_1 row)
                                        (Relationship.subject_2 row) = true)
           (upsert rows f s summary timestamp).
Proof.
  induction rows as [|row rows IH]; intros Hfs Hall; simpl.
  - constructor; [exact Hfs | constructor].
  - inversion Hall; subst. destruct (same_pair f s row); constructor; auto.
Qed.

(** An upsert that passes the CHECK keeps the constraints of the table. *)
Lemma upsert_constraints f s summary timestamp rows :
  check_constraint f s = true ->
  table_constraints rows ->
  table_constraints (upsert rows f s summary timestamp).
Proof.
  intros Hfs [Hnd Hall]. split; [|apply upsert_check; assumption].
  rewrite upsert_keys. destruct (existsb (same_pair f s) rows) eqn:H; [exact Hnd|].
  apply NoDup_app; auto.
  - constructor; [simpl; tauto | constructor].
  - intros key Hkey [<-|[]]. apply existsb_same_pair in Hkey. congruence.
Qed.

Lemma unique_key_one_row f s : forall rows,
    NoDup (map row_key rows) -> In (f, s) (map row_key rows) ->
    length (filter (same_pair f s) rows) = 1%nat.
Proof.
  induction rows as [|row rows IH]; simpl; intros Hnd Hin; [destruct Hin|].
  inversion Hnd as [|? ? Hnin Hnd']; subst.
  destruct (same_pair f s row) eqn:Hrow; simpl.
  - apply same_pair_key in Hrow. rewrite Hrow in Hnin.
    f_equal. destruct (filter (same_pair f s) rows) as [|r rest] eqn:Hf; [reflexivity|].
    exfalso. apply Hnin.
    assert (Hr : In r (filter (same_pair f s) rows)) by (rewrite Hf; left; reflexivity).
    apply filter_In in Hr. destruct Hr as [Hr Hk]. apply same_pair_key in Hk.
    apply in_map_iff. exists r. auto.
  - destruct Hin as [Hin|Hin].
    + apply same_pair_key in Hin. congruence.
    + apply IH; assumption.
Qed.

(** Under the CHECK no row stores a pair the wrong way round, so the rows of
    an unordered pair are the rows of its ordered form. *)
Lemma rows_for_pair_ordered db a b :
  a <> b ->
  Forall (fun row => check_constraint (Relationship.subject_1 row)
                                      (Relationship.subject_2 row) = true)
         (subject_relationships db) ->
  rows_for_pair db a b
  = filter (same_pair (Z.min a b) (Z.max a b)) (subject_relationships db).
Proof.
  intros Hab Hall. unfold rows_for_pair. apply filter_ext_in.
  intros row Hrow. rewrite Forall_forall in Hall. specialize (Hall row Hrow).
  unfold check_constraint in Hall. apply Z.ltb_lt in Hall.
  unfold same_pair.
  destruct (Z.lt_ge_cases a b) as [Hlt|Hge].
  - rewrite Z.min_l, Z.max_r by lia.
    destruct (Relationship.subject_1 row =? b) eqn:H1;
      destruct (Relationship.subject_2 row =? a) eqn:H2; simpl;
      rewrite ?orb_false_r, ?andb_false_r, ?orb_false_r; try reflexivity.
    apply Z.eqb_eq in H1. apply Z.eqb_eq in H2. lia.
  - rewrite Z.min_r, Z.max_l by lia.
    destruct (Relationship.subject_1 row =? a) eqn:H1;
      destruct (Relationship.subject_2 row =? b) eqn:H2; simpl; try reflexivity.
    apply Z.eqb_eq in H1. apply Z.eqb_eq in H2. lia.
Qed.

Lemma cache_put_upserts config db a b summary :
  a <> b ->
  cache_put config db a b summary
  = Ok (with_relationships db
          (upsert (subject_relationships db) (Z.min a b) (Z.max a b)
                  (Some summary) (now config))).
Proof.
  intros Hab. unfold cache_put. rewrite ordered_pair_min_max.
  unfold updateSubjectRelationship, check_constraint.
  assert (H : (Z.min a b <? Z.max a b) = true) by (apply Z.ltb_lt; lia).
  rewrite H. reflexivity.
Qed.

Lemma put_all_one_row a b :
  a <> b ->
  forall puts db,
    puts_for a b puts ->
    table_constraints (subject_relationships db) ->
    (puts <> [] \/ In (Z.min a b, Z.max a b) (map row_key (subject_relationships db))) ->
    exists db',
      put_all db puts = Ok db'
      /\ table_constraints (subject_relationships db')
      /\ length (rows_for_pair db' a b) = 1%nat.
Proof.
  intros Hab. induction puts as [|[[config [idA idB]] summary] puts IH];
    intros db Hfor Hwf Hsome.
  - exists db. split; [reflexivity|]. split; [exact Hwf|].
    destruct Hsome as [H|H]; [congruence|].
    destruct Hwf as [Hnd Hall].
    rewrite rows_for_pair_ordered by assumption.
    apply unique_key_one_row; assumption.
  - inversion Hfor as [|? ? Hput Hfor']; subst. simpl in Hput. simpl.
    assert (Hminmax : Z.min idA idB = Z.min a b /\ Z.max idA idB = Z.max a b /\ idA <> idB).
    { destruct Hput as [H|H]; inversion H; subst; lia. }
    destruct Hminmax as [Hmin [Hmax Hne]].
    rewrite cache_put_upserts by exact Hne. simpl. rewrite Hmin, Hmax.
    apply IH.
    + exact Hfor'.
    + simpl. apply upsert_constraints; [|exact Hwf].
      unfold check_constraint. apply Z.ltb_lt. lia.
    + right. simpl. apply upsert_has_key.
Qed.

(** The lookup of the operation is [cache_get] on the resolved pair: a
    hit is returned at once, and nothing changes. *)
Lemma getOrCreate_returns_cached config world subject1Name subject2Name
      subject1Id subject2Id summary :
  findSubjectIdsByName (wafer_db world) subject1Name subject2Name
  = Ok (subject1Id, subject2Id) ->
  cache_get (wafer_db world) subject1Id subject2Id = Some summary ->
  getOrCreateSubjectRelationship config world subject1Name subject2Name
  = (Ok summary, world).
Proof.
  intros Hids Hget. unfold getOrCreateSubjectRelationship. rewrite Hids.
  unfold cache_get in Hget.
  destruct (ordered_pair subject1Id subject2Id) as [firstId secondId].
  rewrite Hget. reflexivity.
Qed.

(** C7, as stated, fails for the empty summary: after [put(5, 2, "")] the
    row of the pair holds the empty text, and the lookup, which tests
    [row && row.relationship_summary], reads it as a miss. *)
Lemma C7_empty_summary_reads_as_a_miss :
  exists db',
    cache_put quiet_config empty_db 5 2 "" = Ok db'
    /\ stored_summary db' 2 5 = Some (Some ""%string)
    /\ cache_get db' 2 5 = None.
Proof.
  eexists. repeat split; vm_compute; reflexivity.
Qed.

(** C7 (amended).  The pair is ordered as [(min, max)] before the lookup and
    before the upsert, in whichever order the ids are given.  So for ids
    [a <> b], a put of [(a, b, x)] followed by a get of [(b, a)] returns [x]
    when [x] is not empty, and is a miss when it is; the get is the lookup
    of the operation, which returns a hit at once whichever way round the
    names resolve; and on a table that satisfies its constraints, every
    non-empty sequence of puts for the unordered pair, in any order of the
    two ids, succeeds and leaves exactly one row for that pair. *)
Theorem C7_cache_is_keyed_by_the_ordered_pair (a b : Z) :
  a <> b ->
  ordered_pair a b = (Z.min a b, Z.max a b)
  /\ ordered_pair b a = (Z.min a b, Z.max a b)
  /\ (forall config db x,
         exists db',
           cache_put config db a b x = Ok db'
           /\ cache_get db' b a = if truthy x then Some x else None)
  /\ (forall config world subject1Name subject2Name x,
         findSubjectIdsByName (wafer_db world) subject1Name subject2Name = Ok (a, b) ->
         cache_get (wafer_db world) b a = Some x ->
         getOrCreateSubjectRelationship config world subject1Name subject2Name
         = (Ok x, world))
  /\ (forall db puts,
         table_constraints (subject_relationships db) ->
         puts <> [] ->
         puts_for a b puts ->
         exists db',
           put_all db puts = Ok db'
           /\ length (rows_for_pair db' a b) = 1%nat).
Proof.
  intros Hab. split; [apply ordered_pair_min_max|].
  split; [rewrite ordered_pair_sym; apply ordered_pair_min_max|]. split; [|split].
  - intros config db x. eexists. split; [apply cache_put_upserts; exact Hab|].
    unfold cache_get. rewrite ordered_pair_sym, ordered_pair_min_max.
    unfold selectRelationship. simpl.
    pose proof (select_after_upsert (Z.min a b) (Z.max a b) (Some x) (now config)
                                    (subject_relationships db)) as Hsel.
    destruct (get (filter (same_pair (Z.min a b) (Z.max a b)) _)) as [row|];
      simpl in Hsel; [|discriminate Hsel].
    inversion Hsel as [Hrow]. simpl. rewrite Hrow. reflexivity.
  - intros config world subject1Name subject2Name x Hids Hget.
    apply (getOrCreate_returns_cached config world subject1Name subject2Name a b x Hids).
    unfold cache_get in *. rewrite ordered_pair_sym. exact Hget.
  - intros db puts Hwf Hne Hfor.
    destruct (put_all_one_row a b Hab puts db Hfor Hwf (or_introl Hne)) as [db' [H1 [_ H2]]].
    exists db'. split; assumption.
Qed.

(** C7 (amended) at the example of the specification: [put(5, 2, "x")],
    then [get(2, 5)]. *)
Lemma C7_cache_is_keyed_by_the_ordered_pair_witness :
  (exists db', cache_put quiet_config empty_db 5 2 "x" = Ok db'
               /\ cache_get db' 2 5 = Some "x"%string)
  /\ (exists db',
         put_all empty_db [ (quiet_config, (5, 2), "x"%string);
                            (quiet_config, (2, 5), "y"%string) ] = Ok db'
         /\ length (rows_for_pair db' 5 2) = 1%nat).
Proof.
  assert (Hne : 5 <> 2) by (intros H; discriminate H).
  destruct (C7_cache_is_keyed_by_the_ordered_pair 5 2 Hne) as [_ [_ [Hput [_ Hputs]]]].
  split.
  - apply (Hput quiet_config empty_db "x"%string).
  - apply Hputs.
    + split; constructor.
    + intros H; discriminate H.
    + constructor; [left; reflexivity|]. constructor; [right; reflexivity|]. constructor.
Defined.

End RelationshipCache.

(** ** The relationship resolution operation *)

Section Operation.

Local Open Scope Z_scope.
Local Open Scope string_scope.

(** The write of the operation is [cache_put] on the resolved pair. *)
Lemma getOrCreate_stores_with_cache_put config world subject1Name subject2Name
      subject1Id subject2Id summary calls :
  let db := wafer_db world in
  findSubjectIdsByName db subject1Name subject2Name = Ok (subject1Id, subject2Id) ->
  existing_summary
    (get (selectRelationship db (fst (ordered_pair subject1Id subject2Id))
                             (snd (ordered_pair subject1Id subject2Id)))) = None ->
  generateRelationshipSummary config db (fst (ordered_pair subject1Id subject2Id))
                              (snd (ordered_pair subject1Id subject2Id))
                              subject1Name subject2Name
  = (Ok (Some summary), calls) ->
  getOrCreateSubjectRelationship config world subject1Name subject2Name
  = match cache_put config db subject1Id subject2Id summary with
    | Ok db' =>
        (Ok (summary_or_default (Some summary)),
         {| wafer_db := db'; gemini_calls := (gemini_calls world ++ calls)%list |})
    | Throw e =>
        (Throw e, {| wafer_db := db; gemini_calls := (gemini_calls world ++ calls)%list |})
    end.
Proof.
  intros db Hids Hmiss Hgen. unfold getOrCreateSubjectRelationship, cache_put.
  fold db. rewrite Hids.
  destruct (ordered_pair subject1Id subject2Id) as [firstId secondId]. simpl in *.
  rewrite Hmiss, Hgen.
  destruct (updateSubjectRelationship config db firstId secondId (Some summary));
    reflexivity.
Qed.

(** C2, as stated, fails: "Alice" and "Bob" share no evidence, the clusters
    are empty and the outcome is 'No shared sources found', yet the table,
    empty before, holds a row for the pair (with a NULL summary) after. *)
Lemma C2_empty_clusters_still_write_a_row :
  dbscanClusterSubjectEmbeddings strangers_db ["Alice"; "Bob"] default_eps default_minPoints
  = Ok []
  /\ fst (getOrCreateSubjectRelationship quiet_config (fresh strangers_db) "Alice" "Bob")
     = Ok "No shared sources found"
  /\ subject_relationships
       (wafer_db (snd (getOrCreateSubjectRelationship quiet_config (fresh strangers_db)
                                                      "Alice" "Bob")))
     = [ {| Relationship.subject_1 := 2; Relationship.subject_2 := 3;
            Relationship.relationship_summary := None;
            Relationship.relationship_embedding := None;
            Relationship.updated_at := "2025-07-01 12:00:00" |} ]
  /\ wafer_db (snd (getOrCreateSubjectRelationship quiet_config (fresh strangers_db)
                                                   "Alice" "Bob"))
     <> strangers_db.
Proof.
  repeat split; try (vm_compute; reflexivity).
  vm_compute. intros H. discriminate H.
Qed.

(** C2 (amended).  When the two names resolve to distinct ids, the cache
    holds no summary for the pair and evidence clustering returns no
    cluster, the operation calls no summarizer and returns the non-error
    outcome 'No shared sources found'; it does write to the store: it
    upserts the row of the ordered pair with a NULL summary, which a later
    lookup treats as a miss. *)
Theorem C2_empty_clusters_upsert_a_null_summary
        config world subject1Name subject2Name subject1Id subject2Id :
  let db := wafer_db world in
  let firstId := Z.min subject1Id subject2Id in
  let secondId := Z.max subject1Id subject2Id in
  findSubjectIdsByName db subject1Name subject2Name = Ok (subject1Id, subject2Id) ->
  subject1Id <> subject2Id ->
  existing_summary (get (selectRelationship db firstId secondId)) = None ->
  dbscanClusterSubjectEmbeddings
    db (summary_subjects firstId secondId subject1Name subject2Name)
    default_eps default_minPoints = Ok [] ->
  let db' := with_relationships
               db (upsert (subject_relationships db) firstId secondId None (now config)) in
  getOrCreateSubjectRelationship config world subject1Name subject2Name
  = (Ok no_shared_sources, {| wafer_db := db'; gemini_calls := gemini_calls world |})
  /\ stored_summary db' subject1Id subject2Id = Some None
  /\ existing_summary (get (selectRelationship db' firstId secondId)) = None.
Proof.
  intros db firstId secondId Hids Hne Hmiss Hempty db'.
  split; [|split].
  - unfold getOrCreateSubjectRelationship. fold db. rewrite Hids.
    rewrite ordered_pair_min_max. fold firstId secondId. rewrite Hmiss.
    unfold generateRelationshipSummary. rewrite Hempty.
    unfold updateSubjectRelationship, check_constraint.
    assert (H : (firstId <? secondId)%Z = true) by (apply Z.ltb_lt; unfold firstId, secondId; lia).
    rewrite H. simpl. rewrite app_nil_r. reflexivity.
  - unfold stored_summary. rewrite ordered_pair_min_max. fold firstId secondId.
    unfold db', selectRelationship. simpl. apply select_after_upsert.
  - pose proof (select_after_upsert firstId secondId None (now config)
                                    (subject_relationships db)) as Hsel.
    unfold db', selectRelationship. simpl.
    destruct (get (filter (same_pair firstId secondId) _)) as [row|]; simpl in *.
    + inversion Hsel as [Hrow]. rewrite Hrow. reflexivity.
    + reflexivity.
Qed.

(** C2 (amended), for "Alice" and "Bob". *)
Lemma C2_empty_clusters_upsert_a_null_summary_witness :
  getOrCreateSubjectRelationship quiet_config (fresh strangers_db) "Alice" "Bob"
  = (Ok no_shared_sources,
     {| wafer_db :=
          with_relationships strangers_db
            (upsert [] 2 3 None (now quiet_config));
        gemini_calls := [] |})
  /\ stored_summary (with_relationships strangers_db (upsert [] 2 3 None (now quiet_config))) 2 3
     = Some None
  /\ existing_summary
       (get (selectRelationship
               (with_relationships strangers_db (upsert [] 2 3 None (now quiet_config))) 2 3))
     = None.
Proof.
  apply (C2_empty_clusters_upsert_a_null_summary
           quiet_config (fresh strangers_db) "Alice" "Bob" 2 3).
  - vm_compute. reflexivity.
  - intros H. discriminate H.
  - vm_compute. reflexivity.
  - vm_compute. reflexivity.
Defined.

(** C8.  Every call of the summarizer made by the operation carries the
    timeout 30000 ms, and whenever such a call is rejected (backend failure,
    or the timeout aborting it) the operation fails with the error 'Failed
    to generate relationship summary: ...' and leaves the database as it
    was: no row is written. *)
Theorem C8_summarizer_failure_writes_nothing config world subject1Name subject2Name :
  let run := getOrCreateSubjectRelationship config world subject1Name subject2Name in
  exists calls,
    gemini_calls (snd run) = (gemini_calls world ++ calls)%list
    /\ Forall (fun call : GeminiCall => snd call = 30000) calls
    /\ forall prompt timeout error,
        In (prompt, timeout) calls ->
        generateContent config prompt timeout = Rejects error ->
        fst run = Throw (summarization_failed error)
        /\ wafer_db (snd run) = wafer_db world.
Proof.
  intros run. unfold run, getOrCreateSubjectRelationship.
  assert (Hnone : exists calls : list GeminiCall,
             gemini_calls world = (gemini_calls world ++ calls)%list
             /\ Forall (fun call : GeminiCall => snd call = 30000) calls
             /\ forall prompt timeout, In (prompt, timeout) calls -> False).
  { exists []. rewrite app_nil_r. split; [reflexivity|]. split; [constructor|].
    intros ? ? []. }
  destruct (findSubjectIdsByName (wafer_db world) subject1Name subject2Name)
    as [[subject1Id subject2Id]|e]; simpl.
  2:{ destruct Hnone as [calls [H1 [H2 H3]]]. exists calls. split; [exact H1|].
      split; [exact H2|]. intros p t err Hin. destruct (H3 p t Hin). }
  destruct (ordered_pair subject1Id subject2Id) as [firstId secondId].
  destruct (existing_summary _) as [summary|]; simpl.
  { destruct Hnone as [calls [H1 [H2 H3]]]. exists calls. split; [exact H1|].
    split; [exact H2|]. intros p t err Hin. destruct (H3 p t Hin). }
  unfold generateRelationshipSummary.
  destruct (dbscanClusterSubjectEmbeddings _ _ _ _) as [[|cluster clusters]|e]; simpl.
  - exists []. split.
    + destruct (updateSubjectRelationship _ _ _ _ _); reflexivity.
    + split; [constructor|]. intros p t err [].
  - unfold callGeminiForRelationshipSummary.
    set (prompt := createSubjectUnderstandingPrompt _ _ _).
    exists [(prompt, 30000)]. split; [|split].
    + destruct (generateContent config prompt 30000) as [[text|]|err]; simpl;
        try reflexivity;
        destruct (updateSubjectRelationship _ _ _ _ _); reflexivity.
    + constructor; [reflexivity | constructor].
    + intros p t err [Hin|[]] Hrej. inversion Hin; subst p t.
      rewrite Hrej. simpl. split; reflexivity.
  - exists []. split; [reflexivity|]. split; [constructor|]. intros p t err [].
Qed.

(** C8, for "Sam Hall" and "Bob" with a summarizer that times out: the
    summarizer is reached, the operation fails and the database is as
    before. *)
Lemma C8_summarizer_failure_writes_nothing_witness :
  fst (getOrCreateSubjectRelationship timing_out_config (fresh sam_db) "Sam Hall" "Bob")
  = Throw (summarization_failed (Some (Error "The operation was aborted due to timeout")))
  /\ wafer_db (snd (getOrCreateSubjectRelationship timing_out_config (fresh sam_db)
                                                   "Sam Hall" "Bob"))
     = sam_db.
Proof.
  destruct (C8_summarizer_failure_writes_nothing
              timing_out_config (fresh sam_db) "Sam Hall" "Bob")
    as [calls [Hcalls [_ Hrejected]]].
  simpl app in Hcalls.
  eapply Hrejected.
  - rewrite <- Hcalls. vm_compute. left. reflexivity.
  - reflexivity.
Defined.

(** C3 (the code at the failing input).  The check on the raw strings
    rejects "Sam Hall" with " sam hall ", but "Sam" and "Sam Hall" pass it
    and both resolve to the id 1; the operation does
    not reject the pair: it goes on to the cache lookup and the clustering,
    calls the summarizer for the relationship of the entity with itself, and
    what finally fails is the insertion of the row (1, 1). *)
Theorem C3_same_entity_is_not_rejected_after_resolution :
  validateToolParams {| subject_1 := "Sam Hall"; subject_2 := " sam hall " |}
  = Some must_be_different
  /\ validateToolParams sam_twice = None
  /\ findSubjectIdsByName sam_db "Sam" "Sam Hall" = Ok (1, 1)
  /\ length (gemini_calls (snd (execute quiet_config (fresh sam_db) sam_twice))) = 1%nat
  /\ returnDisplay (fst (execute quiet_config (fresh sam_db) sam_twice)) <> must_be_different
  /\ returnDisplay (fst (execute quiet_config (fresh sam_db) sam_twice))
     = "Failed to get or create subject relationship: Failed to update relationship: SQLITE_CONSTRAINT: CHECK constraint failed".
Proof.
  repeat split; try (vm_compute; reflexivity).
  vm_compute. intros H. discriminate H.
Qed.

End Operation.

(** ** Further properties of clustering.ts *)

Section NeighboursCharacterised.

Local Open Scope nat_scope.

(** The loop of [getNeighbors] keeps exactly the positions, other than
    [pointIdx], whose embedding is within [eps] of [point]. *)
Lemma getNeighbors_from_In point pointIdx eps :
  forall rest offset neighbors,
    getNeighbors_from point pointIdx eps rest offset = Ok neighbors ->
    forall i,
      In i neighbors
      <-> (offset <= i /\ i <> pointIdx
           /\ exists e d, nth_error rest (i - offset) = Some e
                          /\ euclideanDistance point e = Ok d
                          /\ PrimFloat.leb d eps = true).
Proof.
  induction rest as [|e rest IH]; intros offset neighbors H i; simpl in H.
  - inversion H; subst. simpl. split; [tauto|].
    intros [_ [_ [e [d [Hnth _]]]]]. destruct (i - offset); discriminate.
  - assert (Hshift : forall ns,
               getNeighbors_from point pointIdx eps rest (S offset) = Ok ns ->
               S offset <= i ->
               (In i ns
                <-> (offset <= i /\ i <> pointIdx
                     /\ exists e' d, nth_error (e :: rest) (i - offset) = Some e'
                                     /\ euclideanDistance point e' = Ok d
                                     /\ PrimFloat.leb d eps = true))).
    { intros ns Hns Hle. rewrite (IH _ _ Hns i).
      replace (i - offset) with (S (i - S offset)) by lia. simpl.
      split; intros [H1 [H2 H3]]; (split; [lia|]); split; assumption. }
    assert (Hbelow : forall ns,
               getNeighbors_from point pointIdx eps rest (S offset) = Ok ns ->
               i <= offset -> ~ In i ns).
    { intros ns Hns Hle Hin. apply (IH _ _ Hns i) in Hin. lia. }
    destruct (offset =? pointIdx) eqn:Hoff.
    + apply Nat.eqb_eq in Hoff.
      destruct (Nat.le_gt_cases (S offset) i) as [Hle|Hgt].
      * apply Hshift; assumption.
      * split; [intros Hin; exfalso; apply (Hbelow _ H); [lia | exact Hin]|].
        intros [H1 [H2 _]]. lia.
    + apply Nat.eqb_neq in Hoff.
      apply bind_Ok_inv in H. destruct H as [d [Hd H]].
      apply bind_Ok_inv in H. destruct H as [ns [Hns H]].
      destruct (Nat.le_gt_cases (S offset) i) as [Hle|Hgt].
      * pose proof (Hshift ns Hns Hle) as Hs.
        destruct (PrimFloat.leb d eps); inversion H; subst neighbors; simpl;
          rewrite <- Hs; [|tauto].
        split; [intros [Heq|Hin]; [lia | exact Hin] | tauto].
      * assert (Hnot : ~ In i ns) by (apply Hbelow; [exact Hns | lia]).
        destruct (Nat.eq_dec i offset) as [->|Hne].
        -- rewrite Nat.sub_diag. simpl.
           destruct (PrimFloat.leb d eps) eqn:Hleb; inversion H; subst neighbors; simpl.
           ++ split; [|tauto]. intros _. split; [lia|]. split; [exact Hoff|].
              exists e, d. auto.
           ++ split; [tauto|]. intros [_ [_ [e' [d' [He' [Hd' Hleb']]]]]].
              inversion He'; subst e'. rewrite Hd in Hd'. inversion Hd'; subst d'.
              congruence.
        -- split.
           ++ intros Hin. exfalso.
              destruct (PrimFloat.leb d eps); inversion H; subst neighbors; simpl in Hin;
                [destruct Hin as [Heq|Hin]; [congruence | contradiction] | contradiction].
           ++ intros [H1 _]. lia.
Qed.

(** X1.  [getNeighbors] returns exactly the indices [i], other than [pointIdx],
    of the embeddings that lie within [eps] of the point (the comparison is
    [<=]: a point at distance [eps] is a neighbour), in strictly ascending
    order. *)
Theorem getNeighbors_characterised embeddings pointIdx eps point neighbors :
  nth_error embeddings pointIdx = Some point ->
  getNeighbors embeddings pointIdx eps = Ok neighbors ->
  StronglySorted lt neighbors
  /\ forall i,
      In i neighbors
      <-> (i <> pointIdx
           /\ exists e d, nth_error embeddings i = Some e
                          /\ euclideanDistance point e = Ok d
                          /\ PrimFloat.leb d eps = true).
Proof.
  intros Hpoint H. unfold getNeighbors in H. rewrite Hpoint in H. split.
  - apply getNeighbors_from_spec in H. tauto.
  - intros i. rewrite (getNeighbors_from_In _ _ _ _ _ _ H i). rewrite Nat.sub_0_r.
    split; [tauto|]. intros [H1 H2]. split; [lia|]. tauto.
Qed.

Lemma getNeighbors_characterised_witness :
  StronglySorted lt [1]
  /\ forall i,
      In i [1]
      <-> (i <> 0
           /\ exists e d, nth_error example_points i = Some e
                          /\ euclideanDistance [0; 0]%float e = Ok d
                          /\ PrimFloat.leb d 1.5%float = true).
Proof.
  apply (getNeighbors_characterised example_points 0 1.5%float [0; 0]%float [1]);
    reflexivity.
Defined.

End NeighboursCharacterised.

Section DbscanStructure.

Local Open Scope Z_scope.

Variable embeddings : list Embedding.
Variables eps minPoints : float.

Lemma nth_error_array_set_same : forall clusters idx value,
    (idx < length clusters)%nat ->
    nth_error (array_set clusters idx value) idx = Some value.
Proof.
  induction clusters as [|c clusters IH]; intros [|idx] value H; simpl in *; try lia.
  - reflexivity.
  - apply IH. lia.
Qed.

Lemma nth_error_array_set_other : forall clusters idx value i,
    i <> idx -> nth_error (array_set clusters idx value) i = nth_error clusters i.
Proof.
  induction clusters as [|c clusters IH]; intros [|idx] value [|i] H; simpl;
    try reflexivity; try congruence.
  apply IH. congruence.
Qed.

Lemma is_unlabelled_nth clusters idx :
  is_unlabelled clusters idx = true <-> nth_error clusters idx = Some (-1).
Proof.
  unfold is_unlabelled. destruct (nth_error clusters idx) as [l|].
  - rewrite Z.eqb_eq. split; congruence.
  - split; discriminate.
Qed.

Lemma push_new_In : forall neighborNeighbors queue q,
    In q (push_new queue neighborNeighbors) -> In q queue \/ In q neighborNeighbors.
Proof.
  induction neighborNeighbors as [|x more IH]; intros queue q H; simpl in *; [tauto|].
  apply IH in H. destruct H as [H|H]; [|tauto].
  destruct (includes queue x); [tauto|].
  apply in_app_or in H. destruct H as [H|[H|[]]]; [tauto | subst; tauto].
Qed.

(** What the walk of the queue does to the labels: it keeps every label
    other than [-1], and a point it labels was unlabelled, gets the id of the
    cluster being expanded and is a neighbour of a point of that cluster. *)
Lemma expand_labels clusterId :
  clusterId <> -1 ->
  forall rounds j neighborQueue clusters clusters',
    expand rounds embeddings eps minPoints clusterId j neighborQueue clusters = Ok clusters' ->
    (forall q, In q neighborQueue ->
               exists p, nth_error clusters p = Some clusterId
                         /\ neighbour_of embeddings eps p q) ->
    length clusters' = length clusters
    /\ (forall i l, nth_error clusters i = Some l -> l <> -1 ->
                    nth_error clusters' i = Some l)
    /\ (forall i,
           nth_error clusters' i = nth_error clusters i
           \/ (nth_error clusters i = Some (-1)
               /\ nth_error clusters' i = Some clusterId
               /\ exists p, nth_error clusters' p = Some clusterId
                            /\ neighbour_of embeddings eps p i)).
Proof.
  intros Hid. induction rounds as [|rounds IH]; intros j queue clusters clusters' H Hqueue;
    simpl in H.
  - inversion H; subst. split; [reflexivity|]. split; [auto | left; reflexivity].
  - destruct (nth_error queue j) as [idx|] eqn:Hj.
    2:{ inversion H; subst. split; [reflexivity|]. split; [auto | left; reflexivity]. }
    destruct (is_unlabelled clusters idx) eqn:Hun.
    + pose proof (is_unlabelled_lt _ _ Hun) as Hlt.
      apply is_unlabelled_nth in Hun.
      apply bind_Ok_inv in H. destruct H as [nn [Hnn H]].
      set (clusters1 := array_set clusters idx clusterId) in *.
      assert (Hsame : nth_error clusters1 idx = Some clusterId)
        by (apply nth_error_array_set_same; exact Hlt).
      assert (Hother : forall i, i <> idx -> nth_error clusters1 i = nth_error clusters i)
        by (intros; apply nth_error_array_set_other; assumption).
      assert (Hkeep : forall p, nth_error clusters p = Some clusterId ->
                                nth_error clusters1 p = Some clusterId).
      { intros p Hp. rewrite Hother; [exact Hp|]. intros ->. congruence. }
      apply IH in H.
      * destruct H as [Hlen [Hpres Hnew]]. split; [|split].
        -- rewrite Hlen. apply array_set_length.
        -- intros i l Hi Hl. apply Hpres; [|exact Hl].
           rewrite Hother; [exact Hi|]. intros ->. congruence.
        -- intros i. destruct (Nat.eq_dec i idx) as [->|Hne].
           ++ right. split; [exact Hun|].
              assert (Hfinal : nth_error clusters' idx = Some clusterId)
                by (apply Hpres; assumption).
              split; [exact Hfinal|].
              destruct (Hqueue idx (nth_error_In _ _ Hj)) as [p [Hp Hnear]].
              exists p. split; [|exact Hnear]. apply Hpres; [|exact Hid].
              apply Hkeep. exact Hp.
           ++ rewrite <- (Hother i Hne). apply Hnew.
      * intros q Hq.
        assert (Hfrom : In q queue \/ In q nn).
        { destruct (PrimFloat.leb minPoints (number_of_nat (length nn)));
            [apply push_new_In; exact Hq | left; exact Hq]. }
        destruct Hfrom as [Hin|Hin].
        -- destruct (Hqueue q Hin) as [p [Hp Hnear]]. exists p. split; [|exact Hnear].
           apply Hkeep. exact Hp.
        -- exists idx. split; [exact Hsame|]. exists nn. split; assumption.
    + apply IH in H; [exact H | exact Hqueue].
Qed.

(** One visit of the outer loop keeps the invariant. *)
Lemma scan_keeps_invariant :
  forall count i0 clusters seeds labels,
    (i0 + count = length embeddings)%nat ->
    scan_invariant embeddings eps minPoints i0 clusters seeds ->
    scan embeddings eps minPoints (seq i0 count) clusters (Z.of_nat (length seeds))
    = Ok labels ->
    exists seeds',
      scan_invariant embeddings eps minPoints (length embeddings) labels seeds'.
Proof.
  induction count as [|count IH]; intros i0 clusters seeds labels Hn Hinv H; simpl in H.
  - inversion H; subst. exists seeds. replace (length embeddings) with i0 by lia. exact Hinv.
  - destruct Hinv as [Hlen Hrange Hsorted Hvisited Hseeds Hnoise Hreached].
    assert (Hi0 : (i0 < length clusters)%nat) by lia.
    destruct (is_unlabelled clusters i0) eqn:Hun; simpl in H.
    + apply is_unlabelled_nth in Hun.
      apply bind_Ok_inv in H. destruct H as [neighbors [Hneighbors H]].
      destruct (PrimFloat.ltb (number_of_nat (length neighbors)) minPoints) eqn:Htest.
      * (* fewer than minPoints neighbours: left as noise for now *)
        apply (IH (S i0) clusters seeds labels); [lia | | exact H].
        constructor; auto.
        -- eapply Forall_impl; [|exact Hvisited]. simpl. intros s Hs. lia.
        -- intros i Hi Hlabel. destruct (Nat.eq_dec i i0) as [->|Hne].
           ++ exists neighbors. split; assumption.
           ++ apply Hnoise; [lia | exact Hlabel].
      * (* a new cluster starts at i0 *)
        apply bind_Ok_inv in H. destruct H as [clusters2 [Hexpand H]].
        set (clusterId := Z.of_nat (length seeds)) in *.
        set (clusters1 := array_set clusters i0 clusterId) in *.
        assert (Hid : clusterId <> -1) by (unfold clusterId; lia).
        assert (Hsame : nth_error clusters1 i0 = Some clusterId)
          by (apply nth_error_array_set_same; exact Hi0).
        assert (Hother : forall i, i <> i0 -> nth_error clusters1 i = nth_error clusters i)
          by (intros; apply nth_error_array_set_other; assumption).
        apply expand_labels in Hexpand; [|exact Hid|].
        2:{ intros q Hq. exists i0. split; [exact Hsame|]. exists neighbors. auto. }
        destruct Hexpand as [Hlen2 [Hpres Hnew]].
        assert (Hold : forall i l, nth_error clusters i = Some l -> l <> -1 ->
                                   nth_error clusters2 i = Some l).
        { intros i l Hi Hl. apply Hpres; [|exact Hl].
          rewrite Hother; [exact Hi|]. intros ->. congruence. }
        assert (Hfrom : forall i l, nth_error clusters2 i = Some l ->
                                    l = clusterId \/ (i <> i0 /\ nth_error clusters i = Some l)).
        { intros i l Hi. destruct (Hnew i) as [Heq|[_ [Hk _]]].
          - destruct (Nat.eq_dec i i0) as [->|Hne].
            + left. congruence.
            + right. split; [exact Hne|]. rewrite <- (Hother i Hne). congruence.
          - left. congruence. }
        replace (clusterId + 1) with (Z.of_nat (length (seeds ++ [i0]))) in H
          by (rewrite length_app; simpl; unfold clusterId; lia).
        apply (IH (S i0) clusters2 (seeds ++ [i0])%list labels); [lia | | exact H].
        constructor.
        -- rewrite Hlen2. unfold clusters1. rewrite array_set_length. exact Hlen.
        -- intros i l Hi. rewrite length_app. simpl.
           destruct (Hfrom i l Hi) as [->|[_ Hc]]; [unfold clusterId; lia|].
           specialize (Hrange i l Hc). lia.
        -- clear - Hsorted Hvisited. induction seeds as [|s seeds' IHs]; simpl.
           ++ constructor; constructor.
           ++ inversion Hsorted; subst. inversion Hvisited; subst.
              constructor; [apply IHs; assumption|].
              apply Forall_app. split; [assumption|]. constructor; [lia | constructor].
        -- apply Forall_app. split.
           ++ eapply Forall_impl; [|exact Hvisited]. simpl. intros s Hs. lia.
           ++ constructor; [lia | constructor].
        -- intros k s Hk.
           destruct (Nat.lt_ge_cases k (length seeds)) as [Hlt|Hge].
           ++ rewrite nth_error_app1 in Hk by exact Hlt.
              destruct (Hseeds k s Hk) as [Hlabel Hcore]. split; [|exact Hcore].
              apply Hold; [exact Hlabel | lia].
           ++ rewrite nth_error_app2 in Hk by exact Hge.
              destruct (k - length seeds)%nat as [|d] eqn:Hd; simpl in Hk;
                [|destruct d; discriminate].
              inversion Hk; subst s.
              assert (k = length seeds) by lia. subst k. split.
              ** apply Hpres; [exact Hsame | exact Hid].
              ** exists neighbors. split; assumption.
        -- intros i Hi Hlabel.
           destruct (Hfrom i (-1) Hlabel) as [Heq|[Hne Hc]]; [congruence|].
           apply Hnoise; [lia | exact Hc].
        -- intros q l Hq Hl. destruct (Hnew q) as [Heq|[_ [Hk Hnear]]].
           ++ destruct (Nat.eq_dec q i0) as [->|Hne].
              ** left. assert (l = clusterId) by congruence. subst l.
                 unfold clusterId. rewrite Nat2Z.id.
                 rewrite nth_error_app2 by lia. rewrite Nat.sub_diag. reflexivity.
              ** assert (Hc : nth_error clusters q = Some l)
                   by (rewrite <- (Hother q Hne); congruence).
                 destruct (Hreached q l Hc Hl) as [Hseed|[p [Hp Hnear]]].
                 --- left. rewrite nth_error_app1; [exact Hseed|].
                     apply nth_error_Some. congruence.
                 --- right. exists p. split; [|exact Hnear]. apply Hold; assumption.
           ++ right. assert (l = clusterId) by congruence. subst l. exact Hnear.
    + (* already in a cluster *)
      apply (IH (S i0) clusters seeds labels); [lia | | exact H].
      assert (Hlabelled : nth_error clusters i0 <> Some (-1)).
      { intros Hc. apply is_unlabelled_nth in Hc. congruence. }
      constructor; auto.
      * eapply Forall_impl; [|exact Hvisited]. simpl. intros s Hs. lia.
      * intros i Hi Hlabel. destruct (Nat.eq_dec i i0) as [->|Hne];
          [contradiction | apply Hnoise; [lia | exact Hlabel]].
Qed.

Lemma scan_invariant_initially :
  scan_invariant embeddings eps minPoints 0 (repeat (-1) (length embeddings)) [].
Proof.
  constructor; simpl.
  - apply repeat_length.
  - intros i l Hi. apply nth_error_In in Hi. apply repeat_spec in Hi. lia.
  - constructor.
  - constructor.
  - intros k s Hk. destruct k; discriminate.
  - intros i Hi. lia.
  - intros q l Hq Hl. apply nth_error_In in Hq. apply repeat_spec in Hq. contradiction.
Qed.

(** The labels that [dbscanClustering] returns satisfy the invariant of its
    outer loop, all points visited. *)
Lemma dbscanClustering_invariant labels :
  dbscanClustering embeddings eps minPoints = Ok labels ->
  exists seeds, scan_invariant embeddings eps minPoints (length embeddings) labels seeds.
Proof.
  unfold dbscanClustering. intros H.
  apply (scan_keeps_invariant (length embeddings) 0
                              (repeat (-1) (length embeddings)) [] labels).
  - reflexivity.
  - apply scan_invariant_initially.
  - exact H.
Qed.

End DbscanStructure.

Section DbscanProperties.

Local Open Scope Z_scope.

(** X2.  Cluster ids are handed out in the order in which the clusters are
    started: when [dbscanClustering] returns, there are points
    [s_0 < s_1 < ... < s_(k-1)] (the seeds) such that [s_j] carries the label
    [j] and passes the seed test, and every label is [-1] or one of
    [0 .. k-1]. *)
Theorem dbscanClustering_ids_follow_seed_order embeddings eps minPoints labels :
  dbscanClustering embeddings eps minPoints = Ok labels ->
  exists seeds,
    StronglySorted lt seeds
    /\ Forall (fun l => -1 <= l < Z.of_nat (length seeds)) labels
    /\ forall k s, nth_error seeds k = Some s ->
                   nth_error labels s = Some (Z.of_nat k)
                   /\ passes_seed_test embeddings eps minPoints s.
Proof.
  intros H. apply dbscanClustering_invariant in H. destruct H as [seeds Hinv].
  exists seeds. split; [apply (inv_seeds_sorted _ _ _ _ _ _ Hinv)|]. split.
  - apply Forall_forall. intros l Hl. apply In_nth_error in Hl. destruct Hl as [i Hi].
    apply (inv_range _ _ _ _ _ _ Hinv i l Hi).
  - apply (inv_seeds _ _ _ _ _ _ Hinv).
Qed.

Lemma dbscanClustering_ids_follow_seed_order_witness :
  exists seeds,
    StronglySorted lt seeds
    /\ Forall (fun l => -1 <= l < Z.of_nat (length seeds)) [1; 0; 1; 0; 0; 1]
    /\ forall k s, nth_error seeds k = Some s ->
                   nth_error [1; 0; 1; 0; 0; 1] s = Some (Z.of_nat k)
                   /\ passes_seed_test (map (fun v => [v]) interleaved_points)
                                       default_eps default_minPoints s.
Proof.
  apply (dbscanClustering_ids_follow_seed_order
           (map (fun v => [v]) interleaved_points) default_eps default_minPoints).
  vm_compute. reflexivity.
Defined.

(** X3.  A point that [dbscanClustering] leaves as noise fails the seed test: it
    has fewer than [minPoints] neighbours.  Put the other way round, every
    point whose neighbourhood is not smaller than [minPoints] ends up in a
    cluster. *)
Theorem dbscanClustering_noise_fails_seed_test embeddings eps minPoints labels i :
  dbscanClustering embeddings eps minPoints = Ok labels ->
  nth_error labels i = Some (-1) ->
  fails_seed_test embeddings eps minPoints i.
Proof.
  intros H Hi. apply dbscanClustering_invariant in H. destruct H as [seeds Hinv].
  apply (inv_noise _ _ _ _ _ _ Hinv i); [|exact Hi].
  rewrite <- (inv_length _ _ _ _ _ _ Hinv). apply nth_error_Some. congruence.
Qed.

Lemma dbscanClustering_noise_fails_seed_test_witness :
  fails_seed_test example_points 1.5%float 1%float 2.
Proof.
  apply (dbscanClustering_noise_fails_seed_test
           example_points 1.5%float 1%float [0; 0; -1] 2); vm_compute; reflexivity.
Defined.

(** X4.  No point is put into a cluster from afar: a point with a label other
    than [-1] is the seed of its cluster, or one of the neighbours that
    [getNeighbors] finds for some point with the same label. *)
Theorem dbscanClustering_members_are_reached embeddings eps minPoints labels :
  dbscanClustering embeddings eps minPoints = Ok labels ->
  exists seeds,
    (forall k s, nth_error seeds k = Some s -> nth_error labels s = Some (Z.of_nat k))
    /\ forall q l,
        nth_error labels q = Some l -> l <> -1 ->
        nth_error seeds (Z.to_nat l) = Some q
        \/ exists p, nth_error labels p = Some l /\ neighbour_of embeddings eps p q.
Proof.
  intros H. apply dbscanClustering_invariant in H. destruct H as [seeds Hinv].
  exists seeds. split.
  - intros k s Hk. apply (inv_seeds _ _ _ _ _ _ Hinv k s Hk).
  - apply (inv_reached _ _ _ _ _ _ Hinv).
Qed.

Lemma dbscanClustering_members_are_reached_witness :
  exists seeds,
    (forall k s, nth_error seeds k = Some s ->
                 nth_error [1; 0; 1; 0; 0; 1] s = Some (Z.of_nat k))
    /\ forall q l,
        nth_error [1; 0; 1; 0; 0; 1] q = Some l -> l <> -1 ->
        nth_error seeds (Z.to_nat l) = Some q
        \/ exists p, nth_error [1; 0; 1; 0; 0; 1] p = Some l
                     /\ neighbour_of (map (fun v => [v]) interleaved_points) default_eps p q.
Proof.
  apply (dbscanClustering_members_are_reached
           (map (fun v => [v]) interleaved_points) default_eps default_minPoints).
  vm_compute. reflexivity.
Defined.

Lemma add_embedding_length : forall centroid embedding,
    length (add_embedding centroid embedding) = length centroid.
Proof.
  induction centroid as [|c centroid IH]; intros embedding; simpl; [reflexivity|].
  rewrite IH. reflexivity.
Qed.

Lemma fold_add_embedding_length : forall embeddings centroid,
    length (fold_left add_embedding embeddings centroid) = length centroid.
Proof.
  induction embeddings as [|e embeddings IH]; intros centroid; simpl; [reflexivity|].
  rewrite IH. apply add_embedding_length.
Qed.

(** X5.  [calculateClusterCentroid] gives no centroid exactly for the empty
    list; otherwise the centroid has as many coordinates as the first
    embedding, whatever the lengths of the others. *)
Theorem calculateClusterCentroid_dimension (embeddings : list Embedding) :
  match calculateClusterCentroid embeddings with
  | None => embeddings = []
  | Some centroid =>
      embeddings <> [] /\ length centroid = dimension_of_first embeddings
  end.
Proof.
  destruct embeddings as [|first rest]; simpl; [reflexivity|].
  split; [discriminate|].
  rewrite length_map, fold_add_embedding_length, add_embedding_length, repeat_length.
  reflexivity.
Qed.

End DbscanProperties.

Section GroupByClusterPartition.

Variable T : Type.

Local Open Scope Z_scope.

Lemma flat_map_ext_on (f g : Z -> list T) : forall keys,
    (forall k, In k keys -> f k = g k) -> flat_map f keys = flat_map g keys.
Proof.
  induction keys as [|k keys IH]; intros H; simpl; [reflexivity|].
  rewrite (H k (or_introl eq_refl)), IH; [reflexivity|].
  intros k' Hk'. apply H. right. exact Hk'.
Qed.

Lemma flat_map_insert_once (p : T) (label : Z) (f : Z -> list T) : forall keys,
    NoDup keys -> In label keys ->
    Permutation (flat_map (fun k => if label =? k then p :: f k else f k) keys)
                (p :: flat_map f keys).
Proof.
  induction keys as [|k keys IH]; intros Hnd Hin; [destruct Hin|].
  inversion Hnd as [|? ? Hnin Hnd']; subst. simpl.
  destruct (label =? k) eqn:Hk.
  - apply Z.eqb_eq in Hk. subst k. simpl. apply perm_skip. apply Permutation_app_head.
    assert (Heq : flat_map (fun k => if label =? k then p :: f k else f k) keys
                  = flat_map f keys).
    { apply flat_map_ext_on. intros k Hkin. destruct (label =? k) eqn:Hlk; [|reflexivity].
      apply Z.eqb_eq in Hlk. subst. contradiction. }
    rewrite Heq. apply Permutation_refl.
  - apply Z.eqb_neq in Hk. destruct Hin as [Hin|Hin]; [congruence|].
    eapply Permutation_trans; [apply Permutation_app_head; apply IH; assumption|].
    apply Permutation_sym. apply Permutation_middle.
Qed.

Lemma members_partition : forall (items : list T) labels keys,
    length items = length labels ->
    NoDup keys ->
    ~ In (-1) keys ->
    (forall l, In l labels -> l <> -1 -> In l keys) ->
    Permutation (flat_map (fun k => members_of k items labels) keys)
                (clustered_items items labels).
Proof.
  induction items as [|item items IH]; intros [|l labels] keys Hlen Hnd Hnoise Hall;
    try discriminate Hlen.
  - unfold clustered_items, members_of. simpl.
    induction keys; simpl; [apply Permutation_refl|].
    apply IHkeys; [inversion Hnd; assumption | simpl in Hnoise; tauto | intros ? []].
  - simpl in Hlen. injection Hlen as Hlen.
    assert (IH' : Permutation (flat_map (fun k => members_of k items labels) keys)
                              (clustered_items items labels)).
    { apply IH; auto. intros l' Hl'. apply Hall. right. exact Hl'. }
    assert (Hstep : flat_map (fun k => members_of k (item :: items) (l :: labels)) keys
                    = flat_map (fun k => if l =? k then item :: members_of k items labels
                                         else members_of k items labels) keys).
    { apply flat_map_ext. intros k. apply members_of_cons. }
    rewrite Hstep. unfold clustered_items. simpl.
    destruct (l =? -1) eqn:Hl; simpl.
    + apply Z.eqb_eq in Hl. subst l.
      assert (Heq : flat_map (fun k => if -1 =? k then item :: members_of k items labels
                                       else members_of k items labels) keys
                    = flat_map (fun k => members_of k items labels) keys).
      { apply flat_map_ext_on. intros k Hk. destruct (-1 =? k) eqn:Hlk; [|reflexivity].
        apply Z.eqb_eq in Hlk. subst. contradiction. }
      rewrite Heq. exact IH'.
    + apply Z.eqb_neq in Hl.
      eapply Permutation_trans.
      * apply flat_map_insert_once; [exact Hnd|]. apply Hall; [left; reflexivity | exact Hl].
      * apply perm_skip. exact IH'.
Qed.

(** X6.  [groupByCluster] partitions the clustered items: taken together, the
    members of its entries are the items whose label is not [-1], each of
    them once. *)
Theorem groupByCluster_partitions_clustered_items (items : list T) (labels : list Z) :
  length items = length labels ->
  Permutation (flat_map snd (groupByCluster items labels)) (clustered_items items labels).
Proof.
  intros Hlen. rewrite groupByCluster_characterised by exact Hlen.
  rewrite flat_map_concat_map, map_map, <- flat_map_concat_map. simpl.
  apply members_partition.
  - exact Hlen.
  - apply first_labels_NoDup.
  - intros H. apply first_labels_spec in H. tauto.
  - intros l Hl Hne. apply first_labels_spec. simpl. tauto.
Qed.

End GroupByClusterPartition.

Lemma groupByCluster_partitions_clustered_items_witness :
  Permutation (flat_map snd (groupByCluster [10; 20; 30; 40] [1; 0; -1; 1]%Z))
              (clustered_items [10; 20; 30; 40] [1; 0; -1; 1]%Z).
Proof.
  apply (groupByCluster_partitions_clustered_items nat). reflexivity.
Defined.

(** ** Further properties of the relationship resolution operation *)

Section OperationFrame.

Local Open Scope Z_scope.
Local Open Scope string_scope.

(** Name resolution reads the catalog only. *)
Lemma findSubjectIdsByName_reads_subjects db rows subject1Name subject2Name :
  findSubjectIdsByName (with_relationships db rows) subject1Name subject2Name
  = findSubjectIdsByName db subject1Name subject2Name.
Proof. reflexivity. Qed.

Lemma resolved_separately_swap db subject1Name subject2Name subject1Id subject2Id :
  findSubjectIdsByName db subject1Name subject2Name = Ok (subject1Id, subject2Id) ->
  findSubjectIdsByName db subject2Name subject1Name = Ok (subject2Id, subject1Id).
Proof.
  rewrite !findSubjectIdsByName_separately. unfold resolved_separately.
  destruct (findSubjectIdByName db subject1Name) as [id1|];
    destruct (findSubjectIdByName db subject2Name) as [id2|]; intros H;
    inversion H; subst; reflexivity.
Qed.

Lemma upsert_other_pair f s summary timestamp f' s' : forall rows,
    (f', s') <> (f, s) ->
    filter (same_pair f' s') (upsert rows f s summary timestamp)
    = filter (same_pair f' s') rows.
Proof.
  intros rows Hne. induction rows as [|row rows IH]; simpl.
  - destruct (same_pair f' s' _) eqn:H; [|reflexivity].
    apply same_pair_key in H. unfold row_key in H. simpl in H. congruence.
  - destruct (same_pair f s row) eqn:Hrow; simpl.
    + apply same_pair_key in Hrow. unfold row_key in Hrow.
      assert (Hold : same_pair f' s' row = false).
      { destruct (same_pair f' s' row) eqn:H; [|reflexivity].
        apply same_pair_key in H. unfold row_key in H. congruence. }
      rewrite Hold. unfold same_pair in *. simpl. rewrite Hold. reflexivity.
    + rewrite IH. reflexivity.
Qed.

Lemma upsert_embeddings f s summary timestamp : forall rows,
    firstn (length rows)
           (map Relationship.relationship_embedding (upsert rows f s summary timestamp))
    = map Relationship.relationship_embedding rows.
Proof.
  induction rows as [|row rows IH]; simpl; [reflexivity|].
  destruct (same_pair f s row); simpl.
  - rewrite <- length_map with (f := Relationship.relationship_embedding).
    rewrite firstn_all. reflexivity.
  - rewrite IH. reflexivity.
Qed.

(** X7.  What a run can and cannot change.  Whatever the names and the
    summarizer, the operation leaves every table but
    [subject_relationships] as it was; a run that fails leaves the whole
    database as it was; and a run reaches the summarizer at most once. *)
Theorem getOrCreate_frame config world subject1Name subject2Name :
  let run := getOrCreateSubjectRelationship config world subject1Name subject2Name in
  evidence_tables (wafer_db (snd run)) = evidence_tables (wafer_db world)
  /\ (forall error, fst run = Throw error -> wafer_db (snd run) = wafer_db world)
  /\ exists calls,
      gemini_calls (snd run) = (gemini_calls world ++ calls)%list
      /\ (length calls <= 1)%nat.
Proof.
  intros run. unfold run, getOrCreateSubjectRelationship.
  assert (Hnil : exists calls : list GeminiCall,
             gemini_calls world = (gemini_calls world ++ calls)%list
             /\ (length calls <= 1)%nat).
  { exists []. rewrite app_nil_r. split; [reflexivity | simpl; lia]. }
  destruct (findSubjectIdsByName (wafer_db world) subject1Name subject2Name)
    as [[subject1Id subject2Id]|e]; simpl.
  2:{ split; [reflexivity|]. split; [reflexivity | exact Hnil]. }
  destruct (ordered_pair subject1Id subject2Id) as [firstId secondId].
  destruct (existing_summary _) as [summary|]; simpl.
  { split; [reflexivity|]. split; [reflexivity | exact Hnil]. }
  destruct (generateRelationshipSummary config (wafer_db world) firstId secondId
                                        subject1Name subject2Name)
    as [generated calls] eqn:Hgen.
  assert (Hcalls : (length calls <= 1)%nat).
  { unfold generateRelationshipSummary in Hgen.
    destruct (dbscanClusterSubjectEmbeddings _ _ _ _) as [[|cluster clusters]|e].
    - inversion Hgen. simpl. lia.
    - unfold callGeminiForRelationshipSummary in Hgen.
      destruct (generateContent config _ _) as [[text|]|err]; inversion Hgen; simpl; lia.
    - inversion Hgen. simpl. lia. }
  destruct generated as [relationshipSummary|e]; simpl.
  - unfold updateSubjectRelationship.
    destruct (check_constraint firstId secondId); simpl.
    + split; [reflexivity|]. split; [intros error H; discriminate H|].
      exists calls. split; [reflexivity | exact Hcalls].
    + split; [reflexivity|]. split; [reflexivity|].
      exists calls. split; [reflexivity | exact Hcalls].
  - split; [reflexivity|]. split; [reflexivity|].
    exists calls. split; [reflexivity | exact Hcalls].
Qed.

(** X8.  A run touches the row of the resolved pair only: the rows stored for
    any other pair of ids are the same before and after, no row is removed,
    and no stored [relationship_embedding] is changed. *)
Theorem getOrCreate_touches_one_pair config world subject1Name subject2Name
        subject1Id subject2Id :
  let db := wafer_db world in
  let run := getOrCreateSubjectRelationship config world subject1Name subject2Name in
  findSubjectIdsByName db subject1Name subject2Name = Ok (subject1Id, subject2Id) ->
  (forall firstId secondId,
      (firstId, secondId) <> (Z.min subject1Id subject2Id, Z.max subject1Id subject2Id) ->
      selectRelationship (wafer_db (snd run)) firstId secondId
      = selectRelationship db firstId secondId)
  /\ firstn (length (subject_relationships db))
            (map Relationship.relationship_embedding
                 (subject_relationships (wafer_db (snd run))))
     = map Relationship.relationship_embedding (subject_relationships db).
Proof.
  intros db run Hids. unfold run, getOrCreateSubjectRelationship. fold db.
  rewrite Hids, ordered_pair_min_max.
  set (lo := Z.min subject1Id subject2Id). set (hi := Z.max subject1Id subject2Id).
  assert (Hsame : firstn (length (subject_relationships db))
                         (map Relationship.relationship_embedding (subject_relationships db))
                  = map Relationship.relationship_embedding (subject_relationships db)).
  { rewrite <- length_map with (f := Relationship.relationship_embedding).
    apply firstn_all. }
  destruct (existing_summary _) as [summary|]; simpl.
  { split; [reflexivity | exact Hsame]. }
  destruct (generateRelationshipSummary config db lo hi subject1Name subject2Name)
    as [[relationshipSummary|e] calls]; simpl.
  2:{ split; [reflexivity | exact Hsame]. }
  unfold updateSubjectRelationship.
  destruct (check_constraint lo hi); simpl.
  - split.
    + intros firstId secondId Hne. unfold selectRelationship. simpl.
      apply upsert_other_pair. exact Hne.
    + apply upsert_embeddings.
  - split; [reflexivity | exact Hsame].
Qed.

Lemma getOrCreate_touches_one_pair_witness :
  (forall firstId secondId,
      (firstId, secondId) <> (Z.min 2 3, Z.max 2 3) ->
      selectRelationship
        (wafer_db (snd (getOrCreateSubjectRelationship quiet_config (fresh strangers_db)
                                                       "Alice" "Bob"))) firstId secondId
      = selectRelationship strangers_db firstId secondId)
  /\ firstn (length (subject_relationships strangers_db))
            (map Relationship.relationship_embedding
                 (subject_relationships
                    (wafer_db (snd (getOrCreateSubjectRelationship
                                      quiet_config (fresh strangers_db) "Alice" "Bob")))))
     = map Relationship.relationship_embedding (subject_relationships strangers_db).
Proof.
  apply (getOrCreate_touches_one_pair quiet_config (fresh strangers_db) "Alice" "Bob" 2 3).
  vm_compute. reflexivity.
Defined.

(** X9.  A name that resolves to nothing ends the run before anything else
    happens: the tool reports 'No matching subject found' for the first of
    the two names that has no match, and the world is as it was (no lookup
    in the cache, no call of the summarizer, no write). *)
Theorem execute_reports_the_first_unresolved_name config world params :
  let subject1Name := trim (subject_1 params) in
  let subject2Name := trim (subject_2 params) in
  validateToolParams params = None ->
  (findSubjectIdByName (wafer_db world) subject1Name = None
   -> execute config world params
      = (failure_result (no_matching_subject subject1Name), world))
  /\ (findSubjectIdByName (wafer_db world) subject1Name <> None
      -> findSubjectIdByName (wafer_db world) subject2Name = None
      -> execute config world params
         = (failure_result (no_matching_subject subject2Name), world)).
Proof.
  intros subject1Name subject2Name Hvalid.
  unfold execute, getOrCreateSubjectRelationship. rewrite Hvalid.
  fold subject1Name subject2Name.
  rewrite findSubjectIdsByName_separately. unfold resolved_separately. split.
  - intros H1. rewrite H1. reflexivity.
  - intros H1 H2. destruct (findSubjectIdByName (wafer_db world) subject1Name);
      [|congruence].
    rewrite H2. reflexivity.
Qed.

Lemma execute_reports_the_first_unresolved_name_witness :
  execute quiet_config (fresh strangers_db) {| subject_1 := " Carol "; subject_2 := "Bob" |}
  = (failure_result (no_matching_subject "Carol"), fresh strangers_db).
Proof.
  pose proof (execute_reports_the_first_unresolved_name
                quiet_config (fresh strangers_db)
                {| subject_1 := " Carol "; subject_2 := "Bob" |}) as H.
  cbv zeta in H. destruct H as [H _]; [vm_compute; reflexivity|].
  apply H. vm_compute. reflexivity.
Defined.

Lemma callGemini_truthy config prompt summary calls :
  callGeminiForRelationshipSummary config prompt = (Ok summary, calls) ->
  truthy summary = true.
Proof.
  unfold callGeminiForRelationshipSummary.
  destruct (generateContent config prompt 30000) as [[text|]|err]; intros H;
    inversion H; subst; clear H.
  - destruct (truthy text) eqn:Ht; [exact Ht | reflexivity].
  - reflexivity.
Qed.

(** X10.  Once the summarizer has produced a summary and the run has succeeded,
    the summary is served from the cache: a further run for the same two
    names, in either order and with any summarizer and clock, returns the
    same summary and changes nothing. *)
Theorem generated_summary_is_served_from_the_cache
        config config' world world' subject1Name subject2Name summary :
  getOrCreateSubjectRelationship config world subject1Name subject2Name
  = (Ok summary, world') ->
  gemini_calls world' <> gemini_calls world ->
  getOrCreateSubjectRelationship config' world' subject1Name subject2Name
  = (Ok summary, world')
  /\ getOrCreateSubjectRelationship config' world' subject2Name subject1Name
     = (Ok summary, world').
Proof.
  intros Hrun Hcalled.
  unfold getOrCreateSubjectRelationship in Hrun.
  destruct (findSubjectIdsByName (wafer_db world) subject1Name subject2Name)
    as [[subject1Id subject2Id]|e] eqn:Hids; [|discriminate Hrun].
  destruct (ordered_pair subject1Id subject2Id) as [firstId secondId] eqn:Hpair.
  destruct (existing_summary _) as [cached|].
  { inversion Hrun; subst. congruence. }
  unfold generateRelationshipSummary in Hrun.
  destruct (dbscanClusterSubjectEmbeddings _ _ _ _) as [[|cluster clusters]|e].
  - destruct (updateSubjectRelationship _ _ _ _ _); inversion Hrun; subst.
    simpl in Hcalled. rewrite app_nil_r in Hcalled. congruence.
  - destruct (callGeminiForRelationshipSummary config _) as [[text|e] calls] eqn:Hcall;
      [|discriminate Hrun].
    apply callGemini_truthy in Hcall.
    unfold updateSubjectRelationship in Hrun.
    destruct (check_constraint firstId secondId); [|discriminate Hrun].
    unfold summary_or_default in Hrun. rewrite Hcall in Hrun.
    inversion Hrun; subst summary world'; clear Hrun.
    assert (Hhit : existing_summary
                     (get (selectRelationship
                             (with_relationships (wafer_db world)
                                (upsert (subject_relationships (wafer_db world))
                                        firstId secondId (Some text) (now config)))
                             firstId secondId)) = Some text).
    { pose proof (select_after_upsert firstId secondId (Some text) (now config)
                                      (subject_relationships (wafer_db world))) as Hsel.
      unfold selectRelationship. simpl.
      destruct (get (filter (same_pair firstId secondId) _)) as [row|]; simpl in *;
        [|discriminate Hsel].
      inversion Hsel as [Hrow]. rewrite Hrow, Hcall. reflexivity. }
    split.
    + unfold getOrCreateSubjectRelationship. simpl wafer_db.
      rewrite findSubjectIdsByName_reads_subjects, Hids, Hpair, Hhit. reflexivity.
    + unfold getOrCreateSubjectRelationship. simpl wafer_db.
      rewrite findSubjectIdsByName_reads_subjects.
      rewrite (resolved_separately_swap _ _ _ _ _ Hids).
      rewrite ordered_pair_sym, Hpair, Hhit. reflexivity.
  - discriminate Hrun.
Qed.

Lemma sam_first_run :
  { outcome | getOrCreateSubjectRelationship quiet_config (fresh sam_db) "Sam Hall" "Bob"
              = (Ok (fst outcome), snd outcome) }.
Proof.
  eexists (_, _). vm_compute. reflexivity.
Defined.

Lemma generated_summary_is_served_from_the_cache_witness :
  getOrCreateSubjectRelationship timing_out_config (snd (proj1_sig sam_first_run))
                                 "Sam Hall" "Bob"
  = (Ok (fst (proj1_sig sam_first_run)), snd (proj1_sig sam_first_run))
  /\ getOrCreateSubjectRelationship timing_out_config (snd (proj1_sig sam_first_run))
                                    "Bob" "Sam Hall"
     = (Ok (fst (proj1_sig sam_first_run)), snd (proj1_sig sam_first_run)).
Proof.
  apply (generated_summary_is_served_from_the_cache
           quiet_config timing_out_config (fresh sam_db)
           (snd (proj1_sig sam_first_run)) "Sam Hall" "Bob"
           (fst (proj1_sig sam_first_run))).
  - exact (proj2_sig sam_first_run).
  - vm_compute. intros H. discriminate H.
Defined.

(** X11.  The evidence of a pair that involves the main user (subject id 1).  The
    ids are ordered before [generateRelationshipSummary] is called and the
    names are not, so with positive ids the main user is always [firstId] and
    the evidence is looked up under the second name as given, whichever of
    the two names is the main user's; without the main user it is looked up
    under both names. *)
Theorem evidence_names_follow_the_ordered_ids
        (subject1Id subject2Id : Z) (subject1Name subject2Name : string) :
  1 <= subject1Id -> 1 <= subject2Id ->
  let firstId := fst (ordered_pair subject1Id subject2Id) in
  let secondId := snd (ordered_pair subject1Id subject2Id) in
  summary_subjects firstId secondId subject1Name subject2Name
  = if ((subject1Id =? 1) || (subject2Id =? 1))%Z
    then [subject2Name]
    else [subject1Name; subject2Name].
Proof.
  intros H1 H2. rewrite ordered_pair_min_max. simpl. unfold summary_subjects.
  destruct (subject1Id =? 1)%Z eqn:E1; destruct (subject2Id =? 1)%Z eqn:E2; simpl;
    rewrite ?Z.eqb_eq, ?Z.eqb_neq in *.
  - subst. reflexivity.
  - subst. rewrite Z.min_l by lia. reflexivity.
  - subst. rewrite Z.min_r by lia. reflexivity.
  - assert (Hmin : (Z.min subject1Id subject2Id =? 1)%Z = false) by (apply Z.eqb_neq; lia).
    assert (Hmax : (Z.max subject1Id subject2Id =? 1)%Z = false) by (apply Z.eqb_neq; lia).
    rewrite Hmin, Hmax. reflexivity.
Qed.

Lemma evidence_names_follow_the_ordered_ids_witness :
  summary_subjects (fst (ordered_pair 7 1)) (snd (ordered_pair 7 1)) "Bob" "Sam Hall"
  = ["Sam Hall"].
Proof.
  apply (evidence_names_follow_the_ordered_ids 7 1 "Bob" "Sam Hall"); lia.
Defined.

End OperationFrame.

(** ** Further properties of the shared-evidence retrieval *)

Section EvidenceQuery.

Local Open Scope Z_scope.

Lemma getNeighbors_from_Ok_lengths point pointIdx eps : forall rest offset neighbors,
    getNeighbors_from point pointIdx eps rest offset = Ok neighbors ->
    forall k e, nth_error rest k = Some e -> (offset + k)%nat <> pointIdx ->
                length e = length point.
Proof.
  induction rest as [|e0 rest IH]; intros offset neighbors H k e Hk Hne.
  - destruct k; discriminate Hk.
  - simpl in H. destruct (offset =? pointIdx)%nat eqn:Hoff.
    + apply Nat.eqb_eq in Hoff. destruct k as [|k]; [lia|].
      simpl in Hk. apply (IH (S offset) neighbors H k e Hk). lia.
    + apply bind_Ok_inv in H. destruct H as [d [Hd H]].
      apply bind_Ok_inv in H. destruct H as [ns [Hns _]].
      destruct k as [|k]; simpl in Hk.
      * inversion Hk; subst e0. unfold euclideanDistance in Hd.
        destruct (length point =? length e)%nat eqn:Hlen; [|discriminate Hd].
        apply Nat.eqb_eq in Hlen. symmetry. exact Hlen.
      * apply (IH (S offset) ns Hns k e Hk). lia.
Qed.

(** Finding the neighbours of the first point compares it with every other
    one. *)
Lemma first_neighbours_check_lengths first rest eps neighbors :
  getNeighbors (first :: rest) 0 eps = Ok neighbors ->
  uniform (first :: rest).
Proof.
  intros Hn. unfold getNeighbors in Hn. simpl nth_error in Hn.
  assert (Hall : forall e, In e (first :: rest) -> length e = length first).
  { intros e He. apply In_nth_error in He. destruct He as [k Hk].
    destruct k as [|k]; [simpl in Hk; inversion Hk; reflexivity|].
    apply (getNeighbors_from_Ok_lengths _ _ _ _ _ _ Hn (S k) e Hk). simpl. lia. }
  intros a b Ha Hb. rewrite (Hall a Ha), (Hall b Hb). reflexivity.
Qed.

(** X12.  [dbscanClustering] returns labels only for embeddings of one common
    length: the first point is compared with every other one before anything
    else happens, so embeddings of mixed lengths always end in the error of
    [euclideanDistance]. *)
Theorem dbscanClustering_returns_only_on_one_length embeddings eps minPoints labels :
  dbscanClustering embeddings eps minPoints = Ok labels ->
  uniform embeddings.
Proof.
  intros H. destruct embeddings as [|first rest].
  - intros a b [].
  - unfold dbscanClustering in H. simpl in H.
    apply bind_Ok_inv in H. destruct H as [neighbors [Hn _]].
    apply (first_neighbours_check_lengths first rest eps neighbors Hn).
Qed.

Lemma dbscanClustering_returns_only_on_one_length_witness :
  uniform example_points.
Proof.
  apply (dbscanClustering_returns_only_on_one_length
           example_points 1.5%float 1%float [0; 0; -1]).
  vm_compute. reflexivity.
Defined.

Lemma joinedRows_In db row :
  In row (joinedRows db) ->
  In (row_source row) (sources db)
  /\ In (row_group row) (source_groups db)
  /\ In (row_subject row) (subjects db)
  /\ Source.group_id (row_source row) = SourceGroup.id (row_group row)
  /\ exists ss, In ss (source_subjects db)
                /\ SourceSubject.source_id ss = Source.id (row_source row)
                /\ SourceSubject.subject_id ss = Subject.id (row_subject row).
Proof.
  unfold joinedRows. intros H.
  apply in_flat_map in H. destruct H as [s [Hs H]].
  apply in_flat_map in H. destruct H as [g [Hg H]].
  destruct (Source.group_id s =? SourceGroup.id g) eqn:Hsg; [|destruct H].
  apply in_flat_map in H. destruct H as [ss [Hss H]].
  destruct (Source.id s =? SourceSubject.source_id ss) eqn:Hid; [|destruct H].
  apply in_flat_map in H. destruct H as [sub [Hsub H]].
  destruct (SourceSubject.subject_id ss =? Subject.id sub) eqn:Hsubid; [|destruct H].
  apply in_map_iff in H. destruct H as [m [Hrow _]]. subst row. simpl.
  apply Z.eqb_eq in Hsg. apply Z.eqb_eq in Hid. apply Z.eqb_eq in Hsubid.
  repeat split; auto. exists ss. auto.
Qed.

Lemma sourceGroupQuery_In db lowered wantCount row :
  In row (sourceGroupQuery db lowered wantCount) ->
  In row (filter (where_clause lowered) (joinedRows db))
  /\ count_distinct_subjects
       (filter (fun r => Source.id (row_source r) =? Source.id (row_source row))
               (filter (where_clause lowered) (joinedRows db)))
     = wantCount.
Proof.
  unfold sourceGroupQuery. intros H. apply in_flat_map in H. destruct H as [key [_ H]].
  remember (filter (fun r => Source.id (row_source r) =? key)
                   (filter (where_clause lowered) (joinedRows db))) as grouped eqn:Hgrouped.
  destruct (count_distinct_subjects grouped =? wantCount)%nat eqn:Hcount; [|destruct H].
  assert (Hin : In row grouped).
  { destruct grouped as [|r rest]; simpl in H; [destruct H|].
    destruct H as [<-|[]]. left. reflexivity. }
  pose proof Hin as Hin'. rewrite Hgrouped in Hin'. apply filter_In in Hin'.
  destruct Hin' as [Hrows Hkey]. apply Z.eqb_eq in Hkey. split; [exact Hrows|].
  rewrite Hkey, <- Hgrouped. apply Nat.eqb_eq. exact Hcount.
Qed.

(** Rows that pass [WHERE] and count as many distinct names as were asked
    for name every one of them. *)
Lemma grouped_rows_name_every_subject lowered rows wanted :
  (forall r, In r rows -> where_clause lowered r = true) ->
  count_distinct_subjects rows = length lowered ->
  In wanted lowered ->
  exists r, In r rows /\ LOWER (Subject.subject (row_subject r)) = wanted.
Proof.
  intros Hwhere Hcount Hwanted. unfold count_distinct_subjects in Hcount.
  assert (Hincl : incl lowered
                       (nodup string_dec
                              (map (fun row => LOWER (Subject.subject (row_subject row))) rows))).
  { apply NoDup_length_incl; [apply NoDup_nodup | lia |].
    intros x Hx. apply nodup_In in Hx. apply in_map_iff in Hx.
    destruct Hx as [r [Hx Hr]]. specialize (Hwhere r Hr).
    unfold where_clause in Hwhere. apply andb_true_iff in Hwhere.
    destruct Hwhere as [Hex _]. apply existsb_exists in Hex.
    destruct Hex as [y [Hy Heq]]. apply String.eqb_eq in Heq. subst. exact Hy. }
  apply Hincl in Hwanted. apply nodup_In in Hwanted. apply in_map_iff in Hwanted.
  destruct Hwanted as [r [Hr Hin]]. exists r. auto.
Qed.

Lemma sourceGroupQuery_row_mentions db subjects row name :
  In row (sourceGroupQuery db (map toLowerCase subjects) (length subjects)) ->
  In name subjects ->
  mentions db (Source.id (row_source row)) name.
Proof.
  intros Hrow Hname. apply sourceGroupQuery_In in Hrow. destruct Hrow as [_ Hcount].
  destruct (grouped_rows_name_every_subject
              (map toLowerCase subjects)
              (filter (fun r => Source.id (row_source r) =? Source.id (row_source row))
                      (filter (where_clause (map toLowerCase subjects)) (joinedRows db)))
              (toLowerCase name)) as [r [Hr Hlow]].
  - intros r Hr. apply filter_In in Hr. destruct Hr as [Hr _].
    apply filter_In in Hr. tauto.
  - rewrite Hcount, length_map. reflexivity.
  - apply in_map. exact Hname.
  - apply filter_In in Hr. destruct Hr as [Hr Hkey]. apply Z.eqb_eq in Hkey.
    apply filter_In in Hr. destruct Hr as [Hr _]. apply joinedRows_In in Hr.
    destruct Hr as [_ [_ [Hsub [_ [ss [Hss [Hsid Hsubid]]]]]]].
    exists ss, (row_subject r). repeat split; auto. congruence.
Qed.

Lemma collectSourceGroups_In : forall rows items item,
    collectSourceGroups rows = Ok items ->
    In item items ->
    exists row v,
      In row rows
      /\ SourceGroup.vector (row_group row) = Some (JsonNumbers v)
      /\ item = {| group := toJoinedSourceGroup row (JsonNumbers v); item_vector := v |}.
Proof.
  induction rows as [|row rows IH]; intros items item H Hin; simpl in H.
  - inversion H; subst. destruct Hin.
  - destruct (SourceGroup.vector (row_group row)) as [[|v|msg]|] eqn:Hv.
    + destruct (IH items item H Hin) as [row' [v' [H1 H2]]].
      exists row', v'. split; [right; exact H1 | exact H2].
    + apply bind_Ok_inv in H. destruct H as [items' [Hitems H]]. inversion H; subst.
      destruct Hin as [<-|Hin].
      * exists row, v. split; [left; reflexivity|]. split; [exact Hv | reflexivity].
      * destruct (IH items' item Hitems Hin) as [row' [v' [H1 H2]]].
        exists row', v'. split; [right; exact H1 | exact H2].
    + discriminate H.
    + destruct (IH items item H Hin) as [row' [v' [H1 H2]]].
      exists row', v'. split; [right; exact H1 | exact H2].
Qed.


(** X13.  What is handed to the clusterer is shared evidence: every item stands
    for a source of the database, carries the embedding stored for that
    source's group, and its source is linked to a subject of each of the
    requested names (up to ASCII case). *)
Theorem clusterer_items_are_shared_evidence db subjects items item :
  clustererInput db subjects = Ok items ->
  In item items ->
  evidence_of db item
  /\ forall name, In name subjects -> mentions db (item_source_id item) name.
Proof.
  intros H Hin. unfold clustererInput in H.
  destruct (collectSourceGroups_In _ _ _ H Hin) as [row [v [Hrow [Hv Hitem]]]].
  subst item. unfold item_source_id. simpl. split.
  - pose proof Hrow as Hjoined. apply sourceGroupQuery_In in Hjoined.
    destruct Hjoined as [Hjoined _]. apply filter_In in Hjoined.
    destruct Hjoined as [Hjoined _]. apply joinedRows_In in Hjoined.
    destruct Hjoined as [Hs [Hg [_ [Hsg _]]]].
    unfold evidence_of. simpl. split; [exact Hs|].
    exists (row_group row). auto.
  - intros name Hname. apply (sourceGroupQuery_row_mentions db subjects row name Hrow Hname).
Qed.

Lemma sam_items :
  { items | clustererInput sam_db ["Sam Hall"%string; "Bob"%string] = Ok items }.
Proof.
  eexists. vm_compute. reflexivity.
Defined.

Lemma clusterer_items_are_shared_evidence_witness :
  Forall (fun item =>
            evidence_of sam_db item
            /\ forall name, In name ["Sam Hall"%string; "Bob"%string] ->
                            mentions sam_db (item_source_id item) name)
         (proj1_sig sam_items).
Proof.
  apply Forall_forall. intros item Hin.
  exact (clusterer_items_are_shared_evidence
           sam_db ["Sam Hall"%string; "Bob"%string] (proj1_sig sam_items) item
           (proj2_sig sam_items) Hin).
Defined.

Lemma lower_latin1_ascii c :
  (nat_of_ascii c <? 128)%nat = true -> lower_latin1 c = lower_char c.
Proof.
  intros H. unfold lower_latin1. apply Nat.ltb_lt in H.
  assert (Hge : (128 <=? nat_of_ascii c)%nat = false) by (apply Nat.leb_gt; exact H).
  rewrite Hge. reflexivity.
Qed.

(** On ASCII text [toLowerCase] is SQLite's [LOWER]. *)
Lemma toLowerCase_ascii : forall s after_C3,
    ascii_only s = true -> toLowerCase_from after_C3 s = LOWER s.
Proof.
  induction s as [|c s IH]; intros after_C3 H; simpl; [reflexivity|].
  simpl in H. apply andb_true_iff in H. destruct H as [Hc Hs].
  rewrite (IH _ Hs). destruct after_C3; [rewrite (lower_latin1_ascii c Hc)|]; reflexivity.
Qed.

Lemma no_exact_match_no_rows db subjects name :
  In name subjects ->
  ascii_only name = true ->
  exactQuery db name = [] ->
  sourceGroupQuery db (map toLowerCase subjects) (length subjects) = [].
Proof.
  intros Hname Hascii Hmiss.
  destruct (sourceGroupQuery db (map toLowerCase subjects) (length subjects))
    as [|row rows] eqn:Hq; [reflexivity|].
  exfalso.
  assert (Hrow : In row (sourceGroupQuery db (map toLowerCase subjects) (length subjects)))
    by (rewrite Hq; left; reflexivity).
  destruct (sourceGroupQuery_row_mentions db _ row name Hrow Hname)
    as [ss [sub [_ [Hsub [_ [_ Hlow]]]]]].
  assert (Hexact : In sub (exactQuery db name)).
  { unfold exactQuery. apply filter_In. split; [exact Hsub|].
    unfold nocase_eqb. apply String.eqb_eq. rewrite Hlow.
    apply toLowerCase_ascii. exact Hascii. }
  rewrite Hmiss in Hexact. destruct Hexact.
Qed.

(** X14.  The evidence is looked up under the names as they were typed, not
    under the names they resolved to: an ASCII name that is not the name of
    a catalog subject (up to ASCII case) has no evidence, and the clustering
    returns no cluster.  (Outside ASCII the two lookups fold case
    differently: see [folded_name_finds_evidence].) *)
Theorem unmatched_name_finds_no_evidence db subjects name eps minPoints :
  In name subjects ->
  ascii_only name = true ->
  exactQuery db name = [] ->
  dbscanClusterSubjectEmbeddings db subjects eps minPoints = Ok [].
Proof.
  intros Hname Hascii Hmiss. unfold dbscanClusterSubjectEmbeddings.
  destruct subjects as [|subject subjects]; [reflexivity|].
  rewrite (no_exact_match_no_rows db (subject :: subjects) name Hname Hascii Hmiss).
  reflexivity.
Qed.

(** Where the hypothesis on the name is needed: [EMILE] matches no subject
    of the catalog that holds [emile], exactly or through [LIKE], since
    SQLite folds ASCII only; yet [toLowerCase] turns it into [emile], under
    which the evidence query finds the note. *)
Lemma folded_name_finds_evidence :
  exactQuery emile_db EMILE = []
  /\ findSubjectIdByName emile_db EMILE = None
  /\ toLowerCase EMILE = emile
  /\ map (fun row => Source.id (row_source row))
         (sourceGroupQuery emile_db (map toLowerCase [EMILE]) 1) = [1%Z].
Proof.
  repeat split; vm_compute; reflexivity.
Qed.

Lemma unmatched_name_finds_no_evidence_witness :
  dbscanClusterSubjectEmbeddings sam_db ["Sam Hall"%string; "Bo"%string]
                                 default_eps default_minPoints = Ok [].
Proof.
  apply (unmatched_name_finds_no_evidence sam_db ["Sam Hall"%string; "Bo"%string] "Bo"%string).
  - right. left. reflexivity.
  - reflexivity.
  - vm_compute. reflexivity.
Defined.



(** X16.  A name that was resolved by the fuzzy match only never gets a summary.
    When the second name as typed is ASCII text and not the name of a
    catalog subject (or the first name is such a text, and the main user is
    not involved), a run that misses the cache finds no evidence: it returns
    'No shared sources found' without calling the summarizer, and stores a
    NULL summary for the pair. *)
Theorem fuzzy_name_yields_no_shared_sources
        config world subject1Name subject2Name subject1Id subject2Id :
  let db := wafer_db world in
  let firstId := Z.min subject1Id subject2Id in
  let secondId := Z.max subject1Id subject2Id in
  findSubjectIdsByName db subject1Name subject2Name = Ok (subject1Id, subject2Id) ->
  1 <= subject1Id -> 1 <= subject2Id -> subject1Id <> subject2Id ->
  existing_summary (get (selectRelationship db firstId secondId)) = None ->
  ((ascii_only subject2Name = true /\ exactQuery db subject2Name = [])
   \/ (subject1Id <> 1 /\ subject2Id <> 1
       /\ ascii_only subject1Name = true /\ exactQuery db subject1Name = [])) ->
  getOrCreateSubjectRelationship config world subject1Name subject2Name
  = (Ok no_shared_sources,
     {| wafer_db := with_relationships
                      db (upsert (subject_relationships db) firstId secondId None (now config));
        gemini_calls := gemini_calls world |}).
Proof.
  intros db firstId secondId Hids H1 H2 Hne Hmiss Hfuzzy.
  unfold getOrCreateSubjectRelationship. fold db. rewrite Hids.
  rewrite ordered_pair_min_max. fold firstId secondId. rewrite Hmiss.
  unfold generateRelationshipSummary.
  assert (Hnone : dbscanClusterSubjectEmbeddings
                    db (summary_subjects firstId secondId subject1Name subject2Name)
                    default_eps default_minPoints = Ok []).
  { assert (Hname : exists name,
               In name (summary_subjects firstId secondId subject1Name subject2Name)
               /\ ascii_only name = true
               /\ exactQuery db name = []).
    { destruct Hfuzzy as [[Hascii Hsecond]|[Hn1 [Hn2 [Hascii Hfirst]]]].
      - exists subject2Name. split; [|split; assumption].
        unfold summary_subjects. destruct (firstId =? 1) eqn:Ef; [left; reflexivity|].
        destruct (secondId =? 1) eqn:Es; [|right; left; reflexivity].
        apply Z.eqb_eq in Es. apply Z.eqb_neq in Ef. unfold firstId, secondId in *. lia.
      - exists subject1Name. split; [|split; assumption].
        unfold summary_subjects.
        assert (Ef : (firstId =? 1) = false) by (apply Z.eqb_neq; unfold firstId; lia).
        assert (Es : (secondId =? 1) = false) by (apply Z.eqb_neq; unfold secondId; lia).
        rewrite Ef, Es. left. reflexivity. }
    destruct Hname as [name [Hin [Hascii Hnone]]]. unfold dbscanClusterSubjectEmbeddings.
    destruct (summary_subjects firstId secondId subject1Name subject2Name)
      as [|subject subjects]; [reflexivity|].
    rewrite (no_exact_match_no_rows db (subject :: subjects) name Hin Hascii Hnone).
    reflexivity. }
  rewrite Hnone.
  unfold updateSubjectRelationship, check_constraint.
  assert (H : (firstId <? secondId) = true)
    by (apply Z.ltb_lt; unfold firstId, secondId; lia).
  rewrite H. simpl. rewrite app_nil_r. reflexivity.
Qed.

Lemma fuzzy_name_yields_no_shared_sources_witness :
  getOrCreateSubjectRelationship quiet_config (fresh sam_db) "Sam Hall" "Bo"
  = (Ok no_shared_sources,
     {| wafer_db := with_relationships sam_db (upsert [] 1 2 None (now quiet_config));
        gemini_calls := [] |}).
Proof.
  apply (fuzzy_name_yields_no_shared_sources
           quiet_config (fresh sam_db) "Sam Hall"%string "Bo"%string 1 2).
  - vm_compute. reflexivity.
  - lia.
  - lia.
  - intros H. discriminate H.
  - vm_compute. reflexivity.
  - left. split; [reflexivity | vm_compute; reflexivity].
Defined.

End EvidenceQuery.

(** ** One item for each qualifying record *)

Section EvidencePerRecord.

Local Open Scope Z_scope.

Lemma left_join_mappings_nonempty db g : exists m, In m (left_join_mappings db g).
Proof.
  unfold left_join_mappings.
  destruct (filter _ (mappings db)) as [|m ms].
  - exists None. left. reflexivity.
  - exists (Some m). left. reflexivity.
Qed.

Lemma joinedRows_intro db s g ss sub m :
  In s (sources db) -> In g (source_groups db) ->
  In ss (source_subjects db) -> In sub (subjects db) ->
  Source.group_id s = SourceGroup.id g ->
  SourceSubject.source_id ss = Source.id s ->
  SourceSubject.subject_id ss = Subject.id sub ->
  In m (left_join_mappings db g) ->
  In {| row_source := s; row_group := g; row_subject := sub; row_mapping := m |}
     (joinedRows db).
Proof.
  intros Hs Hg Hss Hsub Hsg Hid Hsubid Hm. unfold joinedRows.
  apply in_flat_map. exists s. split; [exact Hs|].
  apply in_flat_map. exists g. split; [exact Hg|].
  rewrite Hsg, Z.eqb_refl.
  apply in_flat_map. exists ss. split; [exact Hss|].
  rewrite Hid, Z.eqb_refl.
  apply in_flat_map. exists sub. split; [exact Hsub|].
  rewrite Hsubid, Z.eqb_refl.
  apply in_map. exact Hm.
Qed.

Lemma NoDup_map_key (A : Type) (key : A -> Z) : forall (l : list A) x y,
    NoDup (map key l) -> In x l -> In y l -> key x = key y -> x = y.
Proof.
  induction l as [|a l IH]; intros x y Hnd Hx Hy Heq; [destruct Hx|].
  simpl in Hnd. inversion Hnd as [|? ? Hnin Hnd']; subst.
  destruct Hx as [->|Hx]; destruct Hy as [->|Hy].
  - reflexivity.
  - exfalso. apply Hnin. rewrite Heq. apply in_map. exact Hy.
  - exfalso. apply Hnin. rewrite <- Heq. apply in_map. exact Hx.
  - apply (IH x y Hnd' Hx Hy Heq).
Qed.

(** A row with the JSON text of an embedding is kept by the conversion. *)
Lemma collectSourceGroups_keeps : forall rows items row v,
    collectSourceGroups rows = Ok items ->
    In row rows ->
    SourceGroup.vector (row_group row) = Some (JsonNumbers v) ->
    In {| group := toJoinedSourceGroup row (JsonNumbers v); item_vector := v |} items.
Proof.
  induction rows as [|r rows IH]; intros items row v H Hin Hv; [destruct Hin|].
  simpl in H. destruct (SourceGroup.vector (row_group r)) as [[|w|msg]|] eqn:Hr.
  - destruct Hin as [->|Hin]; [congruence | apply (IH _ _ _ H Hin Hv)].
  - apply bind_Ok_inv in H. destruct H as [items' [Hitems H]]. inversion H; subst.
    destruct Hin as [->|Hin].
    + rewrite Hr in Hv. inversion Hv; subst. left. reflexivity.
    + right. apply (IH _ _ _ Hitems Hin Hv).
  - discriminate H.
  - destruct Hin as [->|Hin]; [congruence | apply (IH _ _ _ H Hin Hv)].
Qed.

(** The query has a row for every qualifying record, and the row is that
    of the record and its group. *)
Lemma qualifying_record_has_a_row db subjects s g v :
  ids_are_keys db ->
  NoDup (map toLowerCase subjects) ->
  subjects <> [] ->
  qualifies db subjects s g v ->
  exists row,
    In row (sourceGroupQuery db (map toLowerCase subjects) (length subjects))
    /\ row_source row = s /\ row_group row = g.
Proof.
  intros [Hsources Hgroups] Hnames Hsome [Hs [Hg [Hsg [Hv Hall]]]].
  set (lowered := map toLowerCase subjects).
  set (rows := filter (where_clause lowered) (joinedRows db)).
  set (grouped := filter (fun r => Source.id (row_source r) =? Source.id s) rows).
  (* a row of the record for each of the names *)
  assert (Hnamed : forall name, In name subjects ->
             exists r, In r grouped
                       /\ LOWER (Subject.subject (row_subject r)) = toLowerCase name).
  { intros name Hname. destruct (Hall name Hname) as [ss [sub [Hss [Hsub [Hid [Hsubid Hlow]]]]]].
    destruct (left_join_mappings_nonempty db g) as [m Hm].
    exists {| row_source := s; row_group := g; row_subject := sub; row_mapping := m |}.
    split; [|exact Hlow].
    unfold grouped, rows. apply filter_In. split; [|simpl; apply Z.eqb_refl].
    apply filter_In. split.
    - apply (joinedRows_intro db s g ss sub m); assumption.
    - unfold where_clause. simpl. rewrite Hv, andb_true_r.
      apply existsb_exists. exists (toLowerCase name). split.
      + unfold lowered. apply in_map. exact Hname.
      + rewrite Hlow. apply String.eqb_refl. }
  (* the group of the record passes HAVING *)
  assert (Hcount : count_distinct_subjects grouped = length subjects).
  { unfold count_distinct_subjects.
    rewrite <- (length_map toLowerCase subjects). fold lowered.
    apply Nat.le_antisymm.
    - apply NoDup_incl_length; [apply NoDup_nodup|].
      intros x Hx. apply nodup_In in Hx. apply in_map_iff in Hx.
      destruct Hx as [r [<- Hr]]. unfold grouped in Hr. apply filter_In in Hr.
      destruct Hr as [Hr _]. unfold rows in Hr. apply filter_In in Hr.
      destruct Hr as [_ Hwhere]. unfold where_clause in Hwhere.
      apply andb_true_iff in Hwhere. destruct Hwhere as [Hex _].
      apply existsb_exists in Hex. destruct Hex as [y [Hy Heq]].
      apply String.eqb_eq in Heq. subst. exact Hy.
    - apply NoDup_incl_length; [exact Hnames|].
      intros x Hx. unfold lowered in Hx. apply in_map_iff in Hx.
      destruct Hx as [name [<- Hname]]. destruct (Hnamed name Hname) as [r [Hr Hlow]].
      apply nodup_In. apply in_map_iff. exists r. split; assumption. }
  (* its first row is returned *)
  destruct subjects as [|name0 subjects']; [congruence|].
  destruct (Hnamed name0 (or_introl eq_refl)) as [r0 [Hr0 _]].
  destruct grouped as [|row grouped'] eqn:Hgrouped; [destruct Hr0|].
  assert (Hrow : In row grouped) by (rewrite Hgrouped; left; reflexivity).
  unfold grouped in Hrow. apply filter_In in Hrow. destruct Hrow as [Hrows Hkey].
  apply Z.eqb_eq in Hkey.
  exists row. split; [|].
  - unfold sourceGroupQuery. fold lowered. fold rows.
    apply in_flat_map. exists (Source.id s). split.
    + unfold group_keys. apply ORDER_BY_In. apply nodup_In.
      apply in_map_iff. exists row. split; assumption.
    + fold grouped. rewrite Hgrouped in *. rewrite Hcount, Nat.eqb_refl.
      left. reflexivity.
  - unfold rows in Hrows. apply filter_In in Hrows. destruct Hrows as [Hjoined _].
    apply joinedRows_In in Hjoined.
    destruct Hjoined as [Hs' [Hg' [_ [Hsg' _]]]].
    assert (Hsame : row_source row = s)
      by (apply (NoDup_map_key _ Source.id (sources db)); assumption).
    split; [exact Hsame|].
    apply (NoDup_map_key _ SourceGroup.id (source_groups db)); try assumption.
    rewrite <- Hsg', Hsame. exact Hsg.
Qed.

Lemma item_is_a_qualifying_record db subjects items item :
  clustererInput db subjects = Ok items ->
  In item items ->
  exists g,
    qualifies db subjects (source (group item)) g (item_vector item)
    /\ item_group_id item = SourceGroup.id g.
Proof.
  intros H Hin. unfold clustererInput in H.
  destruct (collectSourceGroups_In _ _ _ H Hin) as [row [v [Hrow [Hv Hitem]]]].
  subst item. unfold item_group_id. simpl.
  pose proof Hrow as Hjoined. apply sourceGroupQuery_In in Hjoined.
  destruct Hjoined as [Hjoined _]. apply filter_In in Hjoined.
  destruct Hjoined as [Hjoined _]. apply joinedRows_In in Hjoined.
  destruct Hjoined as [Hs [Hg [_ [Hsg _]]]].
  exists (row_group row). split; [|reflexivity].
  repeat split; try assumption.
  intros name Hname. apply (sourceGroupQuery_row_mentions db subjects row name Hrow Hname).
Qed.

(** C4 (amended).  The qualifying evidence is deduplicated by record
    (source) id, not by group id.  The array handed to the clusterer holds
    at most one item per source id, in strictly ascending order of source
    id; every item is a qualifying record with the embedding of its group;
    and, the ids being keys and the names distinct, every qualifying record
    has its item: a group contributes one item, with its embedding, for each
    of its qualifying records. *)
Theorem C4_items_are_unique_per_source_record db subjects items :
  clustererInput db subjects = Ok items ->
  StronglySorted Z.lt (map item_source_id items)
  /\ NoDup (map item_source_id items)
  /\ (forall item,
         In item items ->
         exists g,
           qualifies db subjects (source (group item)) g (item_vector item)
           /\ item_group_id item = SourceGroup.id g)
  /\ (ids_are_keys db ->
      NoDup (map toLowerCase subjects) ->
      subjects <> [] ->
      forall s g v,
        qualifies db subjects s g v ->
        exists item,
          In item items
          /\ source (group item) = s
          /\ item_group_id item = SourceGroup.id g
          /\ item_vector item = v).
Proof.
  intros H. split; [|split; [|split]].
  - unfold clustererInput in H.
    apply collectSourceGroups_ascending in H; [|apply sourceGroupQuery_ascending].
    tauto.
  - unfold clustererInput in H.
    apply collectSourceGroups_ascending in H; [|apply sourceGroupQuery_ascending].
    apply StronglySorted_Zlt_NoDup. tauto.
  - intros item Hin. apply (item_is_a_qualifying_record db subjects items item H Hin).
  - intros Hkeys Hnames Hsome s g v Hq.
    destruct (qualifying_record_has_a_row db subjects s g v Hkeys Hnames Hsome Hq)
      as [row [Hrow [Hsource Hgroup]]].
    destruct Hq as [_ [_ [_ [Hv _]]]].
    exists {| group := toJoinedSourceGroup row (JsonNumbers v); item_vector := v |}.
    split; [|split; [|split]].
    + unfold clustererInput in H.
      apply (collectSourceGroups_keeps _ _ _ _ H Hrow). rewrite Hgroup. exact Hv.
    + simpl. exact Hsource.
    + unfold item_group_id. simpl. rewrite Hgroup. reflexivity.
    + reflexivity.
Qed.

Lemma shared_group_items :
  { items | clustererInput shared_group_db ["Bob"%string] = Ok items }.
Proof.
  eexists. vm_compute. reflexivity.
Defined.

Lemma shared_group_keys : ids_are_keys shared_group_db.
Proof.
  split; simpl; repeat constructor; simpl; intuition discriminate.
Qed.

Lemma shared_group_qualifies s :
  In s [first_note; second_note] ->
  qualifies shared_group_db ["Bob"%string] s
            {| SourceGroup.id := 10; SourceGroup.mapping_id := 0;
               SourceGroup.vector := Some (JsonNumbers [0%float; 0%float]);
               SourceGroup.tags := "" |}
            [0%float; 0%float].
Proof.
  intros Hs. unfold qualifies.
  assert (Hsrc : In s (sources shared_group_db)) by exact Hs.
  split; [exact Hsrc|]. split; [left; reflexivity|].
  destruct Hs as [<-|[<-|[]]]; (split; [reflexivity|]); (split; [reflexivity|]);
    intros name [<-|[]]; unfold mentions.
  - exists {| SourceSubject.source_id := 1; SourceSubject.subject_id := 2;
              SourceSubject.score := 1 |},
      {| Subject.id := 2; Subject.subject := "Bob"; Subject.type := "person" |}.
    simpl. repeat split; auto.
  - exists {| SourceSubject.source_id := 2; SourceSubject.subject_id := 2;
              SourceSubject.score := 1 |},
      {| Subject.id := 2; Subject.subject := "Bob"; Subject.type := "person" |}.
    simpl. repeat split; auto.
Qed.

(** C4 (amended), on the database above: the two records of group 10 each
    have their item, with the embedding of the group. *)
Lemma C4_items_are_unique_per_source_record_witness :
  StronglySorted Z.lt (map item_source_id (proj1_sig shared_group_items))
  /\ NoDup (map item_source_id (proj1_sig shared_group_items))
  /\ forall s,
      In s [first_note; second_note] ->
      exists item,
        In item (proj1_sig shared_group_items)
        /\ source (group item) = s
        /\ item_group_id item = 10
        /\ item_vector item = [0%float; 0%float].
Proof.
  destruct (C4_items_are_unique_per_source_record
              shared_group_db ["Bob"%string] (proj1_sig shared_group_items)
              (proj2_sig shared_group_items)) as [Hsorted [Hnodup [_ Hall]]].
  split; [exact Hsorted|]. split; [exact Hnodup|].
  intros s Hs.
  apply (Hall shared_group_keys
              ltac:(repeat constructor; simpl; tauto)
              ltac:(discriminate)
              s _ _ (shared_group_qualifies s Hs)).
Defined.

End EvidencePerRecord.

(** ** find_sources_by_subject and find_similar_subjects *)

Section LimitFacts.

Variable Row : Type.

Lemma LIMIT_In (x : Row) limit rows : In x (LIMIT limit rows) -> In x rows.
Proof.
  unfold LIMIT. destruct (limit <? 0)%Z; [tauto|].
  intros H. rewrite <- (firstn_skipn (Z.to_nat limit) rows).
  apply in_or_app. left. exact H.
Qed.

Lemma LIMIT_length limit (rows : list Row) :
  (0 <= limit)%Z -> length (LIMIT limit rows) <= Z.to_nat limit.
Proof.
  intros H. unfold LIMIT. apply Z.ltb_ge in H. rewrite H. apply firstn_le_length.
Qed.

Lemma LIMIT_NoDup limit (rows : list Row) : NoDup rows -> NoDup (LIMIT limit rows).
Proof.
  intros Hnd. unfold LIMIT. destruct (limit <? 0)%Z; [exact Hnd|].
  rewrite <- (firstn_skipn (Z.to_nat limit) rows) in Hnd.
  apply NoDup_app_remove_r in Hnd. exact Hnd.
Qed.

End LimitFacts.

Section SortedLimit.

Variable Row : Type.
Variable before : Row -> Row -> Prop.

Lemma firstn_sorted_top (b : Row) : forall k rows,
    StronglySorted before rows ->
    In b rows ->
    In b (firstn k rows)
    \/ (length (firstn k rows) = k /\ Forall (fun a => before a b) (firstn k rows)).
Proof.
  induction k as [|k IH]; intros rows Hs Hin.
  - right. simpl. split; [reflexivity | constructor].
  - destruct rows as [|r rows]; [destruct Hin|].
    inversion Hs as [|? ? Hs' Hall]; subst. simpl.
    destruct Hin as [->|Hin]; [left; left; reflexivity|].
    destruct (IH rows Hs' Hin) as [H|[Hlen Hbefore]]; [left; right; exact H|].
    right. split; [rewrite Hlen; reflexivity|].
    constructor; [|exact Hbefore].
    rewrite Forall_forall in Hall. apply Hall. exact Hin.
Qed.

(** What [LIMIT] drops from a sorted result is outranked by all it keeps. *)
Lemma LIMIT_sorted_top (b : Row) limit rows :
  StronglySorted before rows ->
  In b rows ->
  In b (LIMIT limit rows)
  \/ ((0 <= limit)%Z
      /\ length (LIMIT limit rows) = Z.to_nat limit
      /\ Forall (fun a => before a b) (LIMIT limit rows)).
Proof.
  intros Hs Hin. unfold LIMIT. destruct (limit <? 0)%Z eqn:Hneg; [left; exact Hin|].
  apply Z.ltb_ge in Hneg.
  destruct (firstn_sorted_top b (Z.to_nat limit) rows Hs Hin) as [H|[H1 H2]];
    [left; exact H | right; auto].
Qed.

Lemma firstn_sorted k : forall rows,
    StronglySorted before rows -> StronglySorted before (firstn k rows).
Proof.
  induction k as [|k IH]; intros rows Hs; [constructor|].
  destruct rows as [|r rows]; [constructor|].
  inversion Hs as [|? ? Hs' Hall]; subst. simpl. constructor; [apply IH; exact Hs'|].
  rewrite Forall_forall in *. intros x Hx. apply Hall.
  rewrite <- (firstn_skipn k rows). apply in_or_app. left. exact Hx.
Qed.

Lemma LIMIT_sorted limit rows :
  StronglySorted before rows -> StronglySorted before (LIMIT limit rows).
Proof.
  intros Hs. unfold LIMIT. destruct (limit <? 0)%Z; [exact Hs | apply firstn_sorted; exact Hs].
Qed.

End SortedLimit.

Section FindSources.

Local Open Scope Z_scope.

Import FindSourcesBySubjectTool.

Lemma by_score_then_id_iff a b : by_score_then_id a b = true <-> ranks_before a b.
Proof.
  unfold by_score_then_id, ranks_before.
  rewrite orb_true_iff, andb_true_iff, Z.ltb_lt, Z.eqb_eq, Z.leb_le. tauto.
Qed.

Lemma by_score_then_id_total a b :
  by_score_then_id a b = true \/ by_score_then_id b a = true.
Proof. rewrite !by_score_then_id_iff. unfold ranks_before. lia. Qed.

Lemma by_score_then_id_trans a b c :
  by_score_then_id a b = true -> by_score_then_id b c = true ->
  by_score_then_id a c = true.
Proof. rewrite !by_score_then_id_iff. unfold ranks_before. lia. Qed.

Lemma StronglySorted_iff (Row : Type) (P Q : Row -> Row -> Prop) :
  (forall a b, P a b <-> Q a b) ->
  forall rows, StronglySorted P rows -> StronglySorted Q rows.
Proof.
  intros HPQ. induction 1 as [|r rows Hs IH Hall]; constructor; [exact IH|].
  rewrite Forall_forall in *. intros x Hx. apply HPQ. apply Hall. exact Hx.
Qed.

(** The rows of the join are the links of the database to the subject. *)
Lemma joinedRows_links db subjectId row :
  In row (joinedRows db subjectId) <-> links db subjectId row.
Proof.
  unfold joinedRows, links. split.
  - intros H.
    apply in_flat_map in H. destruct H as [s [Hs H]].
    apply in_flat_map in H. destruct H as [ss [Hss H]].
    destruct (Source.id s =? SourceSubject.source_id ss) eqn:Hid; [|destruct H].
    apply in_flat_map in H. destruct H as [sub [Hsub H]].
    destruct ((SourceSubject.subject_id ss =? Subject.id sub)
              && (Subject.id sub =? subjectId)) eqn:Hlink; [|destruct H].
    destruct H as [<-|[]]. simpl.
    apply andb_true_iff in Hlink. destruct Hlink as [H1 H2].
    apply Z.eqb_eq in Hid. apply Z.eqb_eq in H1. apply Z.eqb_eq in H2.
    repeat split; auto.
    destruct ss as [source_id subject_id score]. simpl in *. subst. exact Hss.
  - intros [Hs [Hsub [Hid Hss]]].
    apply in_flat_map. exists (SourceWithSubject.source row). split; [exact Hs|].
    apply in_flat_map. eexists. split; [exact Hss|]. simpl.
    rewrite Z.eqb_refl.
    apply in_flat_map. exists (SourceWithSubject.subject row). split; [exact Hsub|].
    rewrite Hid, !Z.eqb_refl. simpl. left. destruct row. reflexivity.
Qed.

(** X17.  What [findSourcesBySubject] returns.  A name that resolves to no
    subject, or to the subject id 0, gives no row and no error.  Otherwise
    every row pairs a source with the resolved subject and the score of a
    link between them; the rows are in descending order of score, ascending
    source id within a score; and a limit that is not negative bounds their
    number. *)
Theorem findSourcesBySubject_rows db subjectName limit :
  let rows := findSourcesBySubject db subjectName limit in
  match findSubjectIdByName db subjectName with
  | None => rows = []
  | Some subjectId =>
      Forall (links db subjectId) rows /\ (subjectId = 0 -> rows = [])
  end
  /\ StronglySorted ranks_before rows
  /\ (0 <= limit -> (length rows <= Z.to_nat limit)%nat).
Proof.
  intros rows. unfold rows, findSourcesBySubject.
  destruct (findSubjectIdByName db subjectName) as [subjectId|].
  2:{ split; [reflexivity|]. split; [constructor | simpl; lia]. }
  destruct (subjectId =? 0) eqn:Hzero.
  { split; [split; [constructor | reflexivity]|]. split; [constructor | simpl; lia]. }
  apply Z.eqb_neq in Hzero. split; [split|split].
  - apply Forall_forall. intros row Hrow. apply LIMIT_In in Hrow.
    apply ORDER_BY_In in Hrow. apply joinedRows_links. exact Hrow.
  - intros H. contradiction.
  - apply LIMIT_sorted.
    apply (StronglySorted_iff _ (fun a b => by_score_then_id a b = true));
      [apply by_score_then_id_iff|].
    apply ORDER_BY_sorted; [apply by_score_then_id_total | apply by_score_then_id_trans].
  - apply LIMIT_length.
Qed.

(** X18.  [findSourcesBySubject] returns the best-ranked links: a link of the
    resolved subject that is not returned is outranked by every row that is,
    and this only happens when the limit is reached. *)
Theorem findSourcesBySubject_keeps_the_top db subjectName limit subjectId link :
  let rows := findSourcesBySubject db subjectName limit in
  findSubjectIdByName db subjectName = Some subjectId ->
  subjectId <> 0 ->
  links db subjectId link ->
  In link rows
  \/ (0 <= limit
      /\ length rows = Z.to_nat limit
      /\ Forall (fun row => ranks_before row link) rows).
Proof.
  intros rows Hid Hnz Hlink. unfold rows, findSourcesBySubject. rewrite Hid.
  apply Z.eqb_neq in Hnz. rewrite Hnz.
  apply LIMIT_sorted_top.
  - apply (StronglySorted_iff _ (fun a b => by_score_then_id a b = true));
      [apply by_score_then_id_iff|].
    apply ORDER_BY_sorted; [apply by_score_then_id_total | apply by_score_then_id_trans].
  - apply ORDER_BY_In. apply joinedRows_links. exact Hlink.
Qed.

Lemma findSourcesBySubject_keeps_the_top_witness :
  let dropped := {| SourceWithSubject.source := note 3 "meeting";
                    SourceWithSubject.subject :=
                      {| Subject.id := 2; Subject.subject := "Bob"; Subject.type := "person" |};
                    SourceWithSubject.score := 5 |} in
  In dropped (findSourcesBySubject scored_db "bob" 2)
  \/ (0 <= 2
      /\ length (findSourcesBySubject scored_db "bob" 2) = Z.to_nat 2
      /\ Forall (fun row => ranks_before row dropped) (findSourcesBySubject scored_db "bob" 2)).
Proof.
  apply (findSourcesBySubject_keeps_the_top scored_db "bob"%string 2 2).
  - vm_compute. reflexivity.
  - intros H. discriminate H.
  - unfold links. simpl. repeat split; auto 10.
Defined.


End FindSources.


Section FindSimilar.

Import FindSimilarSubjectsTool.

Lemma by_count_desc_total rows a b :
  by_count_desc rows a b = true \/ by_count_desc rows b a = true.
Proof. unfold by_count_desc. rewrite !Nat.leb_le. lia. Qed.

Lemma by_count_desc_trans rows a b c :
  by_count_desc rows a b = true -> by_count_desc rows b c = true ->
  by_count_desc rows a c = true.
Proof. unfold by_count_desc. rewrite !Nat.leb_le. lia. Qed.

(** The rows of the join are the names that occur with the subject, other
    than the subject's own. *)
Lemma coOccurrences_In db subject name :
  In name (coOccurrences db subject)
  <-> co_occurs db subject name /\ nocase_eqb name subject = false.
Proof.
  unfold coOccurrences, co_occurs. split.
  - intros H.
    apply in_flat_map in H. destruct H as [ss1 [Hss1 H]].
    apply in_flat_map in H. destruct H as [s1 [Hs1 H]].
    destruct (SourceSubject.subject_id ss1 =? Subject.id s1)%Z eqn:H1; [|destruct H].
    apply in_flat_map in H. destruct H as [ss2 [Hss2 H]].
    destruct (SourceSubject.source_id ss1 =? SourceSubject.source_id ss2)%Z eqn:H2;
      [|destruct H].
    apply in_flat_map in H. destruct H as [s2 [Hs2 H]].
    destruct ((SourceSubject.subject_id ss2 =? Subject.id s2)%Z
              && nocase_eqb (Subject.subject s1) subject
              && negb (nocase_eqb (Subject.subject s2) subject)) eqn:H3; [|destruct H].
    destruct H as [<-|[]].
    apply andb_true_iff in H3. destruct H3 as [H3 H5].
    apply andb_true_iff in H3. destruct H3 as [H3 H4].
    apply Z.eqb_eq in H1. apply Z.eqb_eq in H2. apply Z.eqb_eq in H3.
    apply negb_true_iff in H5. split; [|exact H5].
    exists ss1, s1, ss2, s2. repeat split; auto.
  - intros [[ss1 [s1 [ss2 [s2 [Hss1 [Hs1 [Hss2 [Hs2 [H1 [H2 [H3 [H4 H5]]]]]]]]]]]] Hother].
    apply in_flat_map. exists ss1. split; [exact Hss1|].
    apply in_flat_map. exists s1. split; [exact Hs1|].
    rewrite H1, Z.eqb_refl.
    apply in_flat_map. exists ss2. split; [exact Hss2|].
    rewrite H2, Z.eqb_refl.
    apply in_flat_map. exists s2. split; [exact Hs2|].
    rewrite H3, Z.eqb_refl, H4, H5, Hother. simpl. left. reflexivity.
Qed.

(** X20.  What [findSimilarSubjectsInDatabase] returns: names of subjects that
    share a source with the given subject, none of them the subject's own
    name (up to ASCII case), each name once, in descending order of the
    number of joined rows they share, and no more of them than a limit that
    is not negative allows.  The threshold has no influence. *)
Theorem findSimilarSubjects_names db subject limit threshold :
  let names := findSimilarSubjectsInDatabase db subject limit threshold in
  NoDup names
  /\ Forall (fun name => co_occurs db subject name /\ nocase_eqb name subject = false) names
  /\ StronglySorted (fun a b => shared_count db subject b <= shared_count db subject a) names
  /\ ((0 <= limit)%Z -> length names <= Z.to_nat limit)
  /\ forall threshold', findSimilarSubjectsInDatabase db subject limit threshold' = names.
Proof.
  intros names. unfold names, findSimilarSubjectsInDatabase.
  split; [|split; [|split; [|split]]].
  - apply LIMIT_NoDup. eapply Permutation_NoDup.
    + apply Permutation_sym. apply ORDER_BY_Permutation.
    + apply NoDup_nodup.
  - apply Forall_forall. intros name Hname. apply LIMIT_In in Hname.
    apply ORDER_BY_In in Hname. apply nodup_In in Hname.
    apply coOccurrences_In. exact Hname.
  - apply LIMIT_sorted.
    apply (StronglySorted_iff _ (fun a b => by_count_desc (coOccurrences db subject) a b = true)).
    + intros a b. unfold by_count_desc, shared_count. apply Nat.leb_le.
    + apply ORDER_BY_sorted; [apply by_count_desc_total | apply by_count_desc_trans].
  - apply LIMIT_length.
  - reflexivity.
Qed.

(** X21.  [findSimilarSubjectsInDatabase] returns the names that share the most:
    a name that occurs with the subject and is not returned shares no more
    rows with it than any returned name, and this only happens when the
    limit is reached. *)
Theorem findSimilarSubjects_keeps_the_top db subject limit threshold name :
  let names := findSimilarSubjectsInDatabase db subject limit threshold in
  co_occurs db subject name ->
  nocase_eqb name subject = false ->
  In name names
  \/ ((0 <= limit)%Z
      /\ length names = Z.to_nat limit
      /\ Forall (fun listed => shared_count db subject name <= shared_count db subject listed)
                names).
Proof.
  intros names Hco Hother. unfold names, findSimilarSubjectsInDatabase.
  apply (LIMIT_sorted_top
           _ (fun a b => shared_count db subject b <= shared_count db subject a)).
  - apply (StronglySorted_iff _ (fun a b => by_count_desc (coOccurrences db subject) a b = true)).
    + intros a b. unfold by_count_desc, shared_count. apply Nat.leb_le.
    + apply ORDER_BY_sorted; [apply by_count_desc_total | apply by_count_desc_trans].
  - apply ORDER_BY_In. apply nodup_In. apply coOccurrences_In. split; assumption.
Qed.

Lemma findSimilarSubjects_keeps_the_top_witness :
  In "Carol"%string (findSimilarSubjectsInDatabase scored_db "bob" 1 0.5%float)
  \/ ((0 <= 1)%Z
      /\ length (findSimilarSubjectsInDatabase scored_db "bob" 1 0.5%float) = Z.to_nat 1
      /\ Forall (fun listed => shared_count scored_db "bob" "Carol"
                               <= shared_count scored_db "bob" listed)
                (findSimilarSubjectsInDatabase scored_db "bob" 1 0.5%float)).
Proof.
  apply (findSimilarSubjects_keeps_the_top scored_db "bob"%string 1 0.5%float "Carol"%string).
  - exists (scored 3 2 5), {| Subject.id := 2; Subject.subject := "Bob"; Subject.type := "person" |},
      (scored 3 4 1), {| Subject.id := 4; Subject.subject := "Carol"; Subject.type := "person" |}.
    simpl. repeat split; auto 10.
  - vm_compute. reflexivity.
Defined.

End FindSimilar.

(** ** sqlite_query *)

Section SqliteQuery.

Import SQLiteQueryTool JsNumber.

Local Open Scope string_scope.

Lemma startsWith_app : forall prefix s t,
    startsWith s prefix = true -> startsWith (s ++ t) prefix = true.
Proof.
  induction prefix as [|p prefix IH]; intros s t H; [reflexivity|].
  destruct s as [|c s]; simpl in *; [discriminate H|].
  apply andb_true_iff in H. destruct H as [Hc H]. rewrite Hc. simpl.
  apply IH. exact H.
Qed.

Lemma startsWith_first s c prefix :
  startsWith s (String c prefix) = true -> startsWith s (String c "") = true.
Proof.
  destruct s as [|d s]; simpl; [tauto|].
  intros H. apply andb_true_iff in H. destruct H as [Hc _]. rewrite Hc. reflexivity.
Qed.

(** Lower-casing a longer text begins with the lower-cased shorter one. *)
Lemma toLowerCase_from_app : forall a b after_C3,
    exists rest, toLowerCase_from after_C3 (a ++ b) = toLowerCase_from after_C3 a ++ rest.
Proof.
  induction a as [|c a IH]; intros b after_C3; simpl.
  - eexists. reflexivity.
  - destruct (IH b (nat_of_ascii c =? 195)%nat) as [rest Hrest].
    exists rest. rewrite Hrest. reflexivity.
Qed.

(** X22.  Which statements [execute] lets through to the database.  For
    parameters that pass [validateToolParams], what [executeQuery] hands to
    the database is one of the three catalog statements (for the dot
    commands [.tables], [.indexes] and [.schema] and nothing after them), or
    the trimmed query itself, with [LIMIT n] appended or not, [n] between 1
    and 1000; in the latter case the statement begins, up to ASCII case,
    with one of the read-only prefixes.  Any other dot command that passed
    the validation is refused as unsupported. *)
Theorem validated_query_reaches_the_database_read_only params :
  let sql := trim (SQLiteQueryTool.query params) in
  let n := limit_or_default (SQLiteQueryTool.limit params) in
  validateToolParams params = None ->
  match executeQuery sql n with
  | Ok statement =>
      (In statement catalog_statements
       /\ In (trim (toLowerCase sql)) [".tables"; ".indexes"; ".schema"])
      \/ ((exists prefix,
              In prefix read_only_prefixes
              /\ startsWith (toLowerCase statement) prefix = true)
          /\ (statement = sql
              \/ (statement = sql ++ " LIMIT " ++ number_to_string n
                  /\ (1 <= n <= 1000)%Z
                  /\ includes (toLowerCase sql) "limit" = false)))
  | Throw e =>
      e = Error ("Unsupported dot command: " ++ sql)
      /\ startsWith (toLowerCase sql) "." = true
  end.
Proof.
  intros sql n Hvalid. unfold validateToolParams in Hvalid. fold sql in Hvalid.
  destruct (negb (truthy (SQLiteQueryTool.query params)) || String.eqb sql "");
    [discriminate Hvalid|].
  cbv zeta in Hvalid.
  destruct (existsb (fun prefix => startsWith (toLowerCase sql) prefix) allowedPrefixes)
    eqn:Hallowed; [|discriminate Hvalid].
  simpl negb in Hvalid. cbv iota in Hvalid.
  assert (Hn : (1 <= n <= 1000)%Z).
  { unfold n, limit_or_default.
    destruct (SQLiteQueryTool.limit params) as [l|]; [|lia].
    destruct ((l <? 1)%Z || (1000 <? l)%Z) eqn:Hl; [discriminate Hvalid|].
    apply orb_false_iff in Hl. destruct Hl as [H1 H2].
    apply Z.ltb_ge in H1. apply Z.ltb_ge in H2.
    assert (Hz : (l =? 0)%Z = false) by (apply Z.eqb_neq; lia).
    rewrite Hz. lia. }
  unfold executeQuery. destruct (startsWith (toLowerCase sql) ".") eqn:Hdot.
  - unfold handleDotCommand.
    destruct (String.eqb (trim (toLowerCase sql)) ".tables") eqn:H1.
    { apply String.eqb_eq in H1. left. rewrite H1. simpl. auto. }
    destruct (String.eqb (trim (toLowerCase sql)) ".indexes") eqn:H2.
    { apply String.eqb_eq in H2. left. rewrite H2. simpl. auto. }
    destruct (String.eqb (trim (toLowerCase sql)) ".schema") eqn:H3.
    { apply String.eqb_eq in H3. left. rewrite H3. simpl. auto. }
    split; reflexivity.
  - right.
    assert (Hprefix : exists prefix,
               In prefix read_only_prefixes
               /\ startsWith (toLowerCase sql) prefix = true).
    { apply existsb_exists in Hallowed. destruct Hallowed as [prefix [Hin Hstarts]].
      exists prefix. split; [|exact Hstarts].
      unfold allowedPrefixes in Hin. unfold read_only_prefixes. simpl in Hin.
      destruct Hin as [<-|[<-|[<-|[<-|[<-|[<-|[<-|[<-|[<-|[]]]]]]]]]];
        try (apply startsWith_first in Hstarts; congruence); simpl; auto 10. }
    destruct Hprefix as [prefix [Hin Hstarts]].
    destruct (startsWith (toLowerCase sql) "select"
              && negb (includes (toLowerCase sql) "limit")) eqn:Hcap.
    + split.
      * exists prefix. split; [exact Hin|].
        unfold toLowerCase in *.
        destruct (toLowerCase_from_app sql (" LIMIT " ++ number_to_string n) false)
          as [rest Hrest].
        rewrite Hrest. apply startsWith_app. exact Hstarts.
      * right. split; [reflexivity|]. split; [exact Hn|].
        apply andb_true_iff in Hcap. destruct Hcap as [_ Hcap].
        apply negb_true_iff in Hcap. exact Hcap.
    + split; [exists prefix; auto | left; reflexivity].
Qed.

Lemma validated_query_reaches_the_database_read_only_witness :
  match executeQuery "SELECT id FROM subjects" 25 with
  | Ok statement =>
      (In statement catalog_statements
       /\ In (trim (toLowerCase "SELECT id FROM subjects")) [".tables"; ".indexes"; ".schema"])
      \/ ((exists prefix,
              In prefix read_only_prefixes
              /\ startsWith (toLowerCase statement) prefix = true)
          /\ (statement = "SELECT id FROM subjects"
              \/ (statement = "SELECT id FROM subjects" ++ " LIMIT " ++ number_to_string 25
                  /\ (1 <= 25 <= 1000)%Z
                  /\ includes (toLowerCase "SELECT id FROM subjects") "limit" = false)))
  | Throw e =>
      e = Error ("Unsupported dot command: " ++ "SELECT id FROM subjects")
      /\ startsWith (toLowerCase "SELECT id FROM subjects") "." = true
  end.
Proof.
  apply (validated_query_reaches_the_database_read_only
           {| SQLiteQueryTool.query := "  SELECT id FROM subjects ";
              SQLiteQueryTool.database := None;
              SQLiteQueryTool.limit := Some 25%Z |}).
  vm_compute. reflexivity.
Defined.

End SqliteQuery.

(** ** Relative times *)

Section RelativeTime.

Import TimestampConverter JsNumber.

Local Open Scope Z_scope.

(** X23.  The units of [formatRelativeTime], by the distance in milliseconds
    from the date to now.  Below one minute (and for every date in the
    future) it counts seconds; then minutes, from 1 to 59; then hours, from
    1 to 23; then days, from 1 to 6; from seven days on it prints the date.
    The count is the distance divided by the unit, rounded down. *)
Theorem formatRelativeTime_units toLocaleDateString now date :
  let diffMs := now - date in
  let text := formatRelativeTime toLocaleDateString now date in
  (diffMs < 60000 ->
   text = (number_to_string (diffMs / 1000) ++ " seconds ago")%string
   /\ diffMs / 1000 < 60)
  /\ (60000 <= diffMs < 3600000 ->
      text = (number_to_string (diffMs / 60000) ++ " minutes ago")%string
      /\ 1 <= diffMs / 60000 <= 59)
  /\ (3600000 <= diffMs < 86400000 ->
      text = (number_to_string (diffMs / 3600000) ++ " hours ago")%string
      /\ 1 <= diffMs / 3600000 <= 23)
  /\ (86400000 <= diffMs < 604800000 ->
      text = (number_to_string (diffMs / 86400000) ++ " days ago")%string
      /\ 1 <= diffMs / 86400000 <= 6)
  /\ (604800000 <= diffMs -> text = toLocaleDateString date).
Proof.
  intros diffMs text. unfold text, formatRelativeTime. fold diffMs. cbv zeta.
  repeat split.
  - assert (H1 : (diffMs / 1000 <? 60) = true)
      by (apply Z.ltb_lt; Z.div_mod_to_equations; lia).
    rewrite H1. reflexivity.
  - Z.div_mod_to_equations; lia.
  - assert (H1 : (diffMs / 1000 <? 60) = false)
      by (apply Z.ltb_ge; Z.div_mod_to_equations; lia).
    assert (H2 : (diffMs / 1000 / 60 <? 60) = true)
      by (apply Z.ltb_lt; Z.div_mod_to_equations; lia).
    assert (Hq : diffMs / 1000 / 60 = diffMs / 60000)
      by (Z.div_mod_to_equations; lia).
    rewrite H1, H2, Hq. reflexivity.
  - Z.div_mod_to_equations; lia.
  - Z.div_mod_to_equations; lia.
  - assert (H1 : (diffMs / 1000 <? 60) = false)
      by (apply Z.ltb_ge; Z.div_mod_to_equations; lia).
    assert (H2 : (diffMs / 1000 / 60 <? 60) = false)
      by (apply Z.ltb_ge; Z.div_mod_to_equations; lia).
    assert (H3 : (diffMs / 1000 / 60 / 60 <? 24) = true)
      by (apply Z.ltb_lt; Z.div_mod_to_equations; lia).
    assert (Hq : diffMs / 1000 / 60 / 60 = diffMs / 3600000)
      by (Z.div_mod_to_equations; lia).
    rewrite H1, H2, H3, Hq. reflexivity.
  - Z.div_mod_to_equations; lia.
  - Z.div_mod_to_equations; lia.
  - assert (H1 : (diffMs / 1000 <? 60) = false)
      by (apply Z.ltb_ge; Z.div_mod_to_equations; lia).
    assert (H2 : (diffMs / 1000 / 60 <? 60) = false)
      by (apply Z.ltb_ge; Z.div_mod_to_equations; lia).
    assert (H3 : (diffMs / 1000 / 60 / 60 <? 24) = false)
      by (apply Z.ltb_ge; Z.div_mod_to_equations; lia).
    assert (H4 : (diffMs / 1000 / 60 / 60 / 24 <? 7) = true)
      by (apply Z.ltb_lt; Z.div_mod_to_equations; lia).
    assert (Hq : diffMs / 1000 / 60 / 60 / 24 = diffMs / 86400000)
      by (Z.div_mod_to_equations; lia).
    rewrite H1, H2, H3, H4, Hq. reflexivity.
  - Z.div_mod_to_equations; lia.
  - Z.div_mod_to_equations; lia.
  - intros Hweek.
    assert (H1 : (diffMs / 1000 <? 60) = false)
      by (apply Z.ltb_ge; Z.div_mod_to_equations; lia).
    assert (H2 : (diffMs / 1000 / 60 <? 60) = false)
      by (apply Z.ltb_ge; Z.div_mod_to_equations; lia).
    assert (H3 : (diffMs / 1000 / 60 / 60 <? 24) = false)
      by (apply Z.ltb_ge; Z.div_mod_to_equations; lia).
    assert (H4 : (diffMs / 1000 / 60 / 60 / 24 <? 7) = false)
      by (apply Z.ltb_ge; Z.div_mod_to_equations; lia).
    rewrite H1, H2, H3, H4. reflexivity.
Qed.

End RelativeTime.

(** ** The radius and the threshold at the edges *)

Section RadiusAndThreshold.

Lemma binary_round_aux_not_below_zero prec emax mz ez lz :
  not_below_zero (SpecFloat.binary_round_aux prec emax false mz ez lz).
Proof.
  unfold SpecFloat.binary_round_aux.
  destruct (SpecFloat.shr_fexp prec emax mz ez lz) as [mrs' e'].
  destruct (SpecFloat.shr_fexp _ _ _ _ _) as [mrs'' e''].
  destruct (SpecFloat.shr_m mrs''); [exact I | | exact I].
  destruct (_ <=? _)%Z; exact I.
Qed.

(** A square root is never below zero. *)
Lemma sqrt_not_below_zero x : not_below_zero (Prim2SF (PrimFloat.sqrt x)).
Proof.
  rewrite FloatAxioms.sqrt_spec. unfold SF64sqrt, SpecFloat.SFsqrt.
  destruct (Prim2SF x) as [s|[|]| |[|] m e]; try exact I.
  destruct (SpecFloat.SFsqrt_core_binary _ _ _ _) as [[mz ez] lz].
  apply binary_round_aux_not_below_zero.
Qed.

(** Nor is the length of an array. *)
Lemma number_of_nat_not_below_zero k : not_below_zero (Prim2SF (number_of_nat k)).
Proof.
  unfold number_of_nat. rewrite FloatAxioms.of_uint63_spec.
  unfold SpecFloat.binary_normalize.
  pose proof (Uint63.to_Z_bounded (Uint63.of_Z (Z.of_nat k))) as Hb.
  destruct (Uint63.to_Z (Uint63.of_Z (Z.of_nat k))) as [|m|m]; [exact I | | lia].
  unfold SpecFloat.binary_round.
  destruct (SpecFloat.shl_align _ _ _) as [mz ez].
  apply binary_round_aux_not_below_zero.
Qed.

Lemma ltb_zero_below_zero eps :
  PrimFloat.ltb eps 0 = true -> below_zero (Prim2SF eps).
Proof.
  rewrite FloatAxioms.ltb_spec. change (Prim2SF 0) with (S754_zero false).
  unfold SpecFloat.SFltb.
  destruct (Prim2SF eps) as [s|[|]| |[|] m e]; simpl; intros H;
    try discriminate H; exact I.
Qed.

Lemma leb_below_zero d eps :
  not_below_zero (Prim2SF d) -> below_zero (Prim2SF eps) -> PrimFloat.leb d eps = false.
Proof.
  rewrite FloatAxioms.leb_spec. unfold SpecFloat.SFleb.
  destruct (Prim2SF d) as [s|[|]| |[|] m e]; simpl; intros Hd;
    try contradiction;
    destruct (Prim2SF eps) as [s'|[|]| |[|] m' e']; simpl; intros He;
    try contradiction; reflexivity.
Qed.

Lemma ltb_not_above_zero k minPoints :
  not_below_zero (Prim2SF k) -> PrimFloat.leb minPoints 0 = true ->
  PrimFloat.ltb k minPoints = false.
Proof.
  rewrite FloatAxioms.leb_spec, FloatAxioms.ltb_spec.
  change (Prim2SF 0) with (S754_zero false).
  unfold SpecFloat.SFleb, SpecFloat.SFltb.
  destruct (Prim2SF k) as [s|[|]| |[|] m e]; simpl; intros Hk;
    try contradiction;
    destruct (Prim2SF minPoints) as [s'|[|]| |[|] m' e']; simpl; intros Hm;
    try discriminate Hm; reflexivity.
Qed.

Lemma getNeighbors_from_below_zero point pointIdx eps :
  PrimFloat.ltb eps 0 = true ->
  forall rest offset neighbors,
    getNeighbors_from point pointIdx eps rest offset = Ok neighbors ->
    neighbors = [].
Proof.
  intros Heps. induction rest as [|e rest IH]; intros offset neighbors H; simpl in H.
  - inversion H. reflexivity.
  - destruct (offset =? pointIdx).
    + apply (IH (S offset)). exact H.
    + apply bind_Ok_inv in H. destruct H as [d [Hd H]].
      apply bind_Ok_inv in H. destruct H as [ns [Hns H]].
      apply IH in Hns. subst ns.
      unfold euclideanDistance in Hd.
      destruct (negb (length point =? length e)); [discriminate Hd|].
      inversion Hd as [Hd']. rewrite <- Hd' in H.
      rewrite leb_below_zero in H;
        [| apply sqrt_not_below_zero | apply ltb_zero_below_zero; exact Heps].
      inversion H. reflexivity.
Qed.

Lemma getNeighbors_below_zero embeddings pointIdx eps neighbors :
  PrimFloat.ltb eps 0 = true ->
  getNeighbors embeddings pointIdx eps = Ok neighbors ->
  neighbors = [].
Proof.
  intros Heps H. unfold getNeighbors in H.
  destruct (nth_error embeddings pointIdx) as [point|].
  - apply (getNeighbors_from_below_zero point pointIdx eps Heps embeddings 0). exact H.
  - destruct embeddings; [inversion H; reflexivity | discriminate H].
Qed.

Lemma scan_without_neighbours embeddings eps minPoints :
  PrimFloat.ltb eps 0 = true ->
  PrimFloat.ltb 0 minPoints = true ->
  forall pending clusters clusterId labels,
    scan embeddings eps minPoints pending clusters clusterId = Ok labels ->
    labels = clusters.
Proof.
  intros Heps Hmin. induction pending as [|i pending IH];
    intros clusters clusterId labels H; simpl in H.
  - inversion H. reflexivity.
  - destruct (negb (is_unlabelled clusters i)); [apply (IH _ _ _ H)|].
    apply bind_Ok_inv in H. destruct H as [neighbors [Hn H]].
    apply (getNeighbors_below_zero _ _ _ _ Heps) in Hn. subst neighbors.
    change (number_of_nat (length (@nil nat))) with 0%float in H.
    rewrite Hmin in H. apply (IH _ _ _ H).
Qed.

(** X24.  With a radius below zero no point has a neighbour (a distance is never
    below zero); so with a threshold above zero every point stays noise. *)
Theorem negative_radius_leaves_all_noise embeddings eps minPoints labels :
  PrimFloat.ltb eps 0 = true ->
  PrimFloat.ltb 0 minPoints = true ->
  dbscanClustering embeddings eps minPoints = Ok labels ->
  labels = repeat (-1)%Z (length embeddings).
Proof.
  intros Heps Hmin H. unfold dbscanClustering in H.
  apply (scan_without_neighbours embeddings eps minPoints Heps Hmin _ _ _ _ H).
Qed.

Lemma negative_radius_leaves_all_noise_witness :
  [-1; -1; -1]%Z = repeat (-1)%Z (length [[0]; [1]; [5]]%float).
Proof.
  apply (negative_radius_leaves_all_noise [[0]; [1]; [5]]%float (-1)%float 2%float);
    vm_compute; reflexivity.
Defined.

(** X25.  With a threshold that is not above zero every point passes the seed
    test; so no point is left as noise, whatever the radius. *)
Theorem nonpositive_threshold_leaves_no_noise embeddings eps minPoints labels :
  PrimFloat.leb minPoints 0 = true ->
  dbscanClustering embeddings eps minPoints = Ok labels ->
  Forall (fun label => label <> (-1)%Z) labels.
Proof.
  intros Hmin H. apply dbscanClustering_invariant in H. destruct H as [seeds Hinv].
  apply Forall_forall. intros label Hin Hnoise. subst label.
  apply In_nth_error in Hin. destruct Hin as [i Hi].
  assert (Hlt : i < length embeddings).
  { rewrite <- (inv_length _ _ _ _ _ _ Hinv). apply nth_error_Some. congruence. }
  destruct (inv_noise _ _ _ _ _ _ Hinv i Hlt Hi) as [neighbors [_ Hfew]].
  rewrite ltb_not_above_zero in Hfew;
    [discriminate Hfew | apply number_of_nat_not_below_zero | exact Hmin].
Qed.

Lemma nonpositive_threshold_leaves_no_noise_witness :
  Forall (fun label => label <> (-1)%Z) [0; 1; 2]%Z.
Proof.
  apply (nonpositive_threshold_leaves_no_noise [[0]; [1]; [5]]%float (-1)%float (-1)%float);
    vm_compute; reflexivity.
Defined.

End RadiusAndThreshold.

(** ** The prompt and the summary *)

Section PromptAndSummary.

Local Open Scope string_scope.

(** X26.  When the main user is one of the two subjects, the prompt does not
    depend on the order in which the two names are given. *)
Theorem prompt_with_main_user_ignores_the_order sources other :
  createSubjectUnderstandingPrompt sources "Sam Hall" other
  = createSubjectUnderstandingPrompt sources other "Sam Hall".
Proof.
  unfold createSubjectUnderstandingPrompt.
  destruct (String.eqb other "Sam Hall") eqn:Hother.
  - apply String.eqb_eq in Hother. subst other. reflexivity.
  - change (String.eqb "Sam Hall" "Sam Hall") with true.
    rewrite orb_true_r. cbv iota. reflexivity.
Qed.

(** X27.  A run that succeeds never returns the empty text: the summary is a
    non-empty cached one, the non-empty answer of the summarizer, or one of
    the two fixed texts that stand for a missing answer and for missing
    evidence. *)
Theorem getOrCreate_never_returns_the_empty_text
        config world subject1Name subject2Name summary :
  fst (getOrCreateSubjectRelationship config world subject1Name subject2Name) = Ok summary ->
  truthy summary = true.
Proof.
  unfold getOrCreateSubjectRelationship.
  destruct (findSubjectIdsByName (wafer_db world) subject1Name subject2Name)
    as [[subject1Id subject2Id]|e]; [|intros H; discriminate H].
  destruct (ordered_pair subject1Id subject2Id) as [firstId secondId].
  destruct (existing_summary _) as [cached|] eqn:Hcached.
  - simpl. intros H. inversion H; subst cached.
    unfold existing_summary in Hcached.
    destruct (get _) as [row|]; [|discriminate Hcached].
    destruct (Relationship.relationship_summary row) as [text|]; [|discriminate Hcached].
    destruct (truthy text) eqn:Ht; [|discriminate Hcached].
    inversion Hcached; subst. exact Ht.
  - destruct (generateRelationshipSummary _ _ _ _ _ _) as [[generated|e] calls];
      [|intros H; discriminate H].
    destruct (updateSubjectRelationship _ _ _ _ _); simpl; intros H; [|discriminate H].
    inversion H. unfold summary_or_default.
    destruct generated as [text|]; [|reflexivity].
    destruct (truthy text) eqn:Ht; [exact Ht | reflexivity].
Qed.

Lemma getOrCreate_never_returns_the_empty_text_witness :
  truthy no_shared_sources = true.
Proof.
  apply (getOrCreate_never_returns_the_empty_text
           quiet_config (fresh strangers_db) "Alice" "Bob" no_shared_sources).
  vm_compute. reflexivity.
Defined.

End PromptAndSummary.
